(** * Product search platform: CSV transform, index persistence,
      staleness resolution and the query engine

    A shallow embedding of [csv-processor.ts], [startup-processor.ts] and
    [search-engine.ts], with the properties of the specification stated and
    settled against it.

    Conventions of the embedding.
    - A JavaScript [number] is [NaN], an infinity, or a finite value read as
      the rational it denotes; rounding of doubles is outside the model,
      but for [parseInt], whose integer is rounded to a number
      ([Num.of_integer]).
    - A JavaScript string is a Rocq [string] holding the UTF-8 bytes of its
      text.  What the language counts in UTF-16 code units is counted in
      those units ([Str.utf16_length], the default order of [sort]);
      [substring] cuts bytes, which is the same on ASCII text, and what is
      proved of it is proved of ASCII text.  White space is that of the
      ASCII range.  The case mapping of the search engine is the
      library's, a section variable.
    - [undefined] is [None]; an exception is the [Throw] outcome of [res].
    - Library calls whose algorithm is not part of the repository (Fuse.js
      ranking, [toLowerCase] and [localeCompare] over Unicode, [Date]
      parsing, [Number.prototype.toString], the CSV reader) are section
      variables. *)

From Stdlib Require Import ZArith QArith Lqa Lia List Ascii String Bool.
From Stdlib Require Import Sorting.Sorted Sorting.Permutation DecimalString.
From stdpp Require Import base option list gmap strings.
Import ListNotations.

Local Open Scope string_scope.
Local Open Scope Z_scope.

(* ===================================================================== *)
(** ** JavaScript numbers *)
(* ===================================================================== *)

Module Num.

Inductive number : Type :=
| NaN
| Inf (neg : bool)
| Fin (q : Q).

Definition zero : number := Fin 0%Q.
Definition of_Z (z : Z) : number := Fin (inject_Z z).

(** ToBoolean on a number: [0] and [NaN] are falsy. *)
Definition truthy (n : number) : bool :=
  match n with
  | NaN => false
  | Inf _ => true
  | Fin q => negb (Qnum q =? 0)
  end.

(** Ordering of two numbers; [None] when either is [NaN]. *)
Definition compare (a b : number) : option comparison :=
  match a, b with
  | NaN, _ | _, NaN => None
  | Inf true, Inf true => Some Eq
  | Inf true, _ => Some Lt
  | _, Inf true => Some Gt
  | Inf false, Inf false => Some Eq
  | Inf false, _ => Some Gt
  | _, Inf false => Some Lt
  | Fin x, Fin y => Some (x ?= y)%Q
  end.

(** [a >= b], [a <= b], [a > b], [a < b]: every comparison with [NaN] is
    false. *)
Definition ge (a b : number) : bool :=
  match compare a b with Some Gt | Some Eq => true | _ => false end.
Definition le (a b : number) : bool :=
  match compare a b with Some Lt | Some Eq => true | _ => false end.
Definition gt (a b : number) : bool :=
  match compare a b with Some Gt => true | _ => false end.
Definition lt (a b : number) : bool :=
  match compare a b with Some Lt => true | _ => false end.

(** [a - b]. *)
Definition sub (a b : number) : number :=
  match a, b with
  | NaN, _ | _, NaN => NaN
  | Inf s, Inf t => if Bool.eqb s t then NaN else Inf s
  | Inf s, Fin _ => Inf s
  | Fin _, Inf t => Inf (negb t)
  | Fin x, Fin y => Fin (x - y)%Q
  end.

(** [a || b] on numbers. *)
Definition or_else (a b : number) : number := if truthy a then a else b.

(** The number value of a mathematical integer: the integer itself below
    [2^53], and from there on the nearest double, ties to the even
    significand, or an infinity from [2^1024] on. *)
Definition of_integer (z : Z) : number :=
  let a := Z.abs z in
  if a <? 2 ^ 53 then of_Z z
  else
    let e := Z.log2 a - 52 in
    let q := a / 2 ^ e in
    let r := a mod 2 ^ e in
    let half := 2 ^ (e - 1) in
    let q' := if (half <? r) || ((r =? half) && Z.odd q) then q + 1 else q in
    let m := q' * 2 ^ e in
    if 2 ^ 1024 <=? m then Inf (z <? 0)
    else of_Z (if z <? 0 then - m else m).

(** The exact integer quotient rounded up, [Math.ceil(a / b)] for integers
    [a], [b]: [a / 0] is an infinity (or [NaN] for [0 / 0]). *)
Definition ceil_div (a b : Z) : number :=
  if b =? 0 then
    (if a =? 0 then NaN else Inf (a <? 0))
  else of_Z (- ((- a) / b)).

End Num.
Export Num(number, NaN, Inf, Fin).

(* ===================================================================== *)
(** ** JavaScript strings and arrays *)
(* ===================================================================== *)

Module Str.

Definition chars := list ascii.

Definition of_string : string -> chars := list_ascii_of_string.
Definition to_string : chars -> string := string_of_list_ascii.

Definition is_digit (c : ascii) : bool :=
  let n := nat_of_ascii c in (48 <=? n)%nat && (n <=? 57)%nat.

Definition digit_val (c : ascii) : Z := Z.of_nat (nat_of_ascii c) - 48.

(** White space and line terminators of the ASCII range, as skipped by
    [trim], [parseFloat] and [parseInt]. *)
Definition is_space (c : ascii) : bool :=
  let n := nat_of_ascii c in
  ((9 <=? n)%nat && (n <=? 13)%nat) || (n =? 32)%nat.

(** The UTF-16 code units a byte of UTF-8 text stands for: none for a
    continuation byte, two for the first byte of a four-byte sequence (a
    surrogate pair), one otherwise. *)
Definition units_of_byte (c : ascii) : Z :=
  let n := nat_of_ascii c in
  if (128 <=? n)%nat && (n <? 192)%nat then 0
  else if (240 <=? n)%nat then 2 else 1.

(** [s.length]. *)
Definition utf16_length (s : string) : Z :=
  fold_right (fun c acc => units_of_byte c + acc) 0 (of_string s).

(** [toLowerCase] on the ASCII range.  The transform compares its
    result with [true], [1] and [yes] only, words that no text with a
    character outside ASCII maps to. *)
Definition lower_char (c : ascii) : ascii :=
  let n := nat_of_ascii c in
  if (65 <=? n)%nat && (n <=? 90)%nat then ascii_of_nat (n + 32) else c.

Fixpoint toLowerCase (s : string) : string :=
  match s with
  | EmptyString => EmptyString
  | String c t => String (lower_char c) (toLowerCase t)
  end.

(** [s.startsWith(p)]. *)
Definition startsWith (p s : string) : bool := String.prefix p s.

(** [s.includes(p)]. *)
Fixpoint includes (p s : string) : bool :=
  String.prefix p s ||
  match s with
  | EmptyString => false
  | String _ t => includes p t
  end.

Fixpoint drop_space (s : chars) : chars :=
  match s with
  | c :: t => if is_space c then drop_space t else s
  | [] => []
  end.

(** [s.trim()]. *)
Definition trim (s : string) : string :=
  to_string (rev (drop_space (rev (drop_space (of_string s))))).

(** [s.substring(0, n)] for an integer [n]; a negative [n] counts as 0.
    The cut is made after [n] bytes: after [n] code units when the text
    is ASCII. *)
Definition substring0 (n : Z) (s : string) : string :=
  String.substring 0 (Z.to_nat n) s.

(** Longest prefix of characters satisfying [p], and the rest. *)
Fixpoint span (p : ascii -> bool) (s : chars) : chars * chars :=
  match s with
  | c :: t => if p c then let '(a, b) := span p t in (c :: a, b) else ([], s)
  | [] => ([], [])
  end.

(** Value of a string of decimal digits. *)
Definition digits_val (ds : chars) : Z :=
  fold_left (fun acc c => 10 * acc + digit_val c) ds 0.

(** [xs.slice(start, end)] with integer arguments: negative indices count
    from the end, everything is clamped to the array. *)
Definition slice {A} (start stop : Z) (l : list A) : list A :=
  let len := Z.of_nat (List.length l) in
  let k := if start <? 0 then Z.max (len + start) 0 else Z.min start len in
  let fin := if stop <? 0 then Z.max (len + stop) 0 else Z.min stop len in
  firstn (Z.to_nat (fin - k)) (skipn (Z.to_nat k) l).

End Str.

(* ===================================================================== *)
(** ** Built-in parsers: [parseFloat], [parseInt] and the two regular
       expressions of the transform *)
(* ===================================================================== *)

Module Parse.
Import Str.

(** [10^e] as a rational, for any integer exponent. *)
Definition pow10 (e : Z) : Q :=
  if 0 <=? e then inject_Z (10 ^ e) else (1 # Z.to_pos (10 ^ (- e)))%Q.

(** An optional sign: [true] for a minus. *)
Definition take_sign (s : chars) : bool * chars :=
  match s with
  | "-"%char :: t => (true, t)
  | "+"%char :: t => (false, t)
  | _ => (false, s)
  end.

(** The exponent part [e[+-]digits] if it is complete, else 0. *)
Definition exponent (s : chars) : Z :=
  match s with
  | c :: t =>
      if (Ascii.eqb c "e" || Ascii.eqb c "E")%char then
        let '(neg, t') := take_sign t in
        let '(ds, _) := span is_digit t' in
        match ds with
        | [] => 0
        | _ => if neg then - digits_val ds else digits_val ds
        end
      else 0
  | [] => 0
  end.

(** The unsigned decimal literal at the start of [s]. *)
Definition unsigned_literal (s : chars) : option Q :=
  let '(ip, r1) := span is_digit s in
  let '(fp, r2) :=
    match r1 with
    | "."%char :: r => span is_digit r
    | _ => ([], r1)
    end in
  match (ip ++ fp)%list with
  | [] => None
  | ds =>
      Some (Qred (inject_Z (digits_val ds)
                  * pow10 (exponent r2 - Z.of_nat (List.length fp))))
  end.

Definition apply_sign (neg : bool) (n : number) : number :=
  match n with
  | NaN => NaN
  | Inf s => Inf (xorb neg s)
  | Fin q => Fin (if neg then Qred (- q) else q)
  end.

(** [parseFloat(s)] on a string: leading white space is skipped, then the
    longest prefix that is a decimal literal (or [Infinity]) is read;
    [NaN] when there is none. *)
Definition parseFloat (s : string) : number :=
  let '(neg, body) := take_sign (drop_space (of_string s)) in
  if String.prefix "Infinity" (to_string body) then Inf neg
  else match unsigned_literal body with
       | Some q => apply_sign neg (Fin q)
       | None => NaN
       end.

(** [parseInt(s, 10)]: the mathematical integer that the sign and the
    digits denote, [None] for [NaN].  The number that the call returns
    is [Num.of_integer] of it. *)
Definition parseInt (s : string) : option Z :=
  let '(neg, body) := take_sign (drop_space (of_string s)) in
  let '(ds, _) := span is_digit body in
  match ds with
  | [] => None
  | _ => Some (if neg then - digits_val ds else digits_val ds)
  end.

(** [s.match(/[\d.]+/g)]: the maximal runs of digits and dots, in order
    (the empty list stands for [null]). *)
Definition is_num_char (c : ascii) : bool := is_digit c || Ascii.eqb c ".".

Fixpoint runs (cur : chars) (s : chars) : list string :=
  let flush := match cur with [] => [] | _ => [to_string (rev cur)] end in
  match s with
  | [] => flush
  | c :: t =>
      if is_num_char c then runs (c :: cur) t
      else (flush ++ runs [] t)%list
  end.

Definition match_numeric (s : string) : list string := runs [] (of_string s).

(** [s.replace(/<[^>]*>/g, "")]: every [<] that is followed somewhere by a
    [>] is removed together with everything up to the first such [>]. *)
Definition has_gt (s : chars) : bool := existsb (Ascii.eqb ">") s.

Fixpoint strip (inside : bool) (s : chars) : chars :=
  match s with
  | [] => []
  | c :: t =>
      if inside then
        (if Ascii.eqb c ">" then strip false t else strip true t)
      else if Ascii.eqb c "<" then
        (if has_gt t then strip true t else s)
      else c :: strip false t
  end.

Definition strip_tags (s : string) : string :=
  to_string (strip false (of_string s)).

(** [s.split(",")]. *)
Fixpoint split_comma (cur : chars) (s : chars) : list string :=
  match s with
  | [] => [to_string (rev cur)]
  | c :: t =>
      if Ascii.eqb c "," then to_string (rev cur) :: split_comma [] t
      else split_comma (c :: cur) t
  end.

Definition split (s : string) : list string := split_comma [] (of_string s).

End Parse.


(* ===================================================================== *)
(** ** [JSON.parse] *)
(* ===================================================================== *)

Module Json.
Import Str Parse.

#[warnings="-register-all"]
Inductive json : Type :=
| JNull
| JBool (b : bool)
| JNum (n : number)
| JStr (s : string)
| JArr (items : list json)
| JObj (fields : list (string * json)).

Inductive token : Type :=
| TLBrace | TRBrace | TLBrack | TRBrack | TColon | TComma
| TScalar (v : json).

(** *** Lexer: one pass over the characters *)

Inductive mode : Type :=
| Idle
| InWord (acc : chars)
| InNumber (acc : chars)
| InString (acc : chars)
| InEscape (acc : chars)
| InUnicode (acc : chars) (hex : list Z).

Definition is_json_space (c : ascii) : bool :=
  let n := nat_of_ascii c in
  (n =? 32)%nat || (n =? 9)%nat || (n =? 10)%nat || (n =? 13)%nat.

Definition is_lower (c : ascii) : bool :=
  let n := nat_of_ascii c in (97 <=? n)%nat && (n <=? 122)%nat.

Definition is_number_char (c : ascii) : bool :=
  is_digit c || existsb (Ascii.eqb c) ["-"; "+"; "."; "e"; "E"]%char.

Definition hex_val (c : ascii) : option Z :=
  let n := Z.of_nat (nat_of_ascii c) in
  if (48 <=? n) && (n <=? 57) then Some (n - 48)
  else if (65 <=? n) && (n <=? 70) then Some (n - 55)
  else if (97 <=? n) && (n <=? 102) then Some (n - 87)
  else None.

Definition byte (z : Z) : ascii := ascii_of_nat (Z.to_nat z).

Definition dquote : ascii := byte 34.

(** JSON texts are written below with ['] in place of the double quote. *)
Fixpoint js (s : string) : string :=
  match s with
  | EmptyString => EmptyString
  | String c t => String (if Ascii.eqb c "'" then dquote else c) (js t)
  end.

(** A code unit written [\uXXXX], as the bytes of its UTF-8 form. *)
Definition utf8 (u : Z) : chars :=
  if u <? 128 then [byte u]
  else if u <? 2048 then [byte (192 + u / 64); byte (128 + u mod 64)]
  else [byte (224 + u / 4096); byte (128 + (u / 64) mod 64);
        byte (128 + u mod 64)].

(** The number grammar of JSON: an optional minus, an integer part without
    a leading zero, an optional fraction with at least one digit, an optional
    exponent with at least one digit. *)
Definition json_exponent (s : chars) : option Z :=
  match s with
  | [] => Some 0
  | c :: t =>
      if (Ascii.eqb c "e" || Ascii.eqb c "E")%char then
        let '(neg, t') := take_sign t in
        match span is_digit t' with
        | ((_ :: _) as ds, []) =>
            Some (if neg then - digits_val ds else digits_val ds)
        | _ => None
        end
      else None
  end.

Definition json_fraction (s : chars) : option (chars * chars) :=
  match s with
  | "."%char :: r =>
      match span is_digit r with
      | ((_ :: _) as fp, r2) => Some (fp, r2)
      | _ => None
      end
  | _ => Some ([], s)
  end.

Definition json_number (s : chars) : option Q :=
  let '(neg, s1) :=
    match s with "-"%char :: t => (true, t) | _ => (false, s) end in
  let '(ip, r1) := span is_digit s1 in
  match ip with
  | [] => None
  | "0"%char :: _ :: _ => None
  | _ =>
      match json_fraction r1 with
      | None => None
      | Some (fp, r2) =>
          match json_exponent r2 with
          | None => None
          | Some e =>
              let m := digits_val (ip ++ fp)%list in
              Some (Qred (inject_Z (if neg then - m else m)
                          * pow10 (e - Z.of_nat (List.length fp))))
          end
      end
  end.

Definition json_word (w : string) : option json :=
  if String.eqb w "null" then Some JNull
  else if String.eqb w "true" then Some (JBool true)
  else if String.eqb w "false" then Some (JBool false)
  else None.

(** A word or number being read is complete: emit its token. *)
Definition flush (m : mode) (out : list token) : option (list token) :=
  match m with
  | Idle => Some out
  | InWord acc =>
      v ← json_word (to_string (rev acc)); Some (TScalar v :: out)
  | InNumber acc =>
      q ← json_number (rev acc); Some (TScalar (JNum (Fin q)) :: out)
  | _ => None
  end.

Definition lex_idle (c : ascii) (out : list token)
  : option (mode * list token) :=
  if is_json_space c then Some (Idle, out)
  else if Ascii.eqb c "{" then Some (Idle, TLBrace :: out)
  else if Ascii.eqb c "}" then Some (Idle, TRBrace :: out)
  else if Ascii.eqb c "[" then Some (Idle, TLBrack :: out)
  else if Ascii.eqb c "]" then Some (Idle, TRBrack :: out)
  else if Ascii.eqb c ":" then Some (Idle, TColon :: out)
  else if Ascii.eqb c "," then Some (Idle, TComma :: out)
  else if Ascii.eqb c dquote then Some (InString [], out)
  else if Ascii.eqb c "-" || is_digit c then Some (InNumber [c], out)
  else if is_lower c then Some (InWord [c], out)
  else None.

Definition unescape (c : ascii) : option ascii :=
  if existsb (Ascii.eqb c) [dquote; "\"; "/"]%char then Some c
  else if Ascii.eqb c "b" then Some (byte 8)
  else if Ascii.eqb c "f" then Some (byte 12)
  else if Ascii.eqb c "n" then Some (byte 10)
  else if Ascii.eqb c "r" then Some (byte 13)
  else if Ascii.eqb c "t" then Some (byte 9)
  else None.

Definition lex_step (st : mode * list token) (c : ascii)
  : option (mode * list token) :=
  let '(m, out) := st in
  match m with
  | Idle => lex_idle c out
  | InWord acc =>
      if is_lower c then Some (InWord (c :: acc), out)
      else out' ← flush m out; lex_idle c out'
  | InNumber acc =>
      if is_number_char c then Some (InNumber (c :: acc), out)
      else out' ← flush m out; lex_idle c out'
  | InString acc =>
      if Ascii.eqb c dquote then
        Some (Idle, TScalar (JStr (to_string (rev acc))) :: out)
      else if Ascii.eqb c "\" then Some (InEscape acc, out)
      else if (nat_of_ascii c <? 32)%nat then None
      else Some (InString (c :: acc), out)
  | InEscape acc =>
      if Ascii.eqb c "u" then Some (InUnicode acc [], out)
      else c' ← unescape c; Some (InString (c' :: acc), out)
  | InUnicode acc hex =>
      h ← hex_val c;
      match hex with
      | [a; b; d] =>
          Some (InString (rev_append (utf8 (((a * 16 + b) * 16 + d) * 16 + h))
                                     acc), out)
      | _ => Some (InUnicode acc (hex ++ [h])%list, out)
      end
  end.

Fixpoint lex_from (st : mode * list token) (s : chars)
  : option (list token) :=
  match s with
  | [] => out ← flush st.1 st.2; Some (rev out)
  | c :: t => st' ← lex_step st c; lex_from st' t
  end.

Definition lex (s : string) : option (list token) :=
  lex_from (Idle, []) (of_string s).

(** *** Parser: a stack of open containers *)

Inductive frame : Type :=
| FArr (items : list json)
| FObj (fields : list (string * json)) (key : option string).

Inductive expect : Type :=
| EValue (first : bool)
| EKey (first : bool)
| EColon (k : string)
| EAfter
| EDone (v : json).

Definition pstate : Type := list frame * expect.

(** A complete value goes into the innermost open container, or ends the
    text. *)
Definition push_value (stack : list frame) (v : json) : option pstate :=
  match stack with
  | [] => Some ([], EDone v)
  | FArr items :: st => Some (FArr (v :: items) :: st, EAfter)
  | FObj fields (Some k) :: st =>
      Some (FObj ((k, v) :: fields) None :: st, EAfter)
  | FObj _ None :: _ => None
  end.

Definition close_array (stack : list frame) : option pstate :=
  match stack with
  | FArr items :: st => push_value st (JArr (rev items))
  | _ => None
  end.

Definition close_object (stack : list frame) : option pstate :=
  match stack with
  | FObj fields None :: st => push_value st (JObj (rev fields))
  | _ => None
  end.

Definition parse_step (st : pstate) (t : token) : option pstate :=
  let '(stack, e) := st in
  match e, t with
  | EValue _, TScalar v => push_value stack v
  | EValue _, TLBrack => Some (FArr [] :: stack, EValue true)
  | EValue _, TLBrace => Some (FObj [] None :: stack, EKey true)
  | EValue true, TRBrack => close_array stack
  | EKey _, TScalar (JStr k) => Some (stack, EColon k)
  | EKey true, TRBrace => close_object stack
  | EColon k, TColon =>
      match stack with
      | FObj fields None :: st => Some (FObj fields (Some k) :: st, EValue false)
      | _ => None
      end
  | EAfter, TComma =>
      match stack with
      | FArr _ :: _ => Some (stack, EValue false)
      | FObj _ _ :: _ => Some (stack, EKey false)
      | [] => None
      end
  | EAfter, TRBrack => close_array stack
  | EAfter, TRBrace => close_object stack
  | _, _ => None
  end.

Fixpoint parse_tokens (st : pstate) (ts : list token) : option json :=
  match ts with
  | [] => match st with ([], EDone v) => Some v | _ => None end
  | t :: ts' => st' ← parse_step st t; parse_tokens st' ts'
  end.

(** [JSON.parse(s)]: [None] when it throws a [SyntaxError]. *)
Definition parse (s : string) : option json :=
  ts ← lex s; parse_tokens ([], EValue false) ts.

(** Own property [k] of a parsed object: the last member named [k]. *)
Fixpoint field (k : string) (fs : list (string * json)) : option json :=
  match fs with
  | [] => None
  | (k', v) :: rest =>
      match field k rest with
      | Some w => Some w
      | None => if String.eqb k k' then Some v else None
      end
  end.

End Json.
Export Json(json, JNull, JBool, JNum, JStr, JArr, JObj).


(* ===================================================================== *)
(** ** Values, exceptions and property access *)
(* ===================================================================== *)

Module Js.

Inductive exn : Type :=
| SyntaxError
| TypeError
| Error (msg : string)
| IOError (op : string).

(** The outcome of an expression that may throw. *)
Inductive res (A : Type) : Type :=
| Ok (a : A)
| Throw (e : exn).
Arguments Ok {A} a.
Arguments Throw {A} e.

Definition bind {A B} (m : res A) (f : A -> res B) : res B :=
  match m with
  | Ok a => f a
  | Throw e => Throw e
  end.

(** [try { body } catch { handler }]. *)
Definition try_catch {A} (body : res A) (handler : exn -> res A) : res A :=
  match body with
  | Ok a => Ok a
  | Throw e => handler e
  end.

(** A value that may be [undefined]. *)
Definition val : Type := option json.

Definition undefined : val := None.

(** ToBoolean. *)
Definition truthy (v : val) : bool :=
  match v with
  | None | Some JNull => false
  | Some (JBool b) => b
  | Some (JNum n) => Num.truthy n
  | Some (JStr s) => negb (String.eqb s EmptyString)
  | Some (JArr _) | Some (JObj _) => true
  end.

(** [typeof v === "object"]: objects, arrays and [null]. *)
Definition is_object (v : val) : bool :=
  match v with
  | Some JNull | Some (JArr _) | Some (JObj _) => true
  | _ => false
  end.

Definition isArray (v : val) : bool :=
  match v with Some (JArr _) => true | _ => false end.

Definition is_defined (v : val) : bool :=
  match v with Some _ => true | None => false end.

(** [v.k] for a name [k] that is neither an index nor a built-in member:
    reading a property of [undefined] or [null] throws, a parsed object
    gives its own member, every other value gives [undefined]. *)
Definition get (v : val) (k : string) : res val :=
  match v with
  | None | Some JNull => Throw TypeError
  | Some (JObj fs) => Ok (Json.field k fs)
  | Some _ => Ok None
  end.

(** [parseFloat(v)] converts [v] to a string first.  A number prints as a
    literal that reads back as itself; an array prints its items separated
    by commas, so only the first item can contribute; [true], [null] and
    [[object Object]] start with no literal. *)
Fixpoint parseFloat_val (v : json) : number :=
  match v with
  | JNum n => n
  | JStr s => Parse.parseFloat s
  | JArr (x :: _) => parseFloat_val x
  | _ => NaN
  end.

(** [parseFloat(v || 0)]. *)
Definition parseFloat_or0 (v : val) : number :=
  match v with
  | Some j => if truthy v then parseFloat_val j else Num.zero
  | None => Num.zero
  end.

End Js.
Export Js(res, Ok, Throw, exn).

#[global] Instance res_ret : MRet res := @Ok.
#[global] Instance res_bind : MBind res := fun A B f m => Js.bind m f.

(* ===================================================================== *)
(** ** types.ts *)
(* ===================================================================== *)

Module Types.

Record PriceRange : Type := { min : number; max : number }.

(** The [Product] interface.  Arrays and the featured image hold whatever
    JSON value the row carried: the transform does not check item types.
    Optional members that no operation reads (SEO data, variants, shop
    links) are left out. *)
Record Product : Type := {
  id : string;
  title : string;
  handle : option string;
  vendor : string;
  description : string;
  productType : string;
  tags : list json;
  status : string;
  createdAt : string;
  updatedAt : string;
  publishedAt : string;
  priceRange : PriceRange;
  images : list json;
  totalInventory : option number;
  price : option number;
  featuredImage : option json;
  isGiftCard : option bool;
  hasOutOfStockVariants : option bool;
}.

Record SearchFilters : Type := {
  f_vendor : option string;
  f_productType : option string;
  f_minPrice : option number;
  f_maxPrice : option number;
  f_inStock : option bool;
}.

Definition no_filters : SearchFilters :=
  {| f_vendor := None; f_productType := None; f_minPrice := None;
     f_maxPrice := None; f_inStock := None |}.

End Types.

(* ===================================================================== *)
(** ** csv-processor.ts: the row transform *)
(* ===================================================================== *)

Module Transform.
Import Str Parse Js Types.

(** A cell of a parsed CSV record.  The reader runs with [cast: true], so a
    numeric field arrives as a finite number and any other as a string; a
    column the record does not have reads as [undefined]. *)
Inductive cell : Type :=
| CStr (s : string)
| CNum (q : Q).

Definition field : Type := option cell.

Record ProcessingConfig : Type := {
  chunkSize : Z;
  maxImages : Z;
  maxDescriptionLength : Z;
  enableProgress : bool;
  enableMetrics : bool;
}.

Definition DEFAULT_CONFIG : ProcessingConfig :=
  {| chunkSize := 2000; maxImages := 3; maxDescriptionLength := 500;
     enableProgress := true; enableMetrics := true |}.

(** ToBoolean on a cell: [undefined], the empty string and [0] are falsy. *)
Definition truthy (f : field) : bool :=
  match f with
  | None => false
  | Some (CStr s) => negb (String.eqb s EmptyString)
  | Some (CNum q) => negb (Qnum q =? 0)
  end.

(** [a || b]. *)
Definition or_else (a b : field) : field := if truthy a then a else b.
Infix "|||" := or_else (at level 50, left associativity).

Definition is_string (f : field) : bool :=
  match f with Some (CStr _) => true | _ => false end.

Definition defaultRange : PriceRange := {| min := Num.zero; max := Num.zero |}.

Section WithNumberToString.

(** [Number.prototype.toString] on a finite number. *)
Variable Number_toString : Q -> string.

(** [String(c)] and [c.toString()] on a cell. *)
Definition toString (c : cell) : string :=
  match c with
  | CStr s => s
  | CNum q => Number_toString q
  end.

(** [String(f || dflt)]. *)
Definition String_or (f : field) (dflt : string) : string :=
  match f with
  | Some c => if truthy f then toString c else dflt
  | None => dflt
  end.

(** [JSON.parse(c)]: the argument is converted to a string first.  The
    text of a finite number is a JSON number denoting it. *)
Definition JSON_parse (c : cell) : res json :=
  match c with
  | CStr s =>
      match Json.parse s with
      | Some j => Ok j
      | None => Throw Js.SyntaxError
      end
  | CNum q => Ok (JNum (Fin q))
  end.

Definition extractDescription (row : gmap string cell) : string :=
  let description :=
    String_or (row !! "DESCRIPTION" ||| row !! "BODY_HTML"
               ||| row !! "DESCRIPTION_HTML") EmptyString in
  strip_tags description.

(** The three object shapes tried inside the [try] block of
    [parsePriceRange]; [None] when no branch returns. *)
Definition price_of_parsed (parsed : json) : res (option PriceRange) :=
  let p := Some parsed in
  if Js.truthy p && is_object p then
    min_variant_price ← get p "min_variant_price";
    max_variant_price ← get p "max_variant_price";
    if Js.truthy min_variant_price && Js.truthy max_variant_price then
      lo ← get min_variant_price "amount";
      hi ← get max_variant_price "amount";
      Ok (Some {| min := parseFloat_or0 lo; max := parseFloat_or0 hi |})
    else
      pmin ← get p "min";
      pmax ← get p "max";
      if is_defined pmin || is_defined pmax then
        Ok (Some {| min := parseFloat_or0 pmin; max := parseFloat_or0 pmax |})
      else if Js.truthy min_variant_price || Js.truthy max_variant_price then
        Ok (Some {| min := parseFloat_or0 min_variant_price;
                    max := parseFloat_or0 max_variant_price |})
      else Ok None
  else Ok None.

(** The [catch] block of [parsePriceRange]. *)
Definition price_of_text (text : string) : option PriceRange :=
  match match_numeric text with
  | m0 :: m1 :: _ => Some {| min := parseFloat m0; max := parseFloat m1 |}
  | [m0] => let price := parseFloat m0 in Some {| min := price; max := price |}
  | [] => None
  end.

Definition parsePriceRange (priceField : field) : res PriceRange :=
  match priceField with
  | Some c =>
      if negb (truthy priceField) then Ok defaultRange
      else
        r ← try_catch
              (parsed ← JSON_parse c; price_of_parsed parsed)
              (fun _ => Ok (price_of_text (toString c)));
        Ok (default defaultRange r)
  | None => Ok defaultRange
  end.

Definition parseImages (imageField : field) (maxImages : Z)
  : res (list json) :=
  match imageField with
  | Some c =>
      if negb (truthy imageField) then Ok []
      else
        r ← try_catch
              (parsed ← JSON_parse c;
               match parsed with
               | JArr items => Ok (Some (slice 0 maxImages items))
               | JStr s =>
                   if startsWith "http" s then Ok (Some [JStr s]) else Ok None
               | _ => Ok None
               end)
              (fun _ =>
                 match c with
                 | CStr s =>
                     if startsWith "http" s then Ok (Some [JStr s])
                     else Ok None
                 | CNum _ => Ok None
                 end);
        Ok (default [] r)
  | None => Ok []
  end.

Definition parseTags (tagsField : field) : res (list json) :=
  match tagsField with
  | Some c =>
      if negb (truthy tagsField) then Ok []
      else
        r ← try_catch
              (parsed ← JSON_parse c;
               match parsed with
               | JArr items => Ok (Some items)
               | _ => Ok None
               end)
              (fun _ =>
                 match c with
                 | CStr s =>
                     Ok (Some (JStr <$>
                               filter (fun t => t ≠ EmptyString)
                                      (trim <$> split s)))
                 | CNum _ => Ok None
                 end);
        Ok (default [] r)
  | None => Ok []
  end.

Definition parseInventory (inventoryField : field) : res number :=
  match inventoryField with
  | Some c =>
      if negb (truthy inventoryField) then Ok Num.zero
      else
        match parseInt (toString c) with
        | Some inventory => Ok (Num.of_integer inventory)
        | None => Ok Num.zero
        end
  | None => Ok Num.zero
  end.

Definition parseBoolean (booleanField : field) : res bool :=
  match booleanField with
  | Some c =>
      if negb (truthy booleanField) then Ok false
      else
        let value := toLowerCase (toString c) in
        Ok (String.eqb value "true" || String.eqb value "1"
            || String.eqb value "yes")
  | None => Ok false
  end.

Definition parseFeaturedImage (imageField : field) : res json :=
  match imageField with
  | Some c =>
      if negb (truthy imageField) then Ok (JStr EmptyString)
      else
        r ← try_catch
              (parsed ← JSON_parse c;
               let p := Some parsed in
               if Js.truthy p && is_object p then
                 url ← get p "url";
                 if Js.truthy url then Ok url else Ok None
               else Ok None)
              (fun _ =>
                 match c with
                 | CStr s =>
                     if startsWith "http" s then Ok (Some (JStr s))
                     else Ok None
                 | CNum _ => Ok None
                 end);
        Ok (default (JStr EmptyString) r)
  | None => Ok (JStr EmptyString)
  end.

(** The body of the [try] block of [transformRow]: [Ok None] is the
    [return null] of the guard. *)
Definition transformRow_try (row : gmap string cell)
    (config : ProcessingConfig) : res (option Product) :=
  if negb (truthy (row !! "ID")) || negb (truthy (row !! "TITLE")) then
    Ok None
  else
    priceRange ← parsePriceRange (row !! "PRICE_RANGE_V2" ||| row !! "PRICE_RANGE");
    images ← parseImages (row !! "IMAGES" ||| row !! "IMAGE"
                          ||| row !! "FEATURED_IMAGE") (maxImages config);
    tags ← parseTags (row !! "TAGS");
    totalInventory ← parseInventory (row !! "TOTAL_INVENTORY");
    hasOutOfStockVariants ← parseBoolean (row !! "HAS_OUT_OF_STOCK_VARIANTS");
    isGiftCard ← parseBoolean (row !! "IS_GIFT_CARD");
    featuredImage ← parseFeaturedImage (row !! "FEATURED_IMAGE");
    Ok (Some
      {| id := String_or (row !! "ID") EmptyString;
         title := String_or (row !! "TITLE") EmptyString;
         vendor := String_or (row !! "VENDOR") EmptyString;
         productType := String_or (row !! "PRODUCT_TYPE") EmptyString;
         description :=
           substring0 (maxDescriptionLength config) (extractDescription row);
         handle := Some (String_or (row !! "HANDLE") EmptyString);
         status := String_or (row !! "STATUS") "active";
         priceRange := priceRange;
         images := images;
         tags := tags;
         createdAt := String_or (row !! "CREATED_AT") EmptyString;
         updatedAt := String_or (row !! "UPDATED_AT") EmptyString;
         publishedAt := String_or (row !! "PUBLISHED_AT") EmptyString;
         totalInventory := Some totalInventory;
         hasOutOfStockVariants := Some hasOutOfStockVariants;
         isGiftCard := Some isGiftCard;
         featuredImage := Some featuredImage;
         price := None |}).

(** [transformRow]: [None] is the rejected row ([null]); an exception
    anywhere in the body is caught and rejects the row as well. *)
Definition transformRow (row : gmap string cell) (config : ProcessingConfig)
  : option Product :=
  match transformRow_try row config with
  | Ok r => r
  | Throw _ => None
  end.

End WithNumberToString.

End Transform.

(* ===================================================================== *)
(** ** The file system seen through Node's [fs] module *)
(* ===================================================================== *)

Module Fs.
Import Js.

Record file : Type := { content : string; mtime : Z }.

Record Stats : Type := { st_mtime : Z; st_size : Z }.

Definition stats_of (f : file) : Stats :=
  {| st_mtime := mtime f; st_size := Z.of_nat (String.length (content f)) |}.

(** A computation over the files: the new file map and a value or an
    exception. *)
Definition io (A : Type) : Type := gmap string file -> gmap string file * res A.

Definition io_ret {A} (a : A) : io A := fun σ => (σ, Ok a).

Definition io_bind {A B} (m : io A) (f : A -> io B) : io B :=
  fun σ =>
    match m σ with
    | (σ', Ok a) => f a σ'
    | (σ', Throw e) => (σ', Throw e)
    end.

Definition throw {A} (e : exn) : io A := fun σ => (σ, Throw e).

Definition lift {A} (r : res A) : io A := fun σ => (σ, r).

(** [try { body } catch (e) { handler e }]. *)
Definition io_try {A} (body : io A) (handler : exn -> io A) : io A :=
  fun σ =>
    match body σ with
    | (σ', Ok a) => (σ', Ok a)
    | (σ', Throw e) => handler e σ'
    end.

(** [if (c) { await m }]. *)
Definition when (c : bool) (m : io unit) : io unit :=
  if c then m else io_ret tt.

(** A call that writes a file either succeeds, or fails leaving the
    destination as it was, or fails leaving partial data behind. *)
Inductive wfault : Type :=
| WOk
| WFail (residue : option string).

Definition is_wfail (w : wfault) : bool :=
  match w with WOk => false | WFail _ => true end.

Definition leave (path : string) (residue : option string) (now : Z)
    (σ : gmap string file) : gmap string file :=
  match residue with
  | None => σ
  | Some junk => <[path := {| content := junk; mtime := now |}]> σ
  end.

Definition existsSync (path : string) : io bool :=
  fun σ => (σ, Ok (bool_decide (is_Some (σ !! path)))).

Definition statSync (path : string) (fails : bool) : io Stats :=
  fun σ =>
    match σ !! path with
    | Some f => if fails then (σ, Throw (IOError "stat"))
                else (σ, Ok (stats_of f))
    | None => (σ, Throw (IOError "stat"))
    end.

Definition readFile (path : string) (fails : bool) : io string :=
  fun σ =>
    match σ !! path with
    | Some f => if fails then (σ, Throw (IOError "readFile"))
                else (σ, Ok (content f))
    | None => (σ, Throw (IOError "readFile"))
    end.

Definition writeFile (path data : string) (now : Z) (w : wfault) : io unit :=
  fun σ =>
    match w with
    | WOk => (<[path := {| content := data; mtime := now |}]> σ, Ok tt)
    | WFail r => (leave path r now σ, Throw (IOError "writeFile"))
    end.

Definition copyFile (src dst : string) (now : Z) (w : wfault) : io unit :=
  fun σ =>
    match σ !! src with
    | Some f =>
        match w with
        | WOk => (<[dst := {| content := content f; mtime := now |}]> σ, Ok tt)
        | WFail r => (leave dst r now σ, Throw (IOError "copyFile"))
        end
    | None => (σ, Throw (IOError "copyFile"))
    end.

(** [rename] replaces the destination in one step or does nothing. *)
Definition rename (src dst : string) (fails : bool) : io unit :=
  fun σ =>
    match σ !! src with
    | Some f => if fails then (σ, Throw (IOError "rename"))
                else (<[dst := f]> (delete src σ), Ok tt)
    | None => (σ, Throw (IOError "rename"))
    end.

Definition unlink (path : string) (fails : bool) : io unit :=
  fun σ =>
    match σ !! path with
    | Some _ => if fails then (σ, Throw (IOError "unlink"))
                else (delete path σ, Ok tt)
    | None => (σ, Throw (IOError "unlink"))
    end.

(** [mkdir(dir, { recursive: true })]: directories are not part of the
    file map. *)
Definition mkdir (fails : bool) : io unit :=
  fun σ => if fails then (σ, Throw (IOError "mkdir")) else (σ, Ok tt).

End Fs.

#[global] Instance io_ret_inst : MRet Fs.io := @Fs.io_ret.
#[global] Instance io_bind_inst : MBind Fs.io := fun A B f m => Fs.io_bind m f.

(* ===================================================================== *)
(** ** csv-processor.ts: persistence of the index *)
(* ===================================================================== *)

Module Persist.
Import Js Fs.

Definition indexPath : string := "data/search-index.json".
Definition backupPath : string := "data/search-index.backup.json".
Definition tempPath : string := "data/search-index.temp.json".
Definition oldBackupPath : string := "data/search-index.old.json".

(** Which calls of one run of [saveSearchIndex] fail, by call site. *)
Record faults : Type := {
  mkdir_fails : bool;
  backup_copy : wfault;
  temp_write : wfault;
  temp_read : bool;
  temp_rename : bool;
  old_unlink : bool;
  backup_rename : bool;
  index_stat : bool;
  cleanup_unlink : bool;
  restore_copy : wfault;
}.

Definition no_faults : faults :=
  {| mkdir_fails := false; backup_copy := WOk; temp_write := WOk;
     temp_read := false; temp_rename := false; old_unlink := false;
     backup_rename := false; index_stat := false; cleanup_unlink := false;
     restore_copy := WOk |}.

Definition invalid_index : exn := Error "Generated index file is invalid".

(** Step 3: the text read back from the temporary file must parse, and
    its [products] member must be an array. *)
Definition validate (text : string) : res unit :=
  match Json.parse text with
  | None => Throw SyntaxError
  | Some tempData =>
      products ← get (Some tempData) "products";
      if negb (Js.truthy products) || negb (isArray products)
      then Throw invalid_index
      else Ok tt
  end.

(** Step 1: back up the existing index. *)
Definition step_backup (now : Z) (F : faults) : io unit :=
  has_index ← existsSync indexPath;
  when has_index (copyFile indexPath backupPath now (backup_copy F)).

(** Steps 2 to 4: write the temporary file, read it back and validate
    it, rename it over the index. *)
Definition step_replace (indexContent : string) (now : Z) (F : faults)
  : io unit :=
  _ ← writeFile tempPath indexContent now (temp_write F);
  text ← readFile tempPath (temp_read F);
  _ ← lift (validate text);
  rename tempPath indexPath (temp_rename F).

(** Step 5: rotate the backups, then record the size of the index. *)
Definition step_rotate (F : faults) : io Z :=
  has_backup ← existsSync backupPath;
  has_old ← existsSync oldBackupPath;
  _ ← when (has_backup && has_old) (unlink oldBackupPath (old_unlink F));
  has_backup' ← existsSync backupPath;
  _ ← when has_backup' (rename backupPath oldBackupPath (backup_rename F));
  stats ← statSync indexPath (index_stat F);
  mret (st_size stats).

(** The [try] block; the value is the size recorded in
    [metrics.indexSize]. *)
Definition save_steps (indexContent : string) (now : Z) (F : faults) : io Z :=
  _ ← step_backup now F;
  _ ← step_replace indexContent now F;
  step_rotate F.

(** The [catch] block: best-effort cleanup and restore, then rethrow. *)
Definition save_recover (now : Z) (F : faults) (error : exn) : io Z :=
  has_temp ← existsSync tempPath;
  _ ← when has_temp
        (io_try (unlink tempPath (cleanup_unlink F)) (fun _ => mret tt));
  has_backup ← existsSync backupPath;
  has_index ← existsSync indexPath;
  _ ← when (has_backup && negb has_index)
        (io_try (copyFile backupPath indexPath now (restore_copy F))
                (fun _ => mret tt));
  throw error.

(** [saveSearchIndex]: [indexContent] is the serialised index
    ([JSON.stringify(searchIndex, null, 2)]); [None] is the return of the
    production branch, which records no size. *)
Definition saveSearchIndex (isProduction : bool) (indexContent : string)
    (now : Z) (F : faults) : io (option Z) :=
  if isProduction then mret None
  else
    _ ← mkdir (mkdir_fails F);
    size ← io_try (save_steps indexContent now F) (save_recover now F);
    mret (Some size).

End Persist.

(* ===================================================================== *)
(** ** startup-processor.ts *)
(* ===================================================================== *)

Module Startup.
Import Js Fs.

Record StartupConfig : Type := {
  cfg_csvPath : option string;
  cfg_indexPath : option string;
  cfg_maxAgeHours : option Z;
}.

Record StartupProcessor : Type := {
  csvPath : string;
  indexPath : string;
  maxAgeHours : Z;
}.

(** [config.x || dflt] for a string and for a number. *)
Definition string_or (o : option string) (dflt : string) : string :=
  match o with
  | Some s => if String.eqb s EmptyString then dflt else s
  | None => dflt
  end.

Definition Z_or (o : option Z) (dflt : Z) : Z :=
  match o with
  | Some z => if z =? 0 then dflt else z
  | None => dflt
  end.

Definition new_StartupProcessor (config : StartupConfig) : StartupProcessor :=
  {| csvPath := string_or (cfg_csvPath config) "public/products.csv";
     indexPath := string_or (cfg_indexPath config) "data/search-index.json";
     maxAgeHours := Z_or (cfg_maxAgeHours config) 24 |}.

(** Which calls of one start-up fail. *)
Record faults : Type := {
  csv_stat : bool;
  index_stat : bool;
  index_read : bool;
}.

Definition no_faults : faults :=
  {| csv_stat := false; index_stat := false; index_read := false |}.

Definition invalid_format : exn := Error "Invalid search index format".
Definition not_found : exn :=
  Error "Search index not found. Please ensure the build process completed successfully.".

(** The checks inside the [try] block of [shouldRegenerateIndex]. *)
Definition stale_checks (this : StartupProcessor) (now : Z) (F : faults)
  : io bool :=
  csvStats ← statSync (csvPath this) (csv_stat F);
  indexStats ← statSync (indexPath this) (index_stat F);
  if st_mtime indexStats <? st_mtime csvStats then mret true
  else
    let indexAge := now - st_mtime indexStats in
    let maxAgeMs := maxAgeHours this * 60 * 60 * 1000 in
    if maxAgeMs <? indexAge then mret true
    else if st_size indexStats <? 1000 then mret true
    else mret false.

Definition shouldRegenerateIndex (this : StartupProcessor) (now : Z)
    (F : faults) : io bool :=
  has_csv ← existsSync (csvPath this);
  if negb has_csv then mret false
  else
    has_index ← existsSync (indexPath this);
    if negb has_index then mret true
    else io_try (stale_checks this now F) (fun _ => mret true).

(** The shape check of [loadIndex] on the parsed text: a bare array, or an
    object whose [products] member is an array. *)
Definition products_of (indexData : json) : res (list json) :=
  match indexData with
  | JArr items => Ok items
  | _ =>
      products ← get (Some indexData) "products";
      match products with
      | Some (JArr items) => Ok items
      | _ => Throw invalid_format
      end
  end.

Definition loadIndex (this : StartupProcessor) (F : faults)
  : io (list json) :=
  data ← readFile (indexPath this) (index_read F);
  match Json.parse data with
  | Some indexData => lift (products_of indexData)
  | None => throw SyntaxError
  end.

Section WithIndexBuild.

(** [processors.production().processCSV(csvPath)]: reads the source and
    writes the index files, or throws. *)
Variable processCSV : string -> io unit.

Definition generateIndex (this : StartupProcessor) : io unit :=
  processCSV (csvPath this).

Definition ensureSearchIndex (this : StartupProcessor) (isProduction : bool)
    (forceRegenerate : bool) (now : Z) (F : faults) : io (list json) :=
  if isProduction then
    io_try (loadIndex this F) (fun _ => throw not_found)
  else
    shouldRegenerate ←
      (if forceRegenerate then mret true
       else shouldRegenerateIndex this now F);
    _ ← when shouldRegenerate (generateIndex this);
    loadIndex this F.

End WithIndexBuild.

End Startup.

(* ===================================================================== *)
(** ** search-engine.ts *)
(* ===================================================================== *)

(** [Array.prototype.sort] is stable: an element is moved behind another
    one only when the comparator puts it strictly after (a positive
    result; [NaN] counts as 0).  For a comparator that is a consistent
    ordering of the elements at hand this fixes the result, which
    insertion from the right computes.  For any other comparator the
    language leaves the order to the implementation: nothing is proved of
    the order in that case. *)
Module ArraySort.

Section Sort.
Context {A : Type}.
Variable cmp : A -> A -> number.

Definition after (a b : A) : bool := Num.gt (cmp a b) Num.zero.

Fixpoint insert (x : A) (l : list A) : list A :=
  match l with
  | [] => [x]
  | y :: t => if after x y then y :: insert x t else x :: l
  end.

Definition sort (l : list A) : list A := fold_right insert [] l.

(** [x] may stand before [y]. *)
Definition not_after (x y : A) : Prop := after x y = false.

End Sort.

End ArraySort.

Module SearchEngine.
Import Str Types.

Record SearchResult (R : Type) : Type := {
  products : R;
  total : Z;
  page : Z;
  limit : Z;
  totalPages : number;
  processingTime : Z;
}.
Arguments products {R} _.
Arguments total {R} _.
Arguments page {R} _.
Arguments limit {R} _.
Arguments totalPages {R} _.
Arguments processingTime {R} _.

(** [p || alt] for an optional number [p]. *)
Definition num_or (p : option number) (alt : number) : number :=
  match p with
  | Some n => Num.or_else n alt
  | None => alt
  end.

(** [!v] with [v] an optional boolean. *)
Definition not_flag (v : option bool) : bool :=
  match v with Some b => negb b | None => true end.

Section WithLibraries.

(** [s.toLowerCase()]. *)
Variable toLowerCase : string -> string.
(** [fuse.search(query).map(r => r.item)] over the indexed products. *)
Variable fuse_search : list Product -> string -> list Product.
(** [a.localeCompare(b)]. *)
Variable localeCompare : string -> string -> number.
(** [new Date(s).getTime()]. *)
Variable Date_getTime : string -> number.

(** *** The predicates passed to [filter] in [applyFilters] *)

Definition vendor_matches (v : string) (product : Product) : bool :=
  includes (toLowerCase v) (toLowerCase (vendor product)).

Definition productType_matches (t : string) (product : Product) : bool :=
  includes (toLowerCase t) (toLowerCase (productType product)).

Definition minPrice_matches (bound : number) (product : Product) : bool :=
  let price :=
    Num.or_else (num_or (price product) (max (priceRange product))) Num.zero in
  Num.ge price bound.

Definition maxPrice_matches (bound : number) (product : Product) : bool :=
  let price :=
    Num.or_else (num_or (price product) (min (priceRange product))) Num.zero in
  Num.le price bound.

Definition inStock_matches (product : Product) : bool :=
  Num.gt (num_or (totalInventory product) Num.zero) Num.zero
  && not_flag (hasOutOfStockVariants product).

(** [applyFilters]: each filter that is set narrows the list in turn; an
    empty string is not a filter ([if (filters.vendor)]). *)
Definition applyFilters (products : list Product) (filters : SearchFilters)
  : list Product :=
  let filtered := products in
  let filtered :=
    match f_vendor filters with
    | Some v =>
        if String.eqb v EmptyString then filtered
        else List.filter (vendor_matches v) filtered
    | None => filtered
    end in
  let filtered :=
    match f_productType filters with
    | Some t =>
        if String.eqb t EmptyString then filtered
        else List.filter (productType_matches t) filtered
    | None => filtered
    end in
  let filtered :=
    match f_minPrice filters with
    | Some bound => List.filter (minPrice_matches bound) filtered
    | None => filtered
    end in
  let filtered :=
    match f_maxPrice filters with
    | Some bound => List.filter (maxPrice_matches bound) filtered
    | None => filtered
    end in
  match f_inStock filters with
  | Some true => List.filter inStock_matches filtered
  | _ => filtered
  end.

(** *** The comparators of [applySorting] *)

Definition by_price (priceA priceB : number) (diff : number) : number :=
  if negb (Num.truthy priceA) && negb (Num.truthy priceB) then Num.zero
  else if negb (Num.truthy priceA) then Num.of_Z 1
  else if negb (Num.truthy priceB) then Num.of_Z (-1)
  else diff.

Definition cmp_price_asc (a b : Product) : number :=
  let priceA := num_or (price a) (min (priceRange a)) in
  let priceB := num_or (price b) (min (priceRange b)) in
  by_price priceA priceB (Num.sub priceA priceB).

Definition cmp_price_desc (a b : Product) : number :=
  let priceA := num_or (price a) (max (priceRange a)) in
  let priceB := num_or (price b) (max (priceRange b)) in
  by_price priceA priceB (Num.sub priceB priceA).

(** [set.add(x)] on a [Set] kept in insertion order. *)
Definition set_add (s : list string) (x : string) : list string :=
  if bool_decide (x ∈ s) then s else (s ++ [x])%list.

Definition cmp_name_asc (a b : Product) : number :=
  localeCompare (title a) (title b).

Definition cmp_name_desc (a b : Product) : number :=
  localeCompare (title b) (title a).

Definition cmp_newest (a b : Product) : number :=
  Num.sub (Date_getTime (createdAt b)) (Date_getTime (createdAt a)).

(** The comparator selected by the [switch]; [None] for [relevance] and
    for any other string. *)
Definition comparator (sortBy : string)
  : option (Product -> Product -> number) :=
  if String.eqb sortBy "price-asc" then Some cmp_price_asc
  else if String.eqb sortBy "price-desc" then Some cmp_price_desc
  else if String.eqb sortBy "name-asc" then Some cmp_name_asc
  else if String.eqb sortBy "name-desc" then Some cmp_name_desc
  else if String.eqb sortBy "newest" then Some cmp_newest
  else None.

Definition applySorting (products : list Product) (sortBy : string)
  : list Product :=
  let sorted := products in
  match comparator sortBy with
  | Some cmp => ArraySort.sort cmp sorted
  | None => sorted
  end.

(** [search] on the value of the collection; [t0] and [t1] are the two
    readings of the clock. *)
Definition search (this_products : list Product) (query : string)
    (filters : SearchFilters) (page limit : Z) (sortBy : string)
    (t0 t1 : Z) : SearchResult (list Product) :=
  let results :=
    if String.eqb (trim query) EmptyString then this_products
    else fuse_search this_products query in
  let results := applyFilters results filters in
  let results := applySorting results sortBy in
  let total := Z.of_nat (List.length results) in
  let totalPages := Num.ceil_div total limit in
  let startIndex := (page - 1) * limit in
  let endIndex := startIndex + limit in
  let paginatedResults := slice startIndex endIndex results in
  {| products := paginatedResults; total := total; page := page;
     limit := limit; totalPages := totalPages; processingTime := t1 - t0 |}.

Definition add_matching (lowerQuery : string) (get : Product -> string)
    (suggestions : list string) (product : Product) : list string :=
  if includes lowerQuery (toLowerCase (get product))
  then set_add suggestions (get product) else suggestions.

Definition getSearchSuggestions (this_products : list Product)
    (query : string) (limit : Z) : list string :=
  if String.eqb (trim query) EmptyString || (utf16_length query <? 2)
  then []
  else
    let lowerQuery := toLowerCase query in
    let suggestions := [] in
    let suggestions :=
      fold_left (add_matching lowerQuery title) this_products suggestions in
    let suggestions :=
      fold_left (add_matching lowerQuery vendor) this_products suggestions in
    let suggestions :=
      fold_left (add_matching lowerQuery productType) this_products
                suggestions in
    slice 0 limit suggestions.

End WithLibraries.

(** *** The same methods over arrays held by reference

    Arrays live in a store; [filter], [slice], [map] and the spread copy
    allocate a new array, [sort] rewrites the array it is called on, and an
    assignment shares the reference. *)
Module Mut.

Definition ref : Type := positive.
Definition store : Type := gmap positive (list Product).
Definition st (A : Type) : Type := store -> A * store.

Definition ret {A} (a : A) : st A := fun h => (a, h).
Definition bind {A B} (m : st A) (f : A -> st B) : st B :=
  fun h => let '(a, h') := m h in f a h'.

Definition read (r : ref) : st (list Product) :=
  fun h => (default [] (h !! r), h).

Definition alloc (xs : list Product) : st ref :=
  fun h => let r := fresh (dom h) in (r, <[r := xs]> h).

Definition write (r : ref) (xs : list Product) : st unit :=
  fun h => (tt, <[r := xs]> h).

(** [xs.filter(p)] *)
Definition arr_filter (p : Product -> bool) (r : ref) : st ref :=
  bind (read r) (fun xs => alloc (List.filter p xs)).

(** [[...xs]] *)
Definition arr_copy (r : ref) : st ref :=
  bind (read r) (fun xs => alloc xs).

(** [xs.sort(cmp)]: in place, returns the same array. *)
Definition arr_sort (cmp : Product -> Product -> number) (r : ref) : st ref :=
  bind (read r) (fun xs =>
  bind (write r (ArraySort.sort cmp xs)) (fun _ => ret r)).

(** [xs.slice(a, b)] *)
Definition arr_slice (a b : Z) (r : ref) : st ref :=
  bind (read r) (fun xs => alloc (slice a b xs)).

Record engine : Type := {
  this_products : ref;
  this_fuse : list Product;
}.

(** [new SearchEngine(products)]: keeps the reference and indexes the
    documents for Fuse. *)
Definition new_SearchEngine (products : ref) : st engine :=
  bind (read products) (fun xs =>
  ret {| this_products := products; this_fuse := xs |}).

Section WithLibraries.

Variable toLowerCase : string -> string.
Variable fuse_search : list Product -> string -> list Product.
Variable localeCompare : string -> string -> number.
Variable Date_getTime : string -> number.

Definition applyFilters (products : ref) (filters : SearchFilters) : st ref :=
  let filtered := products in
  bind (match f_vendor filters with
        | Some v =>
            if String.eqb v EmptyString then ret filtered
            else arr_filter (vendor_matches toLowerCase v) filtered
        | None => ret filtered
        end) (fun filtered =>
  bind (match f_productType filters with
        | Some t =>
            if String.eqb t EmptyString then ret filtered
            else arr_filter (productType_matches toLowerCase t) filtered
        | None => ret filtered
        end) (fun filtered =>
  bind (match f_minPrice filters with
        | Some bound => arr_filter (minPrice_matches bound) filtered
        | None => ret filtered
        end) (fun filtered =>
  bind (match f_maxPrice filters with
        | Some bound => arr_filter (maxPrice_matches bound) filtered
        | None => ret filtered
        end) (fun filtered =>
  match f_inStock filters with
  | Some true => arr_filter inStock_matches filtered
  | _ => ret filtered
  end)))).

Definition applySorting (products : ref) (sortBy : string) : st ref :=
  bind (arr_copy products) (fun sorted =>
  match comparator localeCompare Date_getTime sortBy with
  | Some cmp => arr_sort cmp sorted
  | None => ret sorted
  end).

Definition search (this : engine) (query : string) (filters : SearchFilters)
    (page limit : Z) (sortBy : string) (t0 t1 : Z)
  : st (SearchResult ref) :=
  bind (if String.eqb (trim query) EmptyString then ret (this_products this)
        else alloc (fuse_search (this_fuse this) query)) (fun results =>
  bind (applyFilters results filters) (fun results =>
  bind (applySorting results sortBy) (fun results =>
  bind (read results) (fun xs =>
  let total := Z.of_nat (List.length xs) in
  let totalPages := Num.ceil_div total limit in
  let startIndex := (page - 1) * limit in
  let endIndex := startIndex + limit in
  bind (arr_slice startIndex endIndex results) (fun paginatedResults =>
  ret {| products := paginatedResults; total := total; page := page;
         limit := limit; totalPages := totalPages;
         processingTime := t1 - t0 |}))))).

(** One call of [search] with its arguments. *)
Record call : Type := {
  c_query : string;
  c_filters : SearchFilters;
  c_page : Z;
  c_limit : Z;
  c_sortBy : string;
  c_t0 : Z;
  c_t1 : Z;
}.

Definition run_call (this : engine) (c : call) : st (SearchResult ref) :=
  search this (c_query c) (c_filters c) (c_page c) (c_limit c) (c_sortBy c)
         (c_t0 c) (c_t1 c).

(** A sequence of calls, one after the other; the results are dropped. *)
Fixpoint run_calls (this : engine) (cs : list call) : st unit :=
  match cs with
  | [] => ret tt
  | c :: rest => bind (run_call this c) (fun _ => run_calls this rest)
  end.

(** What a caller sees of a result: the items of the returned array. *)
Definition items (h : store) (r : SearchResult ref) : list Product :=
  default [] (h !! products r).

End WithLibraries.

End Mut.

End SearchEngine.

(* ===================================================================== *)
(** ** search-engine.ts: the figures of the catalogue *)
(* ===================================================================== *)

Module Catalog.
Import Str Types SearchEngine.

(** [new Set(xs)], then [Array.from]: the first occurrence of each value,
    in the order of the array. *)
Definition new_Set (xs : list string) : list string :=
  fold_left set_add xs [].

(** The place of a byte in the order of the UTF-16 code units.  Two
    texts differ first at bytes that decide the order of their code
    units as the bytes stand, with one exception: a character from U+E000
    to U+FFFF (first byte [EE] or [EF]) comes after every character beyond
    U+FFFF (first byte [F0] to [F4]), whose code units are surrogates. *)
Definition unit_rank (c : ascii) : Z :=
  let n := Z.of_nat (nat_of_ascii c) in
  if (238 <=? n) && (n <=? 239) then n + 18 else n.

Fixpoint code_unit_compare (a b : string) : comparison :=
  match a, b with
  | EmptyString, EmptyString => Eq
  | EmptyString, String _ _ => Lt
  | String _ _, EmptyString => Gt
  | String c a', String d b' =>
      match unit_rank c ?= unit_rank d with
      | Eq => code_unit_compare a' b'
      | o => o
      end
  end.

(** The comparison [sort()] uses when it is given no comparator: the
    strings are compared code unit by code unit. *)
Definition default_compare (a b : string) : number :=
  match code_unit_compare a b with
  | Lt => Num.of_Z (-1)
  | Eq => Num.zero
  | Gt => Num.of_Z 1
  end.




(** [product.price || product.priceRange?.max || 0]. *)
Definition getProductPrice (product : Product) : number :=
  Num.or_else (num_or (price product) (max (priceRange product))) Num.zero.

(** [Math.min] and [Math.max] of a list of arguments: [NaN] if any
    argument is, the infinity of the empty list otherwise. *)
Definition min2 (a b : number) : number :=
  match a, b with
  | NaN, _ | _, NaN => NaN
  | _, _ => if Num.lt b a then b else a
  end.

Definition max2 (a b : number) : number :=
  match a, b with
  | NaN, _ | _, NaN => NaN
  | _, _ => if Num.gt b a then b else a
  end.

Definition Math_min (xs : list number) : number :=
  fold_left min2 xs (Inf false).

Definition Math_max (xs : list number) : number :=
  fold_left max2 xs (Inf true).

Definition getPriceRange (this_products : list Product) : PriceRange :=
  let prices :=
    List.filter (fun price => Num.gt price Num.zero)
                (getProductPrice <$> this_products) in
  if (List.length prices =? 0)%nat then {| min := Num.zero; max := Num.zero |}
  else {| min := Math_min prices; max := Math_max prices |}.

End Catalog.

(* ===================================================================== *)
(** ** csv-processor.ts: the [CSVProcessor] class *)
(* ===================================================================== *)

Module CsvProcessor.
Import Str Js Types Transform Fs.

Record ProcessingMetadata : Type := {
  totalProducts : Z;
  vendors : list string;
  productTypes : list string;
  processedAt : string;
}.

Record ProcessingMetrics : Type := {
  duration : Z;
  throughput : number;
  peakMemoryUsage : number;
  errorCount : Z;
  indexSize : Z;
}.

Record ProcessingResult : Type := {
  products : list Product;
  metadata : ProcessingMetadata;
  metrics : ProcessingMetrics;
}.

(** [Partial<ProcessingConfig>]: [None] for a member that is not given. *)
Record PartialConfig : Type := {
  p_chunkSize : option Z;
  p_maxImages : option Z;
  p_maxDescriptionLength : option Z;
  p_enableProgress : option bool;
  p_enableMetrics : option bool;
}.

Definition no_config : PartialConfig :=
  {| p_chunkSize := None; p_maxImages := None;
     p_maxDescriptionLength := None; p_enableProgress := None;
     p_enableMetrics := None |}.

(** [{ ...DEFAULT_CONFIG, ...config }]. *)
Definition merge (config : PartialConfig) : ProcessingConfig :=
  {| chunkSize := default (chunkSize DEFAULT_CONFIG) (p_chunkSize config);
     maxImages := default (maxImages DEFAULT_CONFIG) (p_maxImages config);
     maxDescriptionLength :=
       default (maxDescriptionLength DEFAULT_CONFIG)
               (p_maxDescriptionLength config);
     enableProgress :=
       default (enableProgress DEFAULT_CONFIG) (p_enableProgress config);
     enableMetrics :=
       default (enableMetrics DEFAULT_CONFIG) (p_enableMetrics config) |}.

(** The state of a processor object. *)
Record CSVProcessor : Type := {
  this_config : ProcessingConfig;
  this_metrics : ProcessingMetrics;
}.

Definition new_CSVProcessor (config : PartialConfig) : CSVProcessor :=
  {| this_config := merge config;
     this_metrics :=
       {| duration := 0; throughput := Num.zero;
          peakMemoryUsage := Num.zero; errorCount := 0; indexSize := 0 |} |}.

Definition createCSVProcessor (config : PartialConfig) : CSVProcessor :=
  new_CSVProcessor config.

(** The three entries of [processors]. *)
Definition development : CSVProcessor :=
  createCSVProcessor
    {| p_chunkSize := Some 1000; p_maxImages := None;
       p_maxDescriptionLength := None; p_enableProgress := Some true;
       p_enableMetrics := Some false |}.

Definition production : CSVProcessor :=
  createCSVProcessor
    {| p_chunkSize := Some 5000; p_maxImages := Some 5;
       p_maxDescriptionLength := None; p_enableProgress := Some false;
       p_enableMetrics := Some true |}.

Definition minimal : CSVProcessor :=
  createCSVProcessor
    {| p_chunkSize := Some 500; p_maxImages := Some 1;
       p_maxDescriptionLength := Some 200; p_enableProgress := Some false;
       p_enableMetrics := Some false |}.

(** What the CSV reader delivers: the records read, and the error that
    ended the stream if there was one. *)
Definition stream : Type := list (gmap string cell) * option exn.

(** [xs.filter(Boolean)] on strings. *)
Definition filter_Boolean (xs : list string) : list string :=
  List.filter (fun s => negb (String.eqb s EmptyString)) xs.

Definition generateMetadata (products : list Product) (processedAt : string)
  : ProcessingMetadata :=
  {| totalProducts := Z.of_nat (List.length products);
     vendors := Catalog.new_Set (filter_Boolean (vendor <$> products));
     productTypes :=
       Catalog.new_Set (filter_Boolean (productType <$> products));
     processedAt := processedAt |}.

(** [updateMetrics]: [heapUsed] is the reading of
    [process.memoryUsage().heapUsed] at the call. *)
Definition updateMetrics (heapUsed : Z) (m : ProcessingMetrics)
  : ProcessingMetrics :=
  let memUsage := Fin (inject_Z heapUsed / 1024 / 1024)%Q in
  {| duration := duration m; throughput := throughput m;
     peakMemoryUsage := Catalog.Math_max [peakMemoryUsage m; memUsage];
     errorCount := errorCount m; indexSize := indexSize m |}.

Definition add_errors (n : Z) (m : ProcessingMetrics) : ProcessingMetrics :=
  {| duration := duration m; throughput := throughput m;
     peakMemoryUsage := peakMemoryUsage m;
     errorCount := errorCount m + n; indexSize := indexSize m |}.

(** [n / (d / 1000)] for two integers. *)
Definition per_second (n d : Z) : number :=
  if d =? 0 then (if n =? 0 then NaN else Inf (n <? 0))
  else Fin (inject_Z n / (inject_Z d / 1000))%Q.

Section WithLibraries.

Variable Number_toString : Q -> string.
(** [JSON.stringify({ products, metadata }, null, 2)]. *)
Variable JSON_stringify : list Product -> ProcessingMetadata -> string.

(** *** The generator [processCSVStream] *)

(** The local variables of the generator, with the chunks it has yielded
    so far and the rows it has counted as errors. *)
Record generator : Type := {
  chunk : list Product;
  processedCount : Z;
  yielded : list (list Product);
  rejected : Z;
}.

(** One turn of the [for await] loop of the generator. *)
Definition stream_row (config : ProcessingConfig) (g : generator)
    (row : gmap string cell) : generator :=
  match transformRow Number_toString row config with
  | Some product =>
      let chunk := (chunk g ++ [product])%list in
      let processedCount := processedCount g + 1 in
      if chunkSize config <=? Z.of_nat (List.length chunk) then
        {| chunk := []; processedCount := processedCount;
           yielded := (yielded g ++ [chunk])%list; rejected := rejected g |}
      else
        {| chunk := chunk; processedCount := processedCount;
           yielded := yielded g; rejected := rejected g |}
  | None =>
      {| chunk := chunk g; processedCount := processedCount g;
         yielded := yielded g; rejected := rejected g + 1 |}
  end.

(** The chunks the generator yields, the number of rows it rejects, and
    how it ends: with the rest of the rows as a last chunk, or with the
    error of the stream. *)
Definition processCSVStream (config : ProcessingConfig) (s : stream)
  : list (list Product) * Z * option exn :=
  let g :=
    fold_left (stream_row config) s.1
              {| chunk := []; processedCount := 0; yielded := [];
                 rejected := 0 |} in
  match s.2 with
  | Some e => (yielded g, rejected g, Some e)
  | None =>
      (if (0 <? List.length (chunk g))%nat
       then (yielded g ++ [chunk g])%list else yielded g,
       rejected g, None)
  end.

(** *** [processCSV] *)

(** The readings one run takes from its environment. *)
Record run_env : Type := {
  isProduction : bool;
  startTime : Z;
  endTime : Z;
  writeTime : Z;
  isoTime : string;
  heapUsed : nat -> Z;
  faults : Persist.faults;
}.

(** The body of the [for await] loop of [processCSV], for the chunk
    number [k]. *)
Definition consume (config : ProcessingConfig) (env : run_env)
    (acc : list Product * Z * ProcessingMetrics * nat)
    (chunk : list Product)
  : list Product * Z * ProcessingMetrics * nat :=
  let '(products, processedCount, m, k) := acc in
  let products := (products ++ chunk)%list in
  let processedCount := processedCount + Z.of_nat (List.length chunk) in
  if enableMetrics config
  then (products, processedCount, updateMetrics (heapUsed env k) m, S k)
  else (products, processedCount, m, k).

(** One call of [processCSV] on a processor: the file map and the
    metrics of the processor afterwards, and the result or the error. *)
Definition processCSV (this : CSVProcessor) (s : stream) (env : run_env)
    (σ : gmap string file)
  : gmap string file * ProcessingMetrics * res ProcessingResult :=
  let config := this_config this in
  let '(chunks, errors, failure) := processCSVStream config s in
  let '(products, _, m, _) :=
    fold_left (consume config env) chunks ([], 0, this_metrics this, O) in
  let m := add_errors errors m in
  match failure with
  | Some error => (σ, add_errors 1 m, Throw error)
  | None =>
      let metadata := generateMetadata products (isoTime env) in
      match Persist.saveSearchIndex (isProduction env)
              (JSON_stringify products metadata) (writeTime env)
              (faults env) σ with
      | (σ', Throw error) => (σ', add_errors 1 m, Throw error)
      | (σ', Ok size) =>
          let duration := endTime env - startTime env in
          let m :=
            {| duration := duration;
               throughput :=
                 per_second (Z.of_nat (List.length products)) duration;
               peakMemoryUsage := peakMemoryUsage m;
               errorCount := errorCount m;
               indexSize := default (indexSize m) size |} in
          (σ', m, Ok {| products := products; metadata := metadata;
                        metrics := m |})
      end
  end.

End WithLibraries.

End CsvProcessor.

(* ===================================================================== *)
(** ** [JSON.stringify(value, null, 2)] and the serialised index *)
(* ===================================================================== *)

Module Stringify.
Import Str Json Types CsvProcessor.

(** *** The own properties of an object, in enumeration order

    An object built member by member, as [JSON.parse] builds one, lists
    its array-index keys first, in ascending numeric order, then its
    other keys in the order in which they were first set; a key set twice
    keeps its place and takes the later value. *)

(** The value of a key that is an array index: the canonical decimal
    text of an integer below [2^32 - 1]. *)
Definition array_index (k : string) : option Z :=
  match of_string k with
  | [] => None
  | ("0"%char :: _ :: _) => None
  | cs =>
      if forallb is_digit cs && (digits_val cs <=? 4294967294)
      then Some (digits_val cs) else None
  end.

Definition is_index_key (k : string) : bool :=
  match array_index k with Some _ => true | None => false end.

Definition index_of (k : string) : Z := default 0 (array_index k).

(** Insertion of a key by ascending index. *)
Fixpoint insert_key (k : string) (ks : list string) : list string :=
  match ks with
  | [] => [k]
  | k' :: rest =>
      if index_of k <? index_of k' then k :: ks else k' :: insert_key k rest
  end.

Definition ordered_keys (ks : list string) : list string :=
  let distinct := Catalog.new_Set ks in
  (fold_right insert_key [] (List.filter is_index_key distinct)
   ++ List.filter (fun k => negb (is_index_key k)) distinct)%list.

(** The member named [k] that was set last. *)
Fixpoint last_member {V : Type} (k : string) (fs : list (string * V))
  : option V :=
  match fs with
  | [] => None
  | (k', v) :: rest =>
      match last_member k rest with
      | Some w => Some w
      | None => if String.eqb k k' then Some v else None
      end
  end.

Definition own_properties {V : Type} (fs : list (string * V))
  : list (string * V) :=
  flat_map (fun k => match last_member k fs with
                     | Some v => [(k, v)]
                     | None => []
                     end)
           (ordered_keys (fst <$> fs)).

(** *** [QuoteJSONString] *)

Definition hex_digit (n : Z) : ascii :=
  if n <? 10 then byte (48 + n) else byte (87 + n).

Definition quote_char (c : ascii) : chars :=
  let n := Z.of_nat (nat_of_ascii c) in
  if Ascii.eqb c dquote then ["\"%char; dquote]
  else if Ascii.eqb c "\" then ["\"%char; "\"%char]
  else if n =? 8 then ["\"%char; "b"%char]
  else if n =? 9 then ["\"%char; "t"%char]
  else if n =? 10 then ["\"%char; "n"%char]
  else if n =? 12 then ["\"%char; "f"%char]
  else if n =? 13 then ["\"%char; "r"%char]
  else if n <? 32 then
    ["\"%char; "u"%char; "0"%char; "0"%char;
     hex_digit (n / 16); hex_digit (n mod 16)]
  else [c].

Definition quote (s : string) : chars :=
  (dquote :: flat_map quote_char (of_string s) ++ [dquote])%list.

(** *** Serialisation with a gap of two spaces *)

Definition newline : ascii := byte 10.

Definition spaces (depth : nat) : chars := List.repeat " "%char (2 * depth).

(** The line break and indentation before an item at [depth]. *)
Definition break (depth : nat) : chars := newline :: spaces depth.

Definition join (sep : chars) (parts : list chars) : chars :=
  match parts with
  | [] => []
  | p :: rest => (p ++ flat_map (fun q => sep ++ q) rest)%list
  end.

(** The items of a container that is not empty, between its brackets. *)
Definition block (depth : nat) (opening closing : ascii)
    (parts : list chars) : chars :=
  (opening :: break (S depth)
   ++ join (","%char :: break (S depth)) parts
   ++ break depth ++ [closing])%list.

Definition member (kv : string * chars) : chars :=
  (quote kv.1 ++ ":"%char :: " "%char :: kv.2)%list.

Section WithNumberToString.

Variable Number_toString : Q -> string.

Fixpoint serialize (depth : nat) (j : json) : chars :=
  match j with
  | JNull => of_string "null"
  | JBool true => of_string "true"
  | JBool false => of_string "false"
  | JNum (Fin q) => of_string (Number_toString q)
  | JNum _ => of_string "null"
  | JStr s => quote s
  | JArr items =>
      match List.map (serialize (S depth)) items with
      | [] => of_string "[]"
      | parts => block depth "["%char "]"%char parts
      end
  | JObj fs =>
      match own_properties
              (List.map (fun kv : string * json =>
                           (kv.1, serialize (S depth) kv.2)) fs) with
      | [] => of_string "{}"
      | props => block depth "{"%char "}"%char (member <$> props)
      end
  end.

(** [JSON.stringify(value, null, 2)] on a value without [undefined]. *)
Definition stringify (j : json) : string := to_string (serialize 0 j).

(** *** The index as a value *)

(** A member whose value may be [undefined]: it is left out then. *)
Definition optional {A} (k : string) (f : A -> json) (o : option A)
  : list (string * json) :=
  match o with Some a => [(k, f a)] | None => [] end.

(** The object [transformRow] builds, member by member in the order of
    its literal.  (A single price, which the transform never sets, would
    come last.) *)
Definition of_product (p : Product) : json :=
  JObj ([("id", JStr (id p)); ("title", JStr (title p));
         ("vendor", JStr (vendor p)); ("productType", JStr (productType p));
         ("description", JStr (description p))]
        ++ optional "handle" JStr (handle p)
        ++ [("status", JStr (status p));
            ("priceRange",
             JObj [("min", JNum (min (priceRange p)));
                   ("max", JNum (max (priceRange p)))]);
            ("images", JArr (images p)); ("tags", JArr (tags p));
            ("createdAt", JStr (createdAt p));
            ("updatedAt", JStr (updatedAt p));
            ("publishedAt", JStr (publishedAt p))]
        ++ optional "totalInventory" JNum (totalInventory p)
        ++ optional "hasOutOfStockVariants" JBool (hasOutOfStockVariants p)
        ++ optional "isGiftCard" JBool (isGiftCard p)
        ++ optional "featuredImage" (fun j => j) (featuredImage p)
        ++ optional "price" JNum (price p))%list.

Definition of_metadata (m : ProcessingMetadata) : json :=
  JObj [("totalProducts", JNum (Num.of_Z (totalProducts m)));
        ("vendors", JArr (JStr <$> vendors m));
        ("productTypes", JArr (JStr <$> productTypes m));
        ("processedAt", JStr (processedAt m))].

(** [{ products, metadata }]. *)
Definition of_index (products : list Product) (metadata : ProcessingMetadata)
  : json :=
  JObj [("products", JArr (of_product <$> products));
        ("metadata", of_metadata metadata)].

(** [JSON.stringify(searchIndex, null, 2)]. *)
Definition JSON_stringify (products : list Product)
    (metadata : ProcessingMetadata) : string :=
  stringify (of_index products metadata).

End WithNumberToString.

End Stringify.

(* ===================================================================== *)
(** ** The index build as the start-up runs it *)
(* ===================================================================== *)

Module Pipeline.
Import Js Fs Transform CsvProcessor Startup.

Section WithLibraries.

Variable Number_toString : Q -> string.
(** The records [csv-parse] reads from the text of a file, with the
    options the processor passes ([columns], [trim], [cast], records with
    errors skipped). *)
Variable csv_parse : string -> list (gmap string cell).

(** [createReadStream(filePath).pipe(parse(...))]: the records of the
    file.  A file that cannot be opened gives no stream to read: the read
    stream raises an error which [pipe] does not hand to the parser, the
    loop over the parser never ends and the call does not return. *)
Definition open_stream (filePath : string) (σ : gmap string file)
  : option stream :=
  match σ !! filePath with
  | Some f => Some (csv_parse (content f), None)
  | None => None
  end.

(** The outcome that stands for a call that does not return.  It is there
    to keep the functions total; nothing is proved of a run that has
    it. *)
Definition no_return : exn := IOError "the call does not return".

(** [processors.production().processCSV(filePath)], for its effect on the
    files. *)
Definition production_processCSV (env : run_env) (filePath : string)
  : io unit :=
  fun σ =>
    match open_stream filePath σ with
    | Some s =>
        let '(σ', _, r) :=
          processCSV Number_toString
                     (Stringify.JSON_stringify Number_toString)
                     production s env σ in
        (σ', match r with Ok _ => Ok tt | Throw e => Throw e end)
    | None => (σ, Throw no_return)
    end.

Definition createStartupProcessor (config : StartupConfig)
  : StartupProcessor :=
  new_StartupProcessor config.

(** [initializeSearchIndex(forceRegenerate)]; [now] is the reading of the
    clock in the staleness check. *)
Definition initializeSearchIndex (forceRegenerate : bool) (env : run_env)
    (now : Z) (F : Startup.faults) : io (list json) :=
  let processor :=
    createStartupProcessor
      {| cfg_csvPath := None; cfg_indexPath := None;
         cfg_maxAgeHours := None |} in
  ensureSearchIndex (production_processCSV env) processor
                    (isProduction env) forceRegenerate now F.

End WithLibraries.

End Pipeline.

(* ===================================================================== *)
(** ** Vocabulary of the specification: the transform *)
(* ===================================================================== *)

Module TransformSpec.
Import Str Parse Js Types Transform.

(** A field is missing or empty when the record has no such column or the
    column holds the empty string. *)
Definition missing_or_empty (f : field) : Prop :=
  f = None \/ f = Some (CStr EmptyString).

(** A field is falsy when it is missing, empty, or the number zero. *)
Definition falsy (f : field) : Prop :=
  missing_or_empty f \/ exists q, f = Some (CNum q) /\ (q == 0)%Q.

(** A text that is not JSON. *)
Definition not_json (s : string) : Prop := Json.parse s = None.

(** A cell whose text is none of the three spellings of true. *)
Definition not_a_yes (nts : Q -> string) (c : cell) : Prop :=
  let value := toLowerCase (toString nts c) in
  value <> "true" /\ value <> "1" /\ value <> "yes".

(** The defaults of the optional fields of an accepted row: a field that
    is falsy takes its default, and so does a field whose text cannot be
    read in any of the formats its parser accepts. *)
Definition defaults_applied (nts : Q -> string) (row : gmap string cell)
    (p : Product) : Prop :=
  (falsy (row !! "VENDOR") -> vendor p = EmptyString) /\
  (falsy (row !! "PRODUCT_TYPE") -> productType p = EmptyString) /\
  (falsy (row !! "HANDLE") -> handle p = Some EmptyString) /\
  (falsy (row !! "STATUS") -> status p = "active") /\
  (falsy (row !! "DESCRIPTION") -> falsy (row !! "BODY_HTML") ->
   falsy (row !! "DESCRIPTION_HTML") -> description p = EmptyString) /\
  (falsy (row !! "PRICE_RANGE_V2") -> falsy (row !! "PRICE_RANGE") ->
   priceRange p = defaultRange) /\
  (falsy (row !! "IMAGES") -> falsy (row !! "IMAGE") ->
   falsy (row !! "FEATURED_IMAGE") -> images p = []) /\
  (falsy (row !! "TAGS") -> tags p = []) /\
  (falsy (row !! "TOTAL_INVENTORY") -> totalInventory p = Some Num.zero) /\
  (forall c, row !! "TOTAL_INVENTORY" = Some c ->
             parseInt (toString nts c) = None ->
             totalInventory p = Some Num.zero) /\
  (falsy (row !! "HAS_OUT_OF_STOCK_VARIANTS") ->
   hasOutOfStockVariants p = Some false) /\
  (falsy (row !! "IS_GIFT_CARD") -> isGiftCard p = Some false) /\
  (falsy (row !! "FEATURED_IMAGE") ->
   featuredImage p = Some (JStr EmptyString)) /\
  (falsy (row !! "CREATED_AT") -> createdAt p = EmptyString) /\
  (falsy (row !! "UPDATED_AT") -> updatedAt p = EmptyString) /\
  (falsy (row !! "PUBLISHED_AT") -> publishedAt p = EmptyString) /\
  (forall s, row !! "PRICE_RANGE_V2" ||| row !! "PRICE_RANGE" = Some (CStr s) ->
             not_json s -> match_numeric s = [] ->
             priceRange p = defaultRange) /\
  (forall s, row !! "IMAGES" ||| row !! "IMAGE" ||| row !! "FEATURED_IMAGE"
             = Some (CStr s) ->
             not_json s -> startsWith "http" s = false -> images p = []) /\
  (forall s, row !! "FEATURED_IMAGE" = Some (CStr s) ->
             not_json s -> startsWith "http" s = false ->
             featuredImage p = Some (JStr EmptyString)) /\
  (forall c, row !! "HAS_OUT_OF_STOCK_VARIANTS" = Some c -> not_a_yes nts c ->
             hasOutOfStockVariants p = Some false) /\
  (forall c, row !! "IS_GIFT_CARD" = Some c -> not_a_yes nts c ->
             isGiftCard p = Some false).

(** The data-model invariant of a price range. *)
Definition range_ok (r : PriceRange) : Prop :=
  Num.ge (min r) Num.zero = true /\ Num.ge (max r) Num.zero = true /\
  Num.le (min r) (max r) = true.

(** A number that is not negative, or not a number at all. *)
Definition nonneg_or_nan (n : number) : Prop :=
  match n with
  | NaN => True
  | Inf neg => neg = false
  | Fin q => (0 <= q)%Q
  end.

End TransformSpec.

(* ===================================================================== *)
(** ** Vocabulary of the specification: persistence *)
(* ===================================================================== *)

Module PersistSpec.
Import Js Fs Persist.

(** The files once step 1 has run: the backup is a copy of the canonical
    file when there is one. *)
Definition after_backup (now : Z) (σ : gmap string file) : gmap string file :=
  match σ !! indexPath with
  | Some f => <[backupPath := {| content := content f; mtime := now |}]> σ
  | None => σ
  end.

(** The best-effort restore of the [catch] block. *)
Definition restore (now : Z) (w : wfault) (σ : gmap string file)
  : gmap string file :=
  match σ !! backupPath, σ !! indexPath with
  | Some b, None =>
      match w with
      | WOk => <[indexPath := {| content := content b; mtime := now |}]> σ
      | WFail r => leave indexPath r now σ
      end
  | _, _ => σ
  end.

(** Step 1 does not fail. *)
Definition backup_passes (F : faults) (σ : gmap string file) : Prop :=
  σ !! indexPath = None \/ backup_copy F = WOk.

(** The first failure among steps 2 to 4, if any: writing the temporary
    file, reading it back, validating it, renaming it. *)
Definition replace_error (indexContent : string) (F : faults) : option exn :=
  if is_wfail (temp_write F) then Some (IOError "writeFile")
  else if temp_read F then Some (IOError "readFile")
  else match validate indexContent with
       | Throw e => Some e
       | Ok _ => if temp_rename F then Some (IOError "rename") else None
       end.

(** The file named [path] holds [text]. *)
Definition holds (σ : gmap string file) (path text : string) : Prop :=
  content <$> σ !! path = Some text.

End PersistSpec.

(* ===================================================================== *)
(** ** Vocabulary of the specification: the staleness resolver *)
(* ===================================================================== *)

Module StartupSpec.
Import Js Fs Startup.

(** What the resolver does before it hands out the products. *)
Inductive decision : Type :=
| LoadOnly       (* never rebuild: load the index or fail *)
| Rebuild        (* run the index build, then load *)
| LoadExisting.  (* load the existing index as it is *)

(** The text of an index file is a valid artifact. *)
Definition valid_artifact (text : string) : bool :=
  match Json.parse text with
  | Some indexData =>
      match products_of indexData with Ok _ => true | Throw _ => false end
  | None => false
  end.

Definition age_limit_ms (this : StartupProcessor) : Z :=
  maxAgeHours this * 60 * 60 * 1000.

(** The decision table as the specification words it, first true wins:
    read-only mode; force; index missing; index older than the source;
    index too old; index too small; index not a valid artifact. *)
Definition table_as_stated (this : StartupProcessor)
    (readOnlyMode force : bool) (now : Z) (σ : gmap string file) : decision :=
  if readOnlyMode then LoadOnly
  else if force then Rebuild
  else
    match σ !! indexPath this with
    | None => Rebuild
    | Some idx =>
        let older :=
          match σ !! csvPath this with
          | Some csv => mtime idx <? mtime csv
          | None => false
          end in
        if older then Rebuild
        else if age_limit_ms this <? now - mtime idx then Rebuild
        else if st_size (stats_of idx) <? 1000 then Rebuild
        else if negb (valid_artifact (content idx)) then Rebuild
        else LoadExisting
    end.

(** The decision table of the code, first true wins: read-only mode;
    force; source missing (no rebuild); index missing; a failing [stat];
    index older than the source; index too old; index smaller than 1000
    bytes. *)
Definition table (this : StartupProcessor) (readOnlyMode force : bool)
    (now : Z) (F : faults) (σ : gmap string file) : decision :=
  if readOnlyMode then LoadOnly
  else if force then Rebuild
  else
    match σ !! csvPath this with
    | None => LoadExisting
    | Some csv =>
        match σ !! indexPath this with
        | None => Rebuild
        | Some idx =>
            if csv_stat F || index_stat F then Rebuild
            else if mtime idx <? mtime csv then Rebuild
            else if age_limit_ms this <? now - mtime idx then Rebuild
            else if st_size (stats_of idx) <? 1000 then Rebuild
            else LoadExisting
        end
    end.

(** What loading yields from a file map, without running it. *)
Definition load_result (this : StartupProcessor) (F : faults)
    (σ : gmap string file) : res (list json) :=
  match σ !! indexPath this with
  | Some idx =>
      if index_read F then Throw (IOError "readFile")
      else match Json.parse (content idx) with
           | Some indexData => products_of indexData
           | None => Throw SyntaxError
           end
  | None => Throw (IOError "readFile")
  end.

End StartupSpec.

(* ===================================================================== *)
(** ** Vocabulary of the specification: the query engine *)
(* ===================================================================== *)

Module SearchSpec.
Import Str Types SearchEngine.

(** The explicit single price of a product, if it has one: a price of 0
    (or [NaN]) stands for no price, as [{0,0}] stands for an unknown
    range. *)
Definition single_price (p : Product) : option number :=
  match price p with
  | Some n => if Num.truthy n then Some n else None
  | None => None
  end.

Inductive bound : Type := RangeMin | RangeMax.

Definition bound_of (b : bound) (p : Product) : number :=
  match b with
  | RangeMin => min (priceRange p)
  | RangeMax => max (priceRange p)
  end.

(** An unknown bound counts as 0. *)
Definition known (n : number) : number :=
  if Num.truthy n then n else Num.zero.

(** The effective price: the single price if present, else the bound of
    the range. *)
Definition effective_price (b : bound) (p : Product) : number :=
  match single_price p with
  | Some n => n
  | None => known (bound_of b p)
  end.

(** A product has a price, for a direction, when its effective price is
    not 0. *)
Definition priced (b : bound) (p : Product) : bool :=
  Num.truthy (effective_price b p).

Definition unpriced (b : bound) (p : Product) : bool := negb (priced b p).

(** A list is ordered by effective price, ascending on the range minimum
    or descending on the range maximum, with the products that have no
    price behind all those that have one: whenever a later product has a
    price, every earlier one has a price that is no worse. *)
Definition ordered_by_price (b : bound) (out : list Product) : Prop :=
  forall i j x y,
    (i < j)%nat -> out !! i = Some x -> out !! j = Some y ->
    priced b y = true ->
    priced b x = true /\
    match b with
    | RangeMin => Num.le (effective_price b x) (effective_price b y) = true
    | RangeMax => Num.ge (effective_price b x) (effective_price b y) = true
    end.

(** The key the two price comparators read. *)
Definition key (b : bound) (p : Product) : number :=
  num_or (price p) (bound_of b p).

(** Whether the first key goes after the second: [flip] for descending. *)
Definition keyed (flip : bool) (a b : number) : bool :=
  if Num.truthy a
  then Num.truthy b && (if flip then Num.gt b a else Num.gt a b)
  else Num.truthy b.

(** A product has some price information: a single price or a bound of
    its range that is not 0. *)
Definition has_price_information (p : Product) : Prop :=
  single_price p <> None \/ Num.truthy (min (priceRange p)) = true \/
  Num.truthy (max (priceRange p)) = true.

(** A product lacks any price information. *)
Definition lacks_price (p : Product) : Prop :=
  single_price p = None /\ Num.truthy (min (priceRange p)) = false /\
  Num.truthy (max (priceRange p)) = false.

(** The order as the claim words it: no record lacking any price
    information stands before a record that has some. *)
Definition unpriced_last (out : list Product) : Prop :=
  forall i j x y,
    (i < j)%nat -> out !! i = Some x -> out !! j = Some y ->
    lacks_price x -> lacks_price y.

(** The effective price as the claim words it: the single price if the
    record has that member, else the bound of the range. *)
Definition stated_effective_price (b : bound) (p : Product) : number :=
  match price p with
  | Some n => n
  | None => bound_of b p
  end.

(** In stock: a positive inventory and no variant out of stock. *)
Definition in_stock (p : Product) : bool :=
  match totalInventory p with
  | Some n => Num.gt n Num.zero
  | None => false
  end
  && match hasOutOfStockVariants p with
     | Some true => false
     | _ => true
     end.

(** [needle] occurs in [hay]: some stretch of [hay] is [needle]. *)
Definition occurs_in (needle hay : string) : Prop :=
  exists before after, hay = before +:+ needle +:+ after.

(** Text of the ASCII range. *)
Definition ascii_text (s : string) : Prop :=
  Forall (fun c => (nat_of_ascii c < 128)%nat) (of_string s).

(** The same character, or the same letter of [A] to [Z] in its two
    cases. *)
Definition same_letter (c d : ascii) : Prop :=
  c = d \/
  exists k : nat, (k < 26)%nat /\
    ((nat_of_ascii c = 65 + k /\ nat_of_ascii d = 97 + k)%nat \/
     (nat_of_ascii c = 97 + k /\ nat_of_ascii d = 65 + k)%nat).

Definition same_ignoring_case (a b : string) : Prop :=
  Forall2 same_letter (of_string a) (of_string b).

(** Some stretch of [text] is [needle], the case of the letters apart. *)
Definition occurs_ignoring_case (needle text : string) : Prop :=
  exists before stretch after,
    text = before +:+ stretch +:+ after /\ same_ignoring_case stretch needle.

(** What the case mapping of the library does to ASCII text. *)
Definition folds_ascii (lower : string -> string) : Prop :=
  forall s, ascii_text s -> lower s = Str.toLowerCase s.

(** The five optional filters, each met when it is not set; a text
    filter that is the empty string is not set. *)
Definition vendor_ok (lower : string -> string) (f : SearchFilters)
    (p : Product) : Prop :=
  forall v, f_vendor f = Some v -> v <> EmptyString ->
            occurs_in (lower v) (lower (vendor p)).

Definition productType_ok (lower : string -> string) (f : SearchFilters)
    (p : Product) : Prop :=
  forall t, f_productType f = Some t -> t <> EmptyString ->
            occurs_in (lower t) (lower (productType p)).

Definition minPrice_ok (f : SearchFilters) (p : Product) : Prop :=
  forall lo, f_minPrice f = Some lo ->
             Num.ge (effective_price RangeMax p) lo = true.

Definition maxPrice_ok (f : SearchFilters) (p : Product) : Prop :=
  forall hi, f_maxPrice f = Some hi ->
             Num.le (effective_price RangeMin p) hi = true.

Definition inStock_ok (f : SearchFilters) (p : Product) : Prop :=
  f_inStock f = Some true -> in_stock p = true.

(** The strict conjunction of the filters. *)
Definition passes (lower : string -> string) (f : SearchFilters)
    (p : Product) : Prop :=
  vendor_ok lower f p /\ productType_ok lower f p /\ minPrice_ok f p /\
  maxPrice_ok f p /\ inStock_ok f p.

(** The same five tests as one decision. *)
Definition vendor_test (lower : string -> string) (f : SearchFilters)
    (p : Product) : bool :=
  match f_vendor f with
  | Some v =>
      String.eqb v EmptyString || includes (lower v) (lower (vendor p))
  | None => true
  end.

Definition productType_test (lower : string -> string) (f : SearchFilters)
    (p : Product) : bool :=
  match f_productType f with
  | Some t =>
      String.eqb t EmptyString || includes (lower t) (lower (productType p))
  | None => true
  end.

Definition minPrice_test (f : SearchFilters) (p : Product) : bool :=
  match f_minPrice f with
  | Some lo => Num.ge (effective_price RangeMax p) lo
  | None => true
  end.

Definition maxPrice_test (f : SearchFilters) (p : Product) : bool :=
  match f_maxPrice f with
  | Some hi => Num.le (effective_price RangeMin p) hi
  | None => true
  end.

Definition inStock_test (f : SearchFilters) (p : Product) : bool :=
  match f_inStock f with
  | Some true => in_stock p
  | _ => true
  end.

Definition keeps (lower : string -> string) (f : SearchFilters)
    (p : Product) : bool :=
  vendor_test lower f p && productType_test lower f p && minPrice_test f p
  && maxPrice_test f p && inStock_test f p.

(** The candidate set of a query: the whole collection for an empty
    query, else the matches of Fuse. *)
Definition candidates (fuse_search : list Product -> string -> list Product)
    (collection : list Product) (query : string) : list Product :=
  if String.eqb (trim query) EmptyString then collection
  else fuse_search collection query.

(** A string made of white space only. *)
Definition blank (s : string) : Prop :=
  Forall (fun c => is_space c = true) (of_string s).

End SearchSpec.

Module MutSpec.
Import Types SearchEngine SearchEngine.Mut.

(** [m] run in [h] returns an array holding [ys] and leaves every array
    of [h] as it was. *)
Definition computes (m : st ref) (h : store) (ys : list Product) : Prop :=
  exists r' h', m h = (r', h') /\ h ⊆ h' /\ h' !! r' = Some ys.

(** One optional filter of [applyFilters], on values. *)
Definition opt_step {X} (o : option X) (skip : X -> bool)
    (p : X -> Product -> bool) (xs : list Product) : list Product :=
  match o with
  | Some v => if skip v then xs else List.filter (p v) xs
  | None => xs
  end.

(** Two calls with the same query, filters, page, limit and sort order;
    the clock readings may differ. *)
Definition same_arguments (c c' : call) : Prop :=
  c_query c = c_query c' /\ c_filters c = c_filters c' /\
  c_page c = c_page c' /\ c_limit c = c_limit c' /\
  c_sortBy c = c_sortBy c'.

End MutSpec.

(* ===================================================================== *)
(** ** Vocabulary of the properties of the catalogue and of the result
       list *)
(* ===================================================================== *)

Module CatalogSpec.
Import Str Types SearchEngine SearchSpec.


(** A price that counts for the range of the catalogue. *)
Definition positive_price (p : Product) : Prop :=
  Num.gt (Catalog.getProductPrice p) Num.zero = true.

(** A comparator is a consistent ordering of the keys [ks]: it never puts
    two keys after each other, and "not after" is transitive. *)
Definition consistent_on {K} (cmp : K -> K -> number) (ks : list K) : Prop :=
  (forall a b, a ∈ ks -> b ∈ ks ->
     Num.gt (cmp a b) Num.zero = true -> Num.gt (cmp b a) Num.zero = false) /\
  (forall a b c, a ∈ ks -> b ∈ ks -> c ∈ ks ->
     Num.gt (cmp a b) Num.zero = false -> Num.gt (cmp b c) Num.zero = false ->
     Num.gt (cmp a c) Num.zero = false).

(** No element of [out] stands before one that [R] puts strictly before
    it: read by positions. *)
Definition in_order {A} (R : A -> A -> Prop) (out : list A) : Prop :=
  forall i j x y, (i < j)%nat -> out !! i = Some x -> out !! j = Some y -> R x y.

(** The text [s] matches the query, as the suggestions test it. *)
Definition suggests (lower : string -> string) (query s : string) : bool :=
  includes (lower query) (lower s).

End CatalogSpec.

Module ResultSpec.
Import Str Types SearchEngine CatalogSpec.

(** The values of one attribute that match the query, in the order of
    the collection. *)
Definition matching (lower : string -> string) (query : string)
    (get : Product -> string) (ps : list Product) : list string :=
  List.filter (suggests lower query) (get <$> ps).

(** Every string the suggestions can draw on: the matching titles, then
    the matching vendors, then the matching product types, each kept
    once at its first position. *)
Definition all_suggestions (lower : string -> string) (query : string)
    (ps : list Product) : list string :=
  Catalog.new_Set (matching lower query title ps
                   ++ matching lower query vendor ps
                   ++ matching lower query productType ps)%list.

Definition has_title (t : string) (p : Product) : bool :=
  String.eqb (title p) t.

Definition created_at (s : string) (p : Product) : bool :=
  String.eqb (createdAt p) s.

(** The five sort keys that select a comparator. *)
Definition sort_keys : list string :=
  ["price-asc"; "price-desc"; "name-asc"; "name-desc"; "newest"].

End ResultSpec.

(* ===================================================================== *)
(** ** Vocabulary of the properties of a transformed record *)
(* ===================================================================== *)

Module RecordSpec.
Import Str Parse Js Types Transform.

(** A text holds a tag when some [<] is followed, anywhere later, by a
    [>]: this is what the regular expression of [extractDescription]
    matches. *)
Fixpoint has_tag (s : chars) : bool :=
  match s with
  | [] => false
  | c :: t => (Ascii.eqb c "<" && has_gt t) || has_tag t
  end.

Definition tag_free (s : string) : Prop := has_tag (of_string s) = false.



(** A whole number or an infinity: what [parseInt] returns when it
    does not return [NaN]. *)
Definition whole (n : number) : Prop :=
  (exists z, n = Num.of_Z z) \/ (exists s, n = Inf s).

End RecordSpec.

(* ===================================================================== *)
(** ** Vocabulary of the properties of the index files *)
(* ===================================================================== *)

Module StoreSpec.
Import Js Fs Persist.

(** The data files [saveSearchIndex] works on. *)
Definition data_paths : list string :=
  [indexPath; backupPath; tempPath; oldBackupPath].

(** The generation kept beside a new index: the index that was replaced,
    as copied at the time of the run; else a backup that was lying
    around; else whatever older backup there was. *)
Definition previous_generation (now : Z) (σ : gmap string file)
  : option file :=
  match σ !! indexPath with
  | Some f => Some {| content := content f; mtime := now |}
  | None =>
      match σ !! backupPath with
      | Some b => Some b
      | None => σ !! oldBackupPath
      end
  end.

(** The [products] array of an index text that step 3 accepts. *)
Definition products_array (text : string) : option (list json) :=
  match Json.parse text with
  | Some (JObj fs) =>
      match Json.field "products" fs with
      | Some (JArr items) => Some items
      | _ => None
      end
  | _ => None
  end.

End StoreSpec.

Module ProcessorSpec.
Import Types Transform CsvProcessor.

(** The records the transform accepts, in the order of the rows. *)
Definition accepted (nts : Q -> string) (config : ProcessingConfig)
    (rows : list (gmap string cell)) : list Product :=
  omap (fun row => transformRow nts row config) rows.

(** The number of rows the transform rejects. *)
Definition rejections (nts : Q -> string) (config : ProcessingConfig)
    (rows : list (gmap string cell)) : Z :=
  Z.of_nat (List.length rows)
  - Z.of_nat (List.length (accepted nts config rows)).

End ProcessorSpec.

(* ===================================================================== *)
(** ** Vocabulary of the properties of the serialised index *)
(* ===================================================================== *)

Module StringifySpec.
Import Str Json Stringify.

(** The value that reading a serialised value back yields: a number that
    is not finite has become [null], and an object lists its own
    properties. *)
Fixpoint canon (j : json) : json :=
  match j with
  | JNum (Fin q) => JNum (Fin q)
  | JNum _ => JNull
  | JArr items => JArr (List.map canon items)
  | JObj fs =>
      JObj (own_properties
              (List.map (fun kv : string * json => (kv.1, canon kv.2)) fs))
  | v => v
  end.

Section WithNumberToString.
Variable Number_toString : Q -> string.

(** The text of a finite number reads back, by the grammar of JSON, as
    that number. *)
Definition prints (q : Q) : Prop :=
  json_number (of_string (Number_toString q)) = Some q.

(** Every finite number in the value prints. *)
Fixpoint printable (j : json) : Prop :=
  match j with
  | JNum (Fin q) => prints q
  | JArr items => fold_right (fun x acc => printable x /\ acc) True items
  | JObj fs =>
      fold_right (fun (kv : string * json) acc => printable kv.2 /\ acc)
                 True fs
  | _ => True
  end.

End WithNumberToString.

(** The tokens of a value. *)
Definition join_tokens (parts : list (list token)) : list token :=
  match parts with
  | [] => []
  | p :: rest => (p ++ flat_map (fun q => TComma :: q) rest)%list
  end.

Fixpoint tokens (j : json) : list token :=
  match j with
  | JArr items => (TLBrack :: join_tokens (List.map tokens items)
                   ++ [TRBrack])%list
  | JObj fs =>
      (TLBrace
       :: join_tokens
            (List.map (fun kv : string * json =>
                         TScalar (JStr kv.1) :: TColon :: tokens kv.2) fs)
       ++ [TRBrace])%list
  | v => [TScalar v]
  end.

(** What may follow a value in a serialised text: nothing, a comma, or a
    line break. *)
Definition delimited (rest : chars) : Prop :=
  match rest with
  | [] => True
  | c :: _ => c = ","%char \/ c = newline
  end.

(** An item lexes to its tokens whenever a delimiter follows it. *)
Definition lexes {A} (ser : A -> chars) (tok : A -> list token) (x : A)
  : Prop :=
  forall out rest, delimited rest ->
    lex_from (Idle, out) (ser x ++ rest)%list
    = lex_from (Idle, (rev (tok x) ++ out)%list) rest.

(** The tokens of the value a value reads back as. *)
Definition value_tokens (j : json) : list token := tokens (canon j).

(** The rest of the tokens, once the value [v] has gone into the
    innermost open container. *)
Definition continue (stack : list frame) (v : json) (rest : list token)
  : option json :=
  match push_value stack v with
  | Some st => parse_tokens st rest
  | None => None
  end.

End StringifySpec.

Module PipelineSpec.
Import Types Transform CsvProcessor Stringify StringifySpec ProcessorSpec.

(** The records of an index as [loadIndex] hands them out: each product
    as the value its serialised form reads back as. *)
Definition loaded (ps : list Product) : list json :=
  canon <$> (of_product <$> ps).

(** What one build produces from the rows of the source: the accepted
    records, and their metadata. *)
Definition built (nts : Q -> string) (this : CSVProcessor)
    (rows : list (gmap string cell)) : list Product :=
  accepted nts (this_config this) rows.

Definition built_index (nts : Q -> string) (this : CSVProcessor)
    (rows : list (gmap string cell)) (stamp : string) : json :=
  of_index (built nts this rows)
           (generateMetadata (built nts this rows) stamp).

(** A value that reads back as itself. *)
Definition stable (j : json) : Prop := canon j = j.

Definition finite (n : number) : Prop := exists q, n = Fin q.

(** A record all of whose numbers are finite and whose tags, images and
    featured image read back as themselves (strings do). *)
Definition plain (p : Product) : Prop :=
  finite (min (priceRange p)) /\ finite (max (priceRange p)) /\
  (forall n, totalInventory p = Some n -> finite n) /\
  (forall n, price p = Some n -> finite n) /\
  Forall stable (tags p) /\ Forall stable (images p) /\
  (forall j, featuredImage p = Some j -> stable j).

(** The members of the object of a record. *)
Definition members (p : Product) : list (string * json) :=
  match of_product p with
  | JObj fs => fs
  | _ => []
  end.

End PipelineSpec.

(* ===================================================================== *)
(** ** Fixtures of the test suites *)
(* ===================================================================== *)

Module Fixtures.
Import Str Parse Js Types Transform.

(** A printer for the numbers of the examples: integers, and decimals of
    up to twenty places. *)
Definition show_Z (z : Z) : string :=
  DecimalString.NilZero.string_of_int (Z.to_int z).

Fixpoint show_frac (fuel : nat) (r d : Z) : string :=
  match fuel with
  | O => EmptyString
  | S fuel' =>
      if r =? 0 then EmptyString
      else String (Json.byte (48 + (10 * r) / d))
                  (show_frac fuel' ((10 * r) mod d) d)
  end.

Definition show_Q (q : Q) : string :=
  let n := Z.abs (Qnum q) in
  let d := Zpos (Qden q) in
  let sign := if Qnum q <? 0 then "-" else EmptyString in
  let frac := show_frac 20 (n mod d) d in
  (sign +:+ show_Z (n / d)
   +:+ (if String.eqb frac EmptyString then EmptyString else "." +:+ frac)).

Definition row_of (l : list (string * cell)) : gmap string cell :=
  list_to_map l.

(** Rows of the transform tests. *)
Definition valid_row : gmap string cell :=
  row_of
    [("ID", CStr "123"); ("TITLE", CStr "Test Product");
     ("VENDOR", CStr "Test Vendor"); ("PRODUCT_TYPE", CStr "Test Type");
     ("DESCRIPTION", CStr "Test Description"); ("HANDLE", CStr "test-product");
     ("STATUS", CStr "active");
     ("PRICE_RANGE_V2",
      CStr (Json.js "{'min_variant_price': {'amount': 10.99, 'currency_code': 'USD'}, 'max_variant_price': {'amount': 19.99, 'currency_code': 'USD'}}"));
     ("IMAGES",
      CStr (Json.js "['https://example.com/image1.jpg', 'https://example.com/image2.jpg']"));
     ("TAGS", CStr (Json.js "['tag1', 'tag2']"));
     ("CREATED_AT", CStr "2023-01-01"); ("UPDATED_AT", CStr "2023-01-02");
     ("PUBLISHED_AT", CStr "2023-01-03"); ("TOTAL_INVENTORY", CNum 50);
     ("HAS_OUT_OF_STOCK_VARIANTS", CStr "false"); ("IS_GIFT_CARD", CStr "false");
     ("FEATURED_IMAGE", CStr "https://example.com/featured.jpg")].

Definition malformed_row : gmap string cell :=
  row_of
    [("ID", CStr "123"); ("TITLE", CStr "Test Product");
     ("PRICE_RANGE_V2", CStr "invalid json"); ("IMAGES", CStr "invalid json");
     ("TAGS", CStr "invalid json"); ("TOTAL_INVENTORY", CStr "invalid")].

(** The four products of the search-engine tests. *)
Definition mock (id title vendor productType description handle : string)
    (lo hi : Z) (created updated published : string) (inventory : Z)
    (outOfStock giftCard : bool) (images tags : list string) : Product :=
  {| Types.id := id; Types.title := title; Types.handle := Some handle;
     Types.vendor := vendor; Types.description := description;
     Types.productType := productType; Types.tags := JStr <$> tags;
     status := "active"; createdAt := created; updatedAt := updated;
     publishedAt := published;
     priceRange := {| min := Num.of_Z lo; max := Num.of_Z hi |};
     Types.images := JStr <$> images;
     totalInventory := Some (Num.of_Z inventory); price := None;
     featuredImage := None; isGiftCard := Some giftCard;
     hasOutOfStockVariants := Some outOfStock |}.

Definition iphone : Product :=
  mock "1" "iPhone 14 Pro" "Apple" "Smartphone"
       "Latest iPhone with advanced camera system" "iphone-14-pro"
       999 1199 "2023-01-01" "2023-01-02" "2023-01-03" 50 false false
       ["iphone1.jpg"] ["electronics"; "phone"; "apple"].

Definition galaxy : Product :=
  mock "2" "Samsung Galaxy S23" "Samsung" "Smartphone"
       "Flagship Android phone with excellent display" "samsung-galaxy-s23"
       799 999 "2023-02-01" "2023-02-02" "2023-02-03" 0 true false
       ["samsung1.jpg"] ["electronics"; "phone"; "android"].

Definition macbook : Product :=
  mock "3" (Json.js "MacBook Pro 16'") "Apple" "Laptop"
       "Professional laptop for creative work" "macbook-pro-16"
       2499 3999 "2023-03-01" "2023-03-02" "2023-03-03" 25 false false
       ["macbook1.jpg"] ["electronics"; "laptop"; "apple"].

Definition giftcard : Product :=
  mock "4" "Gift Card $50" "Store" "Gift Card"
       "Digital gift card for online purchases" "gift-card-50"
       50 50 "2023-04-01" "2023-04-02" "2023-04-03" 100 false true
       [] ["gift"; "digital"].

Definition mockProducts : list Product := [iphone; galaxy; macbook; giftcard].

(** The first product with its price range set to [{0,0}]. *)
Definition unpriced_iphone : Product :=
  mock "1" "iPhone 14 Pro" "Apple" "Smartphone"
       "Latest iPhone with advanced camera system" "iphone-14-pro"
       0 0 "2023-01-01" "2023-01-02" "2023-01-03" 50 false false
       ["iphone1.jpg"] ["electronics"; "phone"; "apple"].

(** A product whose range is known at its upper end only, and the first
    product with a single price of 0 beside a range from 5 to 10. *)
Definition upper_end_only : Product :=
  mock "5" "Sample" "Store" "Sample" "Known at the upper end" "sample"
       0 7 "2023-05-01" "2023-05-02" "2023-05-03" 1 false false [] [].

Definition zero_priced : Product :=
  {| Types.id := "1"; Types.title := "iPhone 14 Pro";
     Types.handle := Some "iphone-14-pro"; Types.vendor := "Apple";
     Types.description := "Latest iPhone with advanced camera system";
     Types.productType := "Smartphone"; Types.tags := [];
     status := "active"; createdAt := "2023-01-01";
     updatedAt := "2023-01-02"; publishedAt := "2023-01-03";
     priceRange := {| min := Num.of_Z 5; max := Num.of_Z 10 |};
     Types.images := []; totalInventory := Some (Num.of_Z 50);
     price := Some Num.zero; featuredImage := None;
     isGiftCard := Some false; hasOutOfStockVariants := Some false |}.

(** Stand-ins for the library calls, used only to run the examples: the
    case mapping of the ASCII range for [toLowerCase], a plain substring
    match on titles for Fuse, an ordering of lower-cased titles for
    [localeCompare], the digits of an ISO date for [getTime]. *)
Definition sample_toLowerCase : string -> string := Str.toLowerCase.

Definition sample_fuse (docs : list Product) (query : string) : list Product :=
  List.filter (fun p => includes (toLowerCase query) (toLowerCase (title p)))
              docs.

Definition sample_localeCompare (a b : string) : number :=
  match String.compare (toLowerCase a) (toLowerCase b) with
  | Lt => Num.of_Z (-1)
  | Eq => Num.of_Z 0
  | Gt => Num.of_Z 1
  end.

Definition sample_getTime (s : string) : number :=
  Num.of_Z (digits_val (List.filter is_digit (of_string s))).

(** A data directory with an index, a backup and an older backup, and a
    small serialised index to write. *)
Definition disk : gmap string Fs.file :=
  list_to_map
    [(Persist.indexPath, {| Fs.content := "old index"; Fs.mtime := 1 |});
     (Persist.backupPath, {| Fs.content := "backup"; Fs.mtime := 1 |});
     (Persist.oldBackupPath, {| Fs.content := "older"; Fs.mtime := 1 |})].

Definition empty_index : string := Json.js "{'products': []}".

Definition unlink_old_fails : Persist.faults :=
  {| Persist.mkdir_fails := false; Persist.backup_copy := Fs.WOk;
     Persist.temp_write := Fs.WOk; Persist.temp_read := false;
     Persist.temp_rename := false; Persist.old_unlink := true;
     Persist.backup_rename := false; Persist.index_stat := false;
     Persist.cleanup_unlink := false; Persist.restore_copy := Fs.WOk |}.

Definition rename_fails : Persist.faults :=
  {| Persist.mkdir_fails := false; Persist.backup_copy := Fs.WOk;
     Persist.temp_write := Fs.WOk; Persist.temp_read := false;
     Persist.temp_rename := true; Persist.old_unlink := false;
     Persist.backup_rename := false; Persist.index_stat := false;
     Persist.cleanup_unlink := false; Persist.restore_copy := Fs.WOk |}.

(** A start-up with the default paths; an index file of 1200 bytes that
    is not JSON, newer than the source; an index build that would write a
    valid index. *)
Definition default_startup : Startup.StartupProcessor :=
  Startup.new_StartupProcessor
    {| Startup.cfg_csvPath := None; Startup.cfg_indexPath := None;
       Startup.cfg_maxAgeHours := None |}.

Definition garbage : string :=
  string_of_list_ascii (List.repeat "x"%char 1200).

Definition disk_with_garbage : gmap string Fs.file :=
  list_to_map
    [("public/products.csv", {| Fs.content := "ID,TITLE"; Fs.mtime := 10 |});
     ("data/search-index.json", {| Fs.content := garbage; Fs.mtime := 20 |})].

Definition sample_build (csv : string) : Fs.io unit :=
  Fs.writeFile "data/search-index.json" (Json.js "{'products': [{'id': '1'}]}")
               0 Fs.WOk.

(** [search] with the stand-in library calls; the answer as the list of
    product ids. *)
Definition run (query : string) (f : SearchFilters) (page limit : Z)
    (sortBy : string) : SearchEngine.SearchResult (list Product) :=
  SearchEngine.search sample_toLowerCase sample_fuse sample_localeCompare
         sample_getTime mockProducts query f page limit sortBy 0 1.

Definition ids (r : SearchEngine.SearchResult (list Product)) : list string :=
  id <$> SearchEngine.products r.

Definition with_vendor (v : string) : SearchFilters :=
  {| f_vendor := Some v; f_productType := None; f_minPrice := None;
     f_maxPrice := None; f_inStock := None |}.

Definition with_prices (lo hi : option Z) : SearchFilters :=
  {| f_vendor := None; f_productType := None;
     f_minPrice := Num.of_Z <$> lo; f_maxPrice := Num.of_Z <$> hi;
     f_inStock := None |}.

Definition with_inStock (b : bool) : SearchFilters :=
  {| f_vendor := None; f_productType := None; f_minPrice := None;
     f_maxPrice := None; f_inStock := Some b |}.

(** An engine over the four products, held in a store of arrays, and two
    sorted searches. *)
Definition mock_store : gmap positive (list Product) :=
  {[ 1%positive := mockProducts ]}.

Definition mock_engine : SearchEngine.Mut.engine :=
  {| SearchEngine.Mut.this_products := 1%positive;
     SearchEngine.Mut.this_fuse := mockProducts |}.

Definition sorted_call (sortBy : string) : SearchEngine.Mut.call :=
  {| SearchEngine.Mut.c_query := EmptyString;
     SearchEngine.Mut.c_filters := no_filters;
     SearchEngine.Mut.c_page := 1; SearchEngine.Mut.c_limit := 20;
     SearchEngine.Mut.c_sortBy := sortBy;
     SearchEngine.Mut.c_t0 := 0; SearchEngine.Mut.c_t1 := 1 |}.

(** Three rows of a source, the second without an identifier; the
    readings of one run; a reader that delivers the three rows; and a
    disk that holds the source only. *)
Definition sample_rows : list (gmap string cell) :=
  [valid_row; row_of [("TITLE", CStr "No identifier")]; malformed_row].

Definition sample_env (production : bool) : CsvProcessor.run_env :=
  {| CsvProcessor.isProduction := production;
     CsvProcessor.startTime := 0; CsvProcessor.endTime := 1500;
     CsvProcessor.writeTime := 100;
     CsvProcessor.isoTime := "2024-01-01T00:00:00.000Z";
     CsvProcessor.heapUsed := fun _ => 52428800;
     CsvProcessor.faults := Persist.no_faults |}.

Definition sample_csv_parse (text : string) : list (gmap string cell) :=
  sample_rows.

Definition source_file : Fs.file :=
  {| Fs.content := "ID,TITLE"; Fs.mtime := 10 |}.

Definition disk_with_source : gmap string Fs.file :=
  {[ "public/products.csv" := source_file ]}.

Definition small_chunks : ProcessingConfig :=
  {| chunkSize := 1; maxImages := 3; maxDescriptionLength := 500;
     enableProgress := false; enableMetrics := false |}.

End Fixtures.

(* ===================================================================== *)
(** * Part II: examples and theorems *)
(* ===================================================================== *)

Section ParseExamples.
Import Parse.

Example parseFloat_plain : parseFloat "18.55" = Fin (371 # 20).
Proof. reflexivity. Qed.

Example parseFloat_prefix : parseFloat "  -1.5e2abc" = Fin (-150 # 1).
Proof. reflexivity. Qed.

Example parseFloat_dots : parseFloat "1.2.3" = Fin (6 # 5).
Proof. reflexivity. Qed.

Example parseFloat_lone_dot : parseFloat "." = NaN.
Proof. reflexivity. Qed.

Example parseFloat_text : parseFloat "[object Object]" = NaN.
Proof. reflexivity. Qed.

Example parseInt_prefix : parseInt "12abc" = Some 12.
Proof. reflexivity. Qed.

Example parseInt_text : parseInt "invalid" = None.
Proof. reflexivity. Qed.

Example match_numeric_range :
  match_numeric "from 10.50 to 20.50 GBP" = ["10.50"; "20.50"].
Proof. reflexivity. Qed.

Example strip_tags_html :
  strip_tags "<p>This is <strong>HTML</strong> content</p>"
  = "This is HTML content".
Proof. reflexivity. Qed.

Example strip_tags_open : strip_tags "a < b" = "a < b".
Proof. reflexivity. Qed.

Example split_tags :
  split "electronics, , gadgets" = ["electronics"; " "; " gadgets"].
Proof. reflexivity. Qed.

End ParseExamples.

Section JsonExamples.
Import Json.

Example parse_shopify :
  parse (js "{'min_variant_price': {'amount': 10.99, 'currency_code': 'USD'}}")
  = Some (JObj [("min_variant_price",
                 JObj [("amount", JNum (Fin (1099 # 100)));
                       ("currency_code", JStr "USD")])]).
Proof. reflexivity. Qed.

Example parse_array :
  parse (js " [1, true, null, 'a\nA', [], {}] ")
  = Some (JArr [JNum (Fin 1); JBool true; JNull;
                JStr (String "a" (String (Json.byte 10) "A"));
                JArr []; JObj []]).
Proof. reflexivity. Qed.

Example parse_number : parse "19.99" = Some (JNum (Fin (1999 # 100))).
Proof. reflexivity. Qed.

Example parse_exponent : parse "-1.5e2" = Some (JNum (Fin (-150 # 1))).
Proof. reflexivity. Qed.

Example parse_free_text : parse "invalid json" = None.
Proof. reflexivity. Qed.

Example parse_two_numbers : parse "20 10" = None.
Proof. reflexivity. Qed.

Example parse_trailing_comma : parse "[1,]" = None.
Proof. reflexivity. Qed.

Example parse_leading_zero : parse "007" = None.
Proof. reflexivity. Qed.

Example parse_unclosed : parse (js "{'a': 1") = None.
Proof. reflexivity. Qed.

Example parse_empty : parse EmptyString = None.
Proof. reflexivity. Qed.

Example parse_duplicate_key :
  (fs ← parse (js "{'a': 1, 'a': 2}");
   match fs with JObj l => field "a" l | _ => None end)
  = Some (JNum (Fin 2)).
Proof. reflexivity. Qed.

End JsonExamples.

(* ===================================================================== *)
(** ** The transform on the rows of the test suite *)
(* ===================================================================== *)

Module TransformExamples.
Import Str Parse Js Types Transform Fixtures.

(** A printer for the numbers of the examples: integers, and decimals of
    up to twenty places. *)
Example transform_valid_row :
  transformRow show_Q valid_row DEFAULT_CONFIG
  = Some
      {| id := "123"; title := "Test Product"; vendor := "Test Vendor";
         productType := "Test Type"; description := "Test Description";
         handle := Some "test-product"; status := "active";
         priceRange := {| min := Fin (1099 # 100); max := Fin (1999 # 100) |};
         images := [JStr "https://example.com/image1.jpg";
                    JStr "https://example.com/image2.jpg"];
         tags := [JStr "tag1"; JStr "tag2"];
         createdAt := "2023-01-01"; updatedAt := "2023-01-02";
         publishedAt := "2023-01-03";
         totalInventory := Some (Fin 50);
         hasOutOfStockVariants := Some false; isGiftCard := Some false;
         featuredImage := Some (JStr "https://example.com/featured.jpg");
         price := None |}.
Proof. vm_compute. reflexivity. Qed.

Example transform_malformed_row :
  transformRow show_Q malformed_row DEFAULT_CONFIG
  = Some
      {| id := "123"; title := "Test Product"; vendor := EmptyString;
         productType := EmptyString; description := EmptyString;
         handle := Some EmptyString; status := "active";
         priceRange := {| min := Fin 0; max := Fin 0 |};
         images := []; tags := [JStr "invalid json"];
         createdAt := EmptyString; updatedAt := EmptyString;
         publishedAt := EmptyString;
         totalInventory := Some (Fin 0);
         hasOutOfStockVariants := Some false; isGiftCard := Some false;
         featuredImage := Some (JStr EmptyString);
         price := None |}.
Proof. vm_compute. reflexivity. Qed.

Example transform_missing_required :
  transformRow show_Q (row_of [("VENDOR", CStr "Test Vendor")]) DEFAULT_CONFIG
  = None.
Proof. vm_compute. reflexivity. Qed.

Example price_simple_format :
  parsePriceRange show_Q (Some (CStr (Json.js "{'min': 10.50, 'max': 20.50}")))
  = Ok {| min := Fin (21 # 2); max := Fin (41 # 2) |}.
Proof. vm_compute. reflexivity. Qed.

Example price_two_tokens :
  parsePriceRange show_Q (Some (CStr "from 10.50 to 20.50 GBP"))
  = Ok {| min := Fin (21 # 2); max := Fin (41 # 2) |}.
Proof. vm_compute. reflexivity. Qed.

Example price_one_token :
  parsePriceRange show_Q (Some (CStr "$19.99"))
  = Ok {| min := Fin (1999 # 100); max := Fin (1999 # 100) |}.
Proof. vm_compute. reflexivity. Qed.

Example tags_comma_separated :
  parseTags (Some (CStr "electronics, , gadgets, , tech"))
  = Ok [JStr "electronics"; JStr "gadgets"; JStr "tech"].
Proof. vm_compute. reflexivity. Qed.

Example images_capped :
  parseImages
    (Some (CStr (Json.js "['img1.jpg', 'img2.jpg', 'img3.jpg', 'img4.jpg']"))) 3
  = Ok [JStr "img1.jpg"; JStr "img2.jpg"; JStr "img3.jpg"].
Proof. vm_compute. reflexivity. Qed.

Example inventory_number_cell :
  parseInventory show_Q (Some (CNum 25)) = Ok (Fin 25).
Proof. vm_compute. reflexivity. Qed.

End TransformExamples.

(* ===================================================================== *)
(** ** Order of JavaScript numbers *)
(* ===================================================================== *)

Module NumFacts.

Lemma Qcompare_sub x y : ((x - y) ?= 0)%Q = (x ?= y)%Q.
Proof.
  destruct (x ?= y)%Q eqn:E.
  - apply Qeq_alt in E. apply (proj1 (Qeq_alt _ _)). lra.
  - apply Qlt_alt in E. apply (proj1 (Qlt_alt _ _)). lra.
  - apply Qgt_alt in E. apply (proj1 (Qgt_alt _ _)). lra.
Qed.

Lemma truthy_not_nan n : Num.truthy n = true -> n <> NaN.
Proof. destruct n; simpl; congruence. Qed.

(** The sign of a difference is the order of its terms. *)
Lemma gt_sub a b :
  a <> NaN -> b <> NaN -> Num.gt (Num.sub a b) Num.zero = Num.gt a b.
Proof.
  destruct a as [| [] | x], b as [| [] | y]; intros Ha Hb;
    try congruence; try reflexivity.
  unfold Num.gt. simpl. rewrite Qcompare_sub. reflexivity.
Qed.

Lemma gt_asym a b : Num.gt a b = true -> Num.gt b a = false.
Proof.
  destruct a as [| [] | x], b as [| [] | y]; unfold Num.gt; simpl;
    try discriminate; try reflexivity.
  destruct (x ?= y)%Q eqn:E; try discriminate. intros _.
  apply Qgt_alt in E.
  destruct (y ?= x)%Q eqn:E'; try reflexivity.
  apply Qgt_alt in E'. lra.
Qed.

Lemma not_gt_trans a b c :
  a <> NaN -> b <> NaN -> c <> NaN ->
  Num.gt a b = false -> Num.gt b c = false -> Num.gt a c = false.
Proof.
  destruct a as [| [] | x], b as [| [] | y], c as [| [] | z];
    unfold Num.gt; simpl; intros Ha Hb Hc; try congruence.
  destruct (x ?= y)%Q eqn:E1; try discriminate;
    destruct (y ?= z)%Q eqn:E2; try discriminate;
    destruct (x ?= z)%Q eqn:E3; try reflexivity; intros _ _;
    apply Qgt_alt in E3;
    first [apply Qeq_alt in E1 | apply Qlt_alt in E1];
    first [apply Qeq_alt in E2 | apply Qlt_alt in E2]; lra.
Qed.

Lemma not_gt_le a b :
  a <> NaN -> b <> NaN -> Num.gt a b = false -> Num.le a b = true.
Proof.
  destruct a as [| [] | x], b as [| [] | y]; unfold Num.gt, Num.le; simpl;
    intros Ha Hb; try congruence.
  destruct (x ?= y)%Q; congruence.
Qed.

Lemma le_ge a b : Num.le a b = Num.ge b a.
Proof.
  destruct a as [| [] | x], b as [| [] | y]; unfold Num.ge, Num.le; simpl;
    try reflexivity.
  rewrite <- (Qcompare_antisym x y). destruct (x ?= y)%Q; reflexivity.
Qed.

End NumFacts.

(* ===================================================================== *)
(** ** Running file-system computations *)
(* ===================================================================== *)

Module IoFacts.
Import Js Fs.

Ltac io_unfold :=
  unfold mbind, io_bind_inst, io_bind, mret, io_ret_inst, io_ret, when,
         io_try, throw, lift, existsSync in *.

Lemma bool_decide_is_Some {A} (o : option A) :
  bool_decide (is_Some o) = match o with Some _ => true | None => false end.
Proof.
  destruct o; [apply bool_decide_eq_true; eauto |].
  apply bool_decide_eq_false. intros [? [=]].
Qed.

End IoFacts.

(* ===================================================================== *)
(** ** The row transform: rejection and defaults *)
(* ===================================================================== *)

Module TransformFacts.
Import Str Parse Js Types Transform TransformSpec.

Lemma falsy_iff f : falsy f <-> truthy f = false.
Proof.
  unfold falsy, missing_or_empty. split.
  - intros [[-> | ->] | (q & -> & Hq)]; try reflexivity.
    simpl. unfold Qeq in Hq. simpl in Hq.
    replace (Qnum q) with 0 by lia. reflexivity.
  - destruct f as [[s | q] |]; simpl; intros H.
    + left. right. destruct (String.eqb_spec s EmptyString); [subst; auto | discriminate].
    + right. exists q. split; [reflexivity |].
      apply negb_false_iff, Z.eqb_eq in H. unfold Qeq. simpl. lia.
    + left. left. reflexivity.
Qed.

Lemma missing_or_empty_falsy f : missing_or_empty f -> falsy f.
Proof. intros H. left. exact H. Qed.

Lemma or_else_falsy a b :
  truthy a = false -> truthy b = false -> truthy (a ||| b) = false.
Proof. unfold or_else. intros Ha Hb. rewrite Ha. exact Hb. Qed.

Section Facts.
Variable nts : Q -> string.

(** A [try] whose [catch] block cannot throw yields a value. *)
Lemma try_catch_total {A} (body : res A) (handler : exn -> res A) :
  (forall e, exists a, handler e = Ok a) ->
  exists a, try_catch body handler = Ok a.
Proof.
  intros Hh. destruct body as [a | e]; simpl; eauto.
Qed.

Ltac caught :=
  unfold mbind, res_bind;
  match goal with
  | |- context [try_catch ?b ?h] =>
      let r := fresh "r" in
      let Hr := fresh "Hr" in
      destruct (try_catch_total b h) as [r Hr];
      [ intros ?; repeat case_match; eauto | rewrite Hr; simpl; eauto ]
  end.

Lemma parsePriceRange_total f : exists r, parsePriceRange nts f = Ok r.
Proof.
  unfold parsePriceRange. destruct f as [c |]; [| eauto].
  destruct (negb (truthy (Some c))); [eauto | caught].
Qed.

Lemma parseImages_total f n : exists r, parseImages f n = Ok r.
Proof.
  unfold parseImages. destruct f as [c |]; [| eauto].
  destruct (negb (truthy (Some c))); [eauto | caught].
Qed.

Lemma parseTags_total f : exists r, parseTags f = Ok r.
Proof.
  unfold parseTags. destruct f as [c |]; [| eauto].
  destruct (negb (truthy (Some c))); [eauto | caught].
Qed.

Lemma parseInventory_total f : exists r, parseInventory nts f = Ok r.
Proof.
  unfold parseInventory. destruct f as [c |]; [| eauto].
  destruct (negb (truthy (Some c))); [eauto |]. case_match; eauto.
Qed.

Lemma parseBoolean_total f : exists r, parseBoolean nts f = Ok r.
Proof.
  unfold parseBoolean. destruct f as [c |]; [| eauto].
  destruct (negb (truthy (Some c))); eauto.
Qed.

Lemma parseFeaturedImage_total f : exists r, parseFeaturedImage f = Ok r.
Proof.
  unfold parseFeaturedImage. destruct f as [c |]; [| eauto].
  destruct (negb (truthy (Some c))); [eauto | caught].
Qed.

(** *** A falsy field takes the default of its parser *)

Lemma parsePriceRange_falsy f :
  truthy f = false -> parsePriceRange nts f = Ok defaultRange.
Proof. unfold parsePriceRange. destruct f; [intros -> |]; reflexivity. Qed.

Lemma parseImages_falsy f n : truthy f = false -> parseImages f n = Ok [].
Proof. unfold parseImages. destruct f; [intros -> |]; reflexivity. Qed.

Lemma parseTags_falsy f : truthy f = false -> parseTags f = Ok [].
Proof. unfold parseTags. destruct f; [intros -> |]; reflexivity. Qed.

Lemma parseInventory_falsy f :
  truthy f = false -> parseInventory nts f = Ok Num.zero.
Proof. unfold parseInventory. destruct f; [intros -> |]; reflexivity. Qed.

Lemma parseBoolean_falsy f : truthy f = false -> parseBoolean nts f = Ok false.
Proof. unfold parseBoolean. destruct f; [intros -> |]; reflexivity. Qed.

Lemma parseFeaturedImage_falsy f :
  truthy f = false -> parseFeaturedImage f = Ok (JStr EmptyString).
Proof. unfold parseFeaturedImage. destruct f; [intros -> |]; reflexivity. Qed.

Lemma String_or_falsy f d : truthy f = false -> String_or nts f d = d.
Proof. unfold String_or. destruct f; [intros -> |]; reflexivity. Qed.

(** *** The body of [transformRow] never throws *)

Lemma transformRow_try_guard row config :
  truthy (row !! "ID") = false \/ truthy (row !! "TITLE") = false ->
  transformRow_try nts row config = Ok None.
Proof.
  unfold transformRow_try. intros [-> | ->]; simpl; [reflexivity |].
  rewrite orb_true_r. reflexivity.
Qed.

Lemma transformRow_try_accepts row config :
  truthy (row !! "ID") = true -> truthy (row !! "TITLE") = true ->
  exists priceRange images tags totalInventory outOfStock giftCard featured,
    parsePriceRange nts (row !! "PRICE_RANGE_V2" ||| row !! "PRICE_RANGE")
      = Ok priceRange /\
    parseImages (row !! "IMAGES" ||| row !! "IMAGE" ||| row !! "FEATURED_IMAGE")
                (maxImages config) = Ok images /\
    parseTags (row !! "TAGS") = Ok tags /\
    parseInventory nts (row !! "TOTAL_INVENTORY") = Ok totalInventory /\
    parseBoolean nts (row !! "HAS_OUT_OF_STOCK_VARIANTS") = Ok outOfStock /\
    parseBoolean nts (row !! "IS_GIFT_CARD") = Ok giftCard /\
    parseFeaturedImage (row !! "FEATURED_IMAGE") = Ok featured /\
    transformRow_try nts row config =
      Ok (Some
        {| id := String_or nts (row !! "ID") EmptyString;
           title := String_or nts (row !! "TITLE") EmptyString;
           vendor := String_or nts (row !! "VENDOR") EmptyString;
           productType := String_or nts (row !! "PRODUCT_TYPE") EmptyString;
           description :=
             substring0 (maxDescriptionLength config)
                        (extractDescription nts row);
           handle := Some (String_or nts (row !! "HANDLE") EmptyString);
           status := String_or nts (row !! "STATUS") "active";
           priceRange := priceRange;
           images := images;
           tags := tags;
           createdAt := String_or nts (row !! "CREATED_AT") EmptyString;
           updatedAt := String_or nts (row !! "UPDATED_AT") EmptyString;
           publishedAt := String_or nts (row !! "PUBLISHED_AT") EmptyString;
           totalInventory := Some totalInventory;
           hasOutOfStockVariants := Some outOfStock;
           isGiftCard := Some giftCard;
           featuredImage := Some featured;
           price := None |}).
Proof.
  intros Hid Htitle. unfold transformRow_try. rewrite Hid, Htitle. simpl.
  destruct (parsePriceRange_total
              (row !! "PRICE_RANGE_V2" ||| row !! "PRICE_RANGE")) as [pr Hpr].
  destruct (parseImages_total
              (row !! "IMAGES" ||| row !! "IMAGE" ||| row !! "FEATURED_IMAGE")
              (maxImages config)) as [im Him].
  destruct (parseTags_total (row !! "TAGS")) as [tg Htg].
  destruct (parseInventory_total (row !! "TOTAL_INVENTORY")) as [inv Hinv].
  destruct (parseBoolean_total (row !! "HAS_OUT_OF_STOCK_VARIANTS"))
    as [oos Hoos].
  destruct (parseBoolean_total (row !! "IS_GIFT_CARD")) as [gc Hgc].
  destruct (parseFeaturedImage_total (row !! "FEATURED_IMAGE")) as [fi Hfi].
  exists pr, im, tg, inv, oos, gc, fi.
  unfold mbind, res_bind.
  rewrite Hpr, Him, Htg, Hinv, Hoos, Hgc, Hfi. simpl. repeat split.
Qed.

Lemma extractDescription_falsy row :
  truthy (row !! "DESCRIPTION") = false ->
  truthy (row !! "BODY_HTML") = false ->
  truthy (row !! "DESCRIPTION_HTML") = false ->
  extractDescription nts row = EmptyString.
Proof.
  intros H1 H2 H3. unfold extractDescription.
  rewrite String_or_falsy by (repeat apply or_else_falsy; assumption).
  reflexivity.
Qed.

Lemma substring0_empty n : substring0 n EmptyString = EmptyString.
Proof. unfold substring0. destruct (Z.to_nat n); reflexivity. Qed.

Lemma parseInventory_unparsable c :
  parseInt (toString nts c) = None ->
  parseInventory nts (Some c) = Ok Num.zero.
Proof.
  intros H. unfold parseInventory. rewrite H.
  destruct (negb (truthy (Some c))); reflexivity.
Qed.

Lemma parsePriceRange_unparsable s :
  not_json s -> match_numeric s = [] ->
  parsePriceRange nts (Some (CStr s)) = Ok defaultRange.
Proof.
  unfold not_json. intros Hj Hm. unfold parsePriceRange.
  destruct (negb (truthy (Some (CStr s)))); [reflexivity |].
  unfold mbind, res_bind, JSON_parse. rewrite Hj. simpl.
  unfold price_of_text. rewrite Hm. reflexivity.
Qed.

Lemma parseImages_unparsable s n :
  not_json s -> startsWith "http" s = false ->
  parseImages (Some (CStr s)) n = Ok [].
Proof.
  unfold not_json. intros Hj Hh. unfold parseImages.
  destruct (negb (truthy (Some (CStr s)))); [reflexivity |].
  unfold mbind, res_bind, JSON_parse. rewrite Hj. simpl.
  rewrite Hh. reflexivity.
Qed.

Lemma parseFeaturedImage_unparsable s :
  not_json s -> startsWith "http" s = false ->
  parseFeaturedImage (Some (CStr s)) = Ok (JStr EmptyString).
Proof.
  unfold not_json. intros Hj Hh. unfold parseFeaturedImage.
  destruct (negb (truthy (Some (CStr s)))); [reflexivity |].
  unfold mbind, res_bind, JSON_parse. rewrite Hj. simpl.
  rewrite Hh. reflexivity.
Qed.

Lemma parseBoolean_not_a_yes c :
  not_a_yes nts c -> parseBoolean nts (Some c) = Ok false.
Proof.
  intros (H1 & H2 & H3). unfold parseBoolean.
  destruct (negb (truthy (Some c))); [reflexivity |].
  cbv zeta.
  apply String.eqb_neq in H1, H2, H3. rewrite H1, H2, H3. reflexivity.
Qed.

(** C1, as amended.  [transformRow] rejects a row exactly when its [ID] or
    its [TITLE] is falsy: missing, the empty string, or the number 0 (a
    cell the reader has cast to zero counts as absent).  Every other row
    yields a record, whatever its optional fields hold: no optional field
    can reject or abort the row, the identifier and title are the cells'
    strings, and an optional field that is missing or empty, or whose
    text none of its parser's formats reads, takes its default value. *)
Theorem transformRow_rejects_iff_falsy row config :
  (transformRow nts row config = None <->
   falsy (row !! "ID") \/ falsy (row !! "TITLE")) /\
  (missing_or_empty (row !! "ID") \/ missing_or_empty (row !! "TITLE") ->
   transformRow nts row config = None) /\
  (forall cid ctitle,
     row !! "ID" = Some cid -> row !! "TITLE" = Some ctitle ->
     ~ falsy (row !! "ID") -> ~ falsy (row !! "TITLE") ->
     exists p, transformRow nts row config = Some p /\
               id p = toString nts cid /\ title p = toString nts ctitle /\
               defaults_applied nts row p).
Proof.
  assert (Hrej : falsy (row !! "ID") \/ falsy (row !! "TITLE") ->
                 transformRow nts row config = None).
  { intros H. unfold transformRow.
    rewrite transformRow_try_guard; [reflexivity |].
    destruct H as [H | H]; apply falsy_iff in H; auto. }
  assert (Hacc : ~ falsy (row !! "ID") -> ~ falsy (row !! "TITLE") ->
                 exists p, transformRow nts row config = Some p /\
                   id p = String_or nts (row !! "ID") EmptyString /\
                   title p = String_or nts (row !! "TITLE") EmptyString /\
                   defaults_applied nts row p).
  { intros Hid Htitle.
    assert (Hid' : truthy (row !! "ID") = true).
    { destruct (truthy (row !! "ID")) eqn:E; [reflexivity |].
      exfalso. apply Hid, falsy_iff, E. }
    assert (Htitle' : truthy (row !! "TITLE") = true).
    { destruct (truthy (row !! "TITLE")) eqn:E; [reflexivity |].
      exfalso. apply Htitle, falsy_iff, E. }
    destruct (transformRow_try_accepts row config Hid' Htitle')
      as (pr & im & tg & inv & oos & gc & fi
          & Hpr & Him & Htg & Hinv & Hoos & Hgc & Hfi & Htry).
    eexists. unfold transformRow. rewrite Htry.
    split; [reflexivity |]. split; [reflexivity |]. split; [reflexivity |].
    unfold defaults_applied;
    cbn [vendor productType handle status description priceRange images
         tags totalInventory hasOutOfStockVariants isGiftCard featuredImage
         createdAt updatedAt publishedAt].
    repeat match goal with |- _ /\ _ => split end;
      repeat match goal with
             | |- falsy _ -> _ => let H := fresh in intros H; apply falsy_iff in H
             end;
      try (apply String_or_falsy; assumption);
      try (f_equal; apply String_or_falsy; assumption).
    - rewrite extractDescription_falsy by assumption. apply substring0_empty.
    - rewrite parsePriceRange_falsy in Hpr
        by (apply or_else_falsy; assumption). congruence.
    - rewrite parseImages_falsy in Him
        by (repeat apply or_else_falsy; assumption). congruence.
    - rewrite parseTags_falsy in Htg by assumption. congruence.
    - rewrite parseInventory_falsy in Hinv by assumption. congruence.
    - intros c Hc Hint. rewrite Hc, parseInventory_unparsable in Hinv
        by assumption. congruence.
    - rewrite parseBoolean_falsy in Hoos by assumption. congruence.
    - rewrite parseBoolean_falsy in Hgc by assumption. congruence.
    - rewrite parseFeaturedImage_falsy in Hfi by assumption. congruence.
    - intros s Hs Hj Hm. rewrite Hs, parsePriceRange_unparsable in Hpr
        by assumption. congruence.
    - intros s Hs Hj Hh. rewrite Hs, parseImages_unparsable in Him
        by assumption. congruence.
    - intros s Hs Hj Hh. rewrite Hs, parseFeaturedImage_unparsable in Hfi
        by assumption. congruence.
    - intros c Hc Hn. rewrite Hc, parseBoolean_not_a_yes in Hoos
        by assumption. congruence.
    - intros c Hc Hn. rewrite Hc, parseBoolean_not_a_yes in Hgc
        by assumption. congruence. }
  split; [| split].
  - split; [| exact Hrej].
    intros Hnone.
    destruct (truthy (row !! "ID")) eqn:Eid;
      [| left; apply falsy_iff, Eid].
    destruct (truthy (row !! "TITLE")) eqn:Etitle;
      [| right; apply falsy_iff, Etitle].
    destruct Hacc as (p & Hp & _).
    + intros H. apply falsy_iff in H. congruence.
    + intros H. apply falsy_iff in H. congruence.
    + congruence.
  - intros [H | H]; apply Hrej; [left | right]; left; exact H.
  - intros cid ctitle Hcid Hctitle Hid Htitle.
    destruct (Hacc Hid Htitle) as (p & Hp & Hpid & Hptitle & Hdef).
    exists p. split; [exact Hp |]. split; [| split; [| exact Hdef]].
    + rewrite Hpid, Hcid. unfold String_or.
      destruct (truthy (Some cid)) eqn:E; [reflexivity |].
      exfalso. apply Hid. rewrite Hcid. apply falsy_iff, E.
    + rewrite Hptitle, Hctitle. unfold String_or.
      destruct (truthy (Some ctitle)) eqn:E; [reflexivity |].
      exfalso. apply Htitle. rewrite Hctitle. apply falsy_iff, E.
Qed.

End Facts.

(** C1, as stated, fails: a row whose identifier is the number 0 is
    rejected although its identifier and title are neither missing nor
    empty. *)
Lemma transformRow_rejects_zero_id :
  let row := Fixtures.row_of [("ID", CNum 0); ("TITLE", CStr "Widget")] in
  ~ (transformRow Fixtures.show_Q row DEFAULT_CONFIG = None <->
     missing_or_empty (row !! "ID") \/ missing_or_empty (row !! "TITLE")).
Proof.
  intros row [Hto _].
  destruct (Hto ltac:(vm_compute; reflexivity)) as [[H | H] | [H | H]];
    vm_compute in H; discriminate.
Qed.

Lemma transformRow_rejects_iff_falsy_witness :
  transformRow Fixtures.show_Q (Fixtures.row_of [("TITLE", CStr "Widget")])
               DEFAULT_CONFIG = None /\
  exists p, transformRow Fixtures.show_Q Fixtures.malformed_row DEFAULT_CONFIG
            = Some p /\
            id p = "123" /\ title p = "Test Product" /\
            defaults_applied Fixtures.show_Q Fixtures.malformed_row p.
Proof.
  split.
  - apply (transformRow_rejects_iff_falsy Fixtures.show_Q
             (Fixtures.row_of [("TITLE", CStr "Widget")]) DEFAULT_CONFIG).
    left. left. vm_compute. reflexivity.
  - destruct (transformRow_rejects_iff_falsy Fixtures.show_Q
                Fixtures.malformed_row DEFAULT_CONFIG) as (_ & _ & Hacc).
    apply (Hacc (CStr "123") (CStr "Test Product"));
      try (vm_compute; reflexivity);
      intros H; apply falsy_iff in H; vm_compute in H; discriminate.
Defined.

End TransformFacts.

(* ===================================================================== *)
(** ** Price ranges *)
(* ===================================================================== *)

Module PriceFacts.
Import Str Parse Js Types Transform TransformSpec.

Lemma span_fst_Forall p s : Forall (fun c => p c = true) (span p s).1.
Proof.
  induction s as [| c t IH]; simpl; [constructor |].
  destruct (p c) eqn:E; [| constructor].
  destruct (span p t) as [a b]. simpl in *. constructor; assumption.
Qed.

Lemma digit_val_nonneg c : is_digit c = true -> 0 <= digit_val c.
Proof.
  unfold is_digit, digit_val. intros H.
  apply andb_true_iff in H as [H _]. apply Nat.leb_le in H. lia.
Qed.

Lemma fold_digits_nonneg ds : forall acc,
  0 <= acc -> Forall (fun c => is_digit c = true) ds ->
  0 <= fold_left (fun a c => 10 * a + digit_val c) ds acc.
Proof.
  induction ds as [| c t IH]; simpl; intros acc Hacc Hall; [assumption |].
  inversion Hall; subst. apply IH; [| assumption].
  pose proof (digit_val_nonneg c ltac:(assumption)). lia.
Qed.

Lemma digits_val_nonneg ds :
  Forall (fun c => is_digit c = true) ds -> 0 <= digits_val ds.
Proof. intros H. apply fold_digits_nonneg; [lia | exact H]. Qed.

Lemma pow10_nonneg e : (0 <= pow10 e)%Q.
Proof.
  unfold pow10. destruct (0 <=? e) eqn:E.
  - apply Z.leb_le in E. unfold Qle, inject_Z. cbn [Qnum Qden].
    pose proof (Z.pow_nonneg 10 e ltac:(lia)). lia.
  - unfold Qle. cbn [Qnum Qden]. lia.
Qed.

Lemma unsigned_literal_nonneg s q :
  unsigned_literal s = Some q -> (0 <= q)%Q.
Proof.
  unfold unsigned_literal.
  pose proof (span_fst_Forall is_digit s) as Hip.
  destruct (span is_digit s) as [ip r1]. simpl in Hip.
  assert (Hfp : forall fp r2,
            match r1 with
            | "."%char :: r => span is_digit r
            | _ => ([], r1)
            end = (fp, r2) -> Forall (fun c => is_digit c = true) fp).
  { intros fp r2 H. destruct r1 as [| c r]; [inversion H; constructor |].
    destruct (Ascii.eqb_spec c "."%char) as [-> | Hne].
    - pose proof (span_fst_Forall is_digit r) as Hs. rewrite H in Hs. exact Hs.
    - assert (fp = []) as ->; [| constructor].
      destruct c as [[] [] [] [] [] [] [] []]; try congruence; inversion H;
        reflexivity. }
  destruct (match r1 with "."%char :: r => span is_digit r | _ => ([], r1) end)
    as [fp r2] eqn:E.
  specialize (Hfp fp r2 eq_refl).
  destruct (ip ++ fp)%list as [| d ds] eqn:Eds; [discriminate |].
  intros [= <-]. rewrite Qred_correct.
  apply Qmult_le_0_compat; [| apply pow10_nonneg].
  assert (0 <= digits_val (d :: ds)).
  { apply digits_val_nonneg. rewrite <- Eds. apply Forall_app.
    split; assumption. }
  unfold Qle, inject_Z. cbn [Qnum Qden]. lia.
Qed.

Lemma num_char_not_sign c :
  is_num_char c = true ->
  is_space c = false /\ c <> "-"%char /\ c <> "+"%char /\ c <> "I"%char.
Proof.
  destruct c as [[] [] [] [] [] [] [] []]; vm_compute;
    intros H; try discriminate H; repeat split; congruence.
Qed.

(** A run of digits and dots reads as a number that is not negative, or
    as [NaN]. *)
Lemma parseFloat_token_nonneg tok :
  Forall (fun c => is_num_char c = true) (of_string tok) ->
  nonneg_or_nan (parseFloat tok).
Proof.
  intros Hall. unfold parseFloat.
  destruct (of_string tok) as [| c t] eqn:E.
  - reflexivity.
  - inversion Hall as [| ? ? Hc _]; subst.
    destruct (num_char_not_sign c Hc) as (Hsp & Hm & Hp & HI).
    simpl drop_space. rewrite Hsp.
    assert (Hsign : take_sign (c :: t) = (false, c :: t)).
    { unfold take_sign.
      destruct c as [[] [] [] [] [] [] [] []]; try reflexivity; congruence. }
    rewrite Hsign.
    assert (Hinf : String.prefix "Infinity" (to_string (c :: t)) = false).
    { destruct c as [[] [] [] [] [] [] [] []]; try reflexivity; congruence. }
    rewrite Hinf.
    destruct (unsigned_literal (c :: t)) as [q |] eqn:Eq; simpl; [| exact I].
    eapply unsigned_literal_nonneg, Eq.
Qed.

Lemma of_to_string l : of_string (to_string l) = l.
Proof. apply list_ascii_of_string_of_list_ascii. Qed.

Lemma runs_Forall s : forall cur tok,
  Forall (fun c => is_num_char c = true) cur ->
  In tok (runs cur s) ->
  Forall (fun c => is_num_char c = true) (of_string tok).
Proof.
  induction s as [| c t IH]; intros cur tok Hcur Hin; simpl in Hin.
  - destruct cur as [| c0 cur']; [destruct Hin |].
    destruct Hin as [<- | []]. rewrite of_to_string.
    apply Forall_rev. exact Hcur.
  - destruct (is_num_char c) eqn:Ec.
    + apply (IH (c :: cur)); [constructor; assumption | exact Hin].
    + apply in_app_or in Hin as [Hin | Hin].
      * destruct cur as [| c0 cur']; [destruct Hin |].
        destruct Hin as [<- | []]. rewrite of_to_string.
        apply Forall_rev. exact Hcur.
      * apply (IH [] tok); [constructor | exact Hin].
Qed.

Lemma match_numeric_nonneg s tok :
  In tok (match_numeric s) -> nonneg_or_nan (parseFloat tok).
Proof.
  intros Hin. apply parseFloat_token_nonneg.
  eapply runs_Forall; [| exact Hin]. constructor.
Qed.

Lemma range_ok_default : range_ok defaultRange.
Proof. repeat split. Qed.

Section Facts.
Variable nts : Q -> string.

(** The [catch] block alone decides the result when [JSON.parse] throws. *)
Lemma parsePriceRange_free_text s :
  s <> EmptyString -> Json.parse s = None ->
  parsePriceRange nts (Some (CStr s))
  = Ok (default defaultRange (price_of_text s)).
Proof.
  intros Hne Hparse. unfold parsePriceRange. simpl.
  destruct (String.eqb_spec s EmptyString) as [-> | _]; [congruence |].
  simpl. rewrite Hparse. reflexivity.
Qed.

(** The object shapes decide the result when [JSON.parse] succeeds. *)
Lemma parsePriceRange_parsed s j :
  Json.parse s = Some j ->
  parsePriceRange nts (Some (CStr s))
  = match price_of_parsed j with
    | Ok r => Ok (default defaultRange r)
    | Throw _ => Ok (default defaultRange (price_of_text s))
    end.
Proof.
  intros Hparse. unfold parsePriceRange. simpl.
  destruct (String.eqb_spec s EmptyString) as [-> | _]; [discriminate |].
  simpl. rewrite Hparse. simpl. destruct (price_of_parsed j); reflexivity.
Qed.

(** Format (a): nested [min_variant_price] / [max_variant_price] amounts. *)
Lemma parsePriceRange_shopify s fs lo_obj hi_obj lo hi :
  Json.parse s = Some (JObj fs) ->
  Json.field "min_variant_price" fs = Some (JObj lo_obj) ->
  Json.field "max_variant_price" fs = Some (JObj hi_obj) ->
  Json.field "amount" lo_obj = Some (JNum lo) ->
  Json.field "amount" hi_obj = Some (JNum hi) ->
  parsePriceRange nts (Some (CStr s))
  = Ok {| min := Num.or_else lo Num.zero; max := Num.or_else hi Num.zero |}.
Proof.
  intros Hparse Hlo Hhi Hla Hha.
  rewrite (parsePriceRange_parsed _ _ Hparse).
  unfold price_of_parsed. simpl. rewrite Hlo, Hhi. simpl.
  rewrite Hla, Hha. simpl. reflexivity.
Qed.

(** Format (b): direct [min] / [max] numbers, when format (a) does not
    apply. *)
Lemma parsePriceRange_simple s fs lo hi :
  Json.parse s = Some (JObj fs) ->
  Js.truthy (Json.field "min_variant_price" fs)
  && Js.truthy (Json.field "max_variant_price" fs) = false ->
  Json.field "min" fs = Some (JNum lo) ->
  Json.field "max" fs = Some (JNum hi) ->
  parsePriceRange nts (Some (CStr s))
  = Ok {| min := Num.or_else lo Num.zero; max := Num.or_else hi Num.zero |}.
Proof.
  intros Hparse Hnot Hlo Hhi.
  rewrite (parsePriceRange_parsed _ _ Hparse).
  unfold price_of_parsed. simpl. rewrite Hnot, Hlo, Hhi. simpl. reflexivity.
Qed.

Lemma ge_zero_of_nonneg n :
  nonneg_or_nan n -> n <> NaN -> Num.ge n Num.zero = true.
Proof.
  destruct n as [| [] | q]; simpl; intros H Hn; try congruence; try reflexivity.
  unfold Num.ge. simpl. destruct (q ?= 0)%Q eqn:E; try reflexivity.
  apply Qlt_alt in E. exfalso. apply (Qlt_not_le _ _ E H).
Qed.

Lemma le_refl_num n : n <> NaN -> Num.le n n = true.
Proof.
  destruct n as [| [] | q]; intros Hn; try congruence; try reflexivity.
  unfold Num.le. simpl.
  assert ((q ?= q)%Q = Eq) as -> by (apply Qeq_alt; reflexivity).
  reflexivity.
Qed.

(** C5, as amended.  [parsePriceRange] always returns a range and never
    throws.  The range is [{0,0}], which satisfies the invariant, when the
    field is missing or empty or holds free text without a numeric token.
    Values read from free text are never negative (each is at least 0, or
    [NaN]); a single numeric token gives [min = max], and the invariant
    holds when that token is a number.  Beyond that the parser neither
    orders nor clamps: two tokens are returned in the order found, and the
    numbers of a structured object are returned as they are, so the
    invariant holds of the result only when it holds of the field. *)
Theorem parsePriceRange_range f :
  exists r, parsePriceRange nts f = Ok r /\
    (falsy f -> r = defaultRange /\ range_ok r) /\
    (forall s, f = Some (CStr s) -> s <> EmptyString -> Json.parse s = None ->
       nonneg_or_nan (min r) /\ nonneg_or_nan (max r) /\
       (match_numeric s = [] -> r = defaultRange /\ range_ok r) /\
       (forall tok, match_numeric s = [tok] ->
          min r = max r /\ (parseFloat tok <> NaN -> range_ok r)) /\
       (forall t0 t1 rest, match_numeric s = t0 :: t1 :: rest ->
          r = {| min := parseFloat t0; max := parseFloat t1 |})) /\
    (forall s fs lo hi, f = Some (CStr s) ->
       Json.parse s = Some (JObj fs) ->
       Js.truthy (Json.field "min_variant_price" fs)
       && Js.truthy (Json.field "max_variant_price" fs) = false ->
       Json.field "min" fs = Some (JNum lo) ->
       Json.field "max" fs = Some (JNum hi) ->
       r = {| min := Num.or_else lo Num.zero;
              max := Num.or_else hi Num.zero |}).
Proof.
  destruct (TransformFacts.parsePriceRange_total nts f) as [r Hr].
  exists r. split; [exact Hr |]. split; [| split].
  - intros Hf. apply TransformFacts.falsy_iff in Hf.
    rewrite (TransformFacts.parsePriceRange_falsy nts f Hf) in Hr.
    injection Hr as <-. split; [reflexivity | apply range_ok_default].
  - intros s -> Hne Hparse.
    rewrite (parsePriceRange_free_text s Hne Hparse) in Hr.
    injection Hr as <-. unfold price_of_text.
    destruct (match_numeric s) as [| t0 [| t1 rest]] eqn:E; simpl.
    + repeat split; try (unfold Qle; simpl; lia); try discriminate.
    + pose proof (match_numeric_nonneg s t0) as H0.
      rewrite E in H0. specialize (H0 (or_introl eq_refl)).
      repeat split; try assumption; try discriminate.
      all: injection H as <-; simpl.
      * apply ge_zero_of_nonneg; assumption.
      * apply ge_zero_of_nonneg; assumption.
      * apply le_refl_num; assumption.
    + pose proof (match_numeric_nonneg s t0) as H0.
      pose proof (match_numeric_nonneg s t1) as H1.
      rewrite E in H0, H1.
      specialize (H0 (or_introl eq_refl)).
      specialize (H1 (or_intror (or_introl eq_refl))).
      repeat split; try assumption; try discriminate.
      intros ? ? ? [= <- <- <-]. reflexivity.
  - intros s fs lo hi -> Hparse Hnot Hlo Hhi.
    rewrite (parsePriceRange_simple s fs lo hi Hparse Hnot Hlo Hhi) in Hr.
    injection Hr as <-. reflexivity.
Qed.

(** C4: a field that holds one bare number, as text or as a number cell,
    is valid JSON, so the [catch] block that extracts numeric tokens never
    runs and the result is the default [{0,0}], although the text holds
    exactly one numeric token. *)
Theorem parsePriceRange_bare_number :
  match_numeric "19.99" = ["19.99"] /\
  parsePriceRange nts (Some (CStr "19.99")) = Ok defaultRange /\
  parsePriceRange nts (Some (CNum (1999 # 100))) = Ok defaultRange.
Proof. repeat split. Qed.

End Facts.

(** C5, as stated, fails: two numeric tokens in descending order give a
    range whose minimum exceeds its maximum. *)
Lemma parsePriceRange_unordered :
  parsePriceRange Fixtures.show_Q (Some (CStr "20 10"))
  = Ok {| min := Fin 20; max := Fin 10 |} /\
  ~ range_ok {| min := Fin 20; max := Fin 10 |}.
Proof.
  split; [vm_compute; reflexivity |].
  intros (_ & _ & H). vm_compute in H. discriminate.
Qed.

Lemma parsePriceRange_range_witness :
  (exists r, parsePriceRange Fixtures.show_Q None = Ok r /\ range_ok r) /\
  (exists r, parsePriceRange Fixtures.show_Q (Some (CStr "$19.99")) = Ok r /\
             min r = max r /\ range_ok r) /\
  (exists r, parsePriceRange Fixtures.show_Q
               (Some (CStr (Json.js "{'min': 10.50, 'max': 20.50}"))) = Ok r /\
             r = {| min := Fin (21 # 2); max := Fin (41 # 2) |}).
Proof.
  split; [| split].
  - destruct (parsePriceRange_range Fixtures.show_Q None)
      as (r & Hr & Hdef & _).
    exists r. split; [exact Hr |].
    apply Hdef. left. left. reflexivity.
  - destruct (parsePriceRange_range Fixtures.show_Q (Some (CStr "$19.99")))
      as (r & Hr & _ & Htext & _).
    exists r. split; [exact Hr |].
    destruct (Htext "$19.99" eq_refl ltac:(discriminate) eq_refl)
      as (_ & _ & _ & Hone & _).
    destruct (Hone "19.99" eq_refl) as [Heq Hok].
    split; [exact Heq | apply Hok; vm_compute; discriminate].
  - destruct (parsePriceRange_range Fixtures.show_Q
                (Some (CStr (Json.js "{'min': 10.50, 'max': 20.50}"))))
      as (r & Hr & _ & _ & Hobj).
    exists r. split; [exact Hr |].
    apply (Hobj _ [("min", JNum (Fin (21 # 2))); ("max", JNum (Fin (41 # 2)))]
                (Fin (21 # 2)) (Fin (41 # 2)) eq_refl);
      vm_compute; reflexivity.
Defined.

End PriceFacts.

(* ===================================================================== *)
(** ** Persistence: failure handling of [saveSearchIndex] *)
(* ===================================================================== *)

Module PersistFacts.
Import Js Fs Persist PersistSpec IoFacts.

Lemma paths_distinct :
  indexPath <> backupPath /\ indexPath <> tempPath /\
  indexPath <> oldBackupPath /\ backupPath <> tempPath /\
  backupPath <> oldBackupPath /\ tempPath <> oldBackupPath.
Proof. repeat split; discriminate. Qed.

Ltac paths :=
  destruct paths_distinct as (Hib & Hit & Hio & Hbt & Hbo & Hto).

Ltac ne := unfold indexPath, backupPath, tempPath, oldBackupPath; discriminate.

(** Step 1. *)
Lemma backup_step now F σ :
  backup_passes F σ ->
  step_backup now F σ = (after_backup now σ, Ok tt).
Proof.
  intros Hpass. unfold step_backup. io_unfold. unfold after_backup, copyFile.
  rewrite bool_decide_is_Some.
  destruct (σ !! indexPath) as [f |] eqn:E; [| reflexivity].
  rewrite E. destruct Hpass as [H0 | ->]; [congruence | reflexivity].
Qed.

(** The [catch] block, when the cleanup of the temporary file does not
    itself fail. *)
Lemma recover_spec now F e σ :
  cleanup_unlink F = false ->
  save_recover now F e σ
  = (restore now (restore_copy F) (delete tempPath σ), Throw e).
Proof.
  intros Hclean. paths.
  unfold save_recover, restore. io_unfold. unfold unlink, copyFile.
  rewrite ?lookup_delete_ne by done.
  destruct (σ !! tempPath) as [t |] eqn:Et;
    destruct (σ !! backupPath) as [b |] eqn:Eb;
    destruct (σ !! indexPath) as [i |] eqn:Ei;
    repeat (progress
              (cbn beta iota;
               rewrite ?bool_decide_is_Some, ?Hclean, ?Et, ?Eb, ?Ei;
               rewrite ?lookup_delete_ne by done; simpl));
    rewrite ?(delete_id σ tempPath Et); try reflexivity;
    destruct (restore_copy F); reflexivity.
Qed.

(** Steps 2 to 4 when one of them fails: the error is that of the first
    failing call, and only the temporary file may have changed. *)
Lemma replace_fails content now F e σ :
  replace_error content F = Some e ->
  exists σ', step_replace content now F σ = (σ', Throw e) /\
             delete tempPath σ' = delete tempPath σ.
Proof.
  unfold replace_error, step_replace. io_unfold.
  unfold writeFile, readFile, rename.
  destruct (temp_write F) as [| r]; simpl.
  - rewrite lookup_insert_eq.
    destruct (temp_read F); simpl.
    + intros [= <-]. eexists. split; [reflexivity |].
      apply delete_insert_eq.
    + destruct (validate content) as [[] | e'] eqn:Ev; simpl.
      * rewrite lookup_insert_eq.
        destruct (temp_rename F); [| discriminate].
        intros [= <-]. eexists. split; [reflexivity |].
        apply delete_insert_eq.
      * intros [= <-]. eexists. split; [reflexivity |].
        apply delete_insert_eq.
  - intros [= <-]. eexists. split; [reflexivity |].
    destruct r; simpl; [apply delete_insert_eq | reflexivity].
Qed.

(** Steps 2 to 4 when none fails: the index is the new content and the
    temporary file is gone. *)
Lemma replace_succeeds content now F σ :
  replace_error content F = None ->
  step_replace content now F σ
  = (<[indexPath := {| content := content; mtime := now |}]>
       (delete tempPath σ), Ok tt).
Proof.
  unfold replace_error, step_replace. io_unfold.
  unfold writeFile, readFile, rename.
  destruct (temp_write F) as [| r]; simpl; [| discriminate].
  rewrite lookup_insert_eq.
  destruct (temp_read F); simpl; [discriminate |].
  destruct (validate content) as [[] | e'] eqn:Ev; simpl; [| discriminate].
  rewrite lookup_insert_eq.
  destruct (temp_rename F); [discriminate |].
  intros _. rewrite delete_insert_eq. reflexivity.
Qed.

(** Step 5 touches neither the index nor the temporary file. *)
Lemma rotate_keeps F σ σ' r :
  step_rotate F σ = (σ', r) ->
  σ' !! indexPath = σ !! indexPath /\ σ' !! tempPath = σ !! tempPath.
Proof.
  paths. unfold step_rotate. io_unfold. unfold unlink, rename, statSync.
  rewrite !bool_decide_is_Some.
  destruct (σ !! backupPath) as [b |] eqn:Eb;
    destruct (σ !! oldBackupPath) as [o |] eqn:Eo;
    destruct (old_unlink F), (backup_rename F);
    repeat (progress
              (cbn beta iota;
               rewrite ?bool_decide_is_Some, ?Eb, ?Eo;
               rewrite ?lookup_delete_ne, ?lookup_insert_ne by done; simpl));
    try (intros [= <- <-]; split; reflexivity);
    destruct (σ !! indexPath) as [i |] eqn:Ei;
    try destruct (index_stat F);
    intros [= <- <-];
    rewrite ?lookup_insert_ne, ?lookup_delete_ne by done; auto.
Qed.

Lemma restore_lookup_ne now w σ p :
  p <> indexPath -> restore now w σ !! p = σ !! p.
Proof.
  intros Hp. unfold restore.
  destruct (σ !! backupPath), (σ !! indexPath); try reflexivity.
  destruct w as [| [junk |]]; simpl; rewrite ?lookup_insert_ne by done;
    reflexivity.
Qed.

Lemma restore_index now w σ :
  restore now w σ !! indexPath =
  match σ !! indexPath, σ !! backupPath, w with
  | Some f, _, _ => Some f
  | None, Some b, WOk => Some {| content := content b; mtime := now |}
  | None, Some b, WFail (Some junk) =>
      Some {| content := junk; mtime := now |}
  | None, _, _ => None
  end.
Proof.
  unfold restore.
  destruct (σ !! backupPath) as [b |], (σ !! indexPath) as [f |] eqn:Ei;
    rewrite ?Ei; destruct w as [| [junk |]]; simpl;
    rewrite ?lookup_insert_eq, ?Ei; reflexivity.
Qed.

Lemma after_backup_lookup_ne now σ p :
  p <> backupPath -> after_backup now σ !! p = σ !! p.
Proof.
  intros Hp. unfold after_backup.
  destruct (σ !! indexPath); [rewrite lookup_insert_ne by done |]; reflexivity.
Qed.

Lemma after_backup_backup now σ :
  after_backup now σ !! backupPath =
  match σ !! indexPath with
  | Some f => Some {| content := content f; mtime := now |}
  | None => σ !! backupPath
  end.
Proof.
  unfold after_backup.
  destruct (σ !! indexPath); [rewrite lookup_insert_eq |]; reflexivity.
Qed.

(** What step 3 accepts. *)
Lemma validate_iff text :
  validate text = Ok tt <->
  exists fs items, Json.parse text = Some (JObj fs) /\
                   Json.field "products" fs = Some (JArr items).
Proof.
  unfold validate. split.
  - destruct (Json.parse text) as [j |]; [| discriminate].
    destruct j as [| b | n | s | items | fs]; simpl; try discriminate.
    destruct (Json.field "products" fs) as [[| b | n | s | items | fs'] |]
      eqn:Ef; simpl; try discriminate;
      try (destruct (negb _); discriminate).
    intros _. exists fs, items. split; [reflexivity | exact Ef].
  - intros (fs & items & -> & Hf). simpl. rewrite Hf. reflexivity.
Qed.

(** The whole run when one of steps 2 to 4 fails. *)
Lemma save_fails content now F e σ :
  mkdir_fails F = false -> backup_passes F σ ->
  replace_error content F = Some e -> cleanup_unlink F = false ->
  saveSearchIndex false content now F σ
  = (restore now (restore_copy F) (delete tempPath (after_backup now σ)),
     Throw e).
Proof.
  intros Hmk Hpass Herr Hclean.
  unfold saveSearchIndex, save_steps, mkdir. rewrite Hmk.
  destruct (replace_fails content now F e (after_backup now σ) Herr)
    as (σ2 & Hrep & Hdel).
  unfold mbind, io_bind_inst, io_bind, io_try. simpl.
  rewrite (backup_step now F σ Hpass). rewrite Hrep.
  rewrite (recover_spec now F e σ2 Hclean). rewrite Hdel. reflexivity.
Qed.

(** The whole run when steps 2 to 4 succeed: whatever step 5 does, the
    index holds the new content. *)
Lemma save_replaced content now F σ σ' out :
  mkdir_fails F = false -> backup_passes F σ ->
  replace_error content F = None ->
  saveSearchIndex false content now F σ = (σ', out) ->
  holds σ' indexPath content /\ σ' !! tempPath = None.
Proof.
  intros Hmk Hpass Herr. paths.
  unfold saveSearchIndex, save_steps, mkdir. rewrite Hmk.
  unfold mbind, io_bind_inst, io_bind, io_try. simpl.
  rewrite (backup_step now F σ Hpass).
  rewrite (replace_succeeds content now F _ Herr).
  destruct (step_rotate F _) as [σ4 [size | e]] eqn:Erot;
    apply rotate_keeps in Erot as [Hi Ht];
    rewrite lookup_insert_eq in Hi;
    rewrite lookup_insert_ne, lookup_delete_eq in Ht by done.
  - intros [= <- <-]. unfold holds. rewrite Hi. split; [reflexivity | exact Ht].
  - unfold save_recover. io_unfold. rewrite Ht.
    rewrite bool_decide_is_Some. unfold io_ret. cbn beta iota.
    rewrite !bool_decide_is_Some, Hi.
    destruct (σ4 !! backupPath); simpl;
      intros [= <- <-]; unfold holds; rewrite Hi; split; auto.
Qed.

(** C2, as amended.  Step 3 accepts the temporary file when it parses as
    an object whose [products] member is an array; the array may be empty
    and the metadata is not looked at.  When writing, reading back,
    validating or renaming the temporary file fails, the error of that
    call is raised to the caller and, unless removing the temporary file
    fails in turn, the temporary file is gone, the canonical file is the
    file it was before the run, the backup is as step 1 left it (a copy of
    the canonical file, or untouched when there was none) and the older
    backup is untouched; when there was no canonical file but a backup,
    the canonical file is restored from the backup if that copy succeeds.
    Once the rename has succeeded the canonical file holds the new
    content, also when the rotation of the backups fails afterwards. *)
Theorem saveSearchIndex_failure content now F σ :
  mkdir_fails F = false -> backup_passes F σ ->
  (forall text,
     validate text = Ok tt <->
     exists fs items, Json.parse text = Some (JObj fs) /\
                      Json.field "products" fs = Some (JArr items)) /\
  (forall e σ' out,
     replace_error content F = Some e -> cleanup_unlink F = false ->
     saveSearchIndex false content now F σ = (σ', out) ->
     out = Throw e /\
     σ' !! tempPath = None /\
     σ' !! oldBackupPath = σ !! oldBackupPath /\
     (forall f, σ !! indexPath = Some f ->
        σ' !! indexPath = Some f /\ holds σ' backupPath (Fs.content f)) /\
     (σ !! indexPath = None ->
        σ' !! backupPath = σ !! backupPath /\
        (σ !! backupPath = None -> σ' !! indexPath = None) /\
        (forall b, σ !! backupPath = Some b -> restore_copy F = WOk ->
           holds σ' indexPath (Fs.content b)))) /\
  (forall σ' out,
     replace_error content F = None ->
     saveSearchIndex false content now F σ = (σ', out) ->
     holds σ' indexPath content /\ σ' !! tempPath = None).
Proof.
  intros Hmk Hpass. split; [exact validate_iff |]. split.
  - intros e σ' out Herr Hclean Hrun. paths.
    rewrite (save_fails content now F e σ Hmk Hpass Herr Hclean) in Hrun.
    injection Hrun as <- <-.
    unfold holds.
    rewrite (restore_lookup_ne _ _ _ tempPath),
            (restore_lookup_ne _ _ _ backupPath),
            (restore_lookup_ne _ _ _ oldBackupPath), restore_index by ne.
    rewrite lookup_delete_eq, !lookup_delete_ne by ne.
    rewrite after_backup_backup,
            (after_backup_lookup_ne _ _ indexPath),
            (after_backup_lookup_ne _ _ oldBackupPath) by ne.
    split; [reflexivity |]. split; [reflexivity |]. split; [reflexivity |].
    split.
    + intros f ->. split; reflexivity.
    + intros ->. split; [reflexivity |]. split.
      * intros ->. reflexivity.
      * intros b -> ->. reflexivity.
  - intros σ' out Herr Hrun.
    exact (save_replaced content now F σ σ' out Hmk Hpass Herr Hrun).
Qed.

(** C2, as stated, fails twice.  Step 3 accepts an index whose
    [products] array is empty and which has no metadata; and a failure
    after the temporary file was written, here in the rotation of the
    backups, is raised to the caller with the canonical file already
    replaced by the new content. *)
Lemma saveSearchIndex_fails_after_replace :
  let run := saveSearchIndex false Fixtures.empty_index 2
               Fixtures.unlink_old_fails Fixtures.disk in
  validate Fixtures.empty_index = Ok tt /\
  run.2 = Throw (IOError "unlink") /\
  holds Fixtures.disk indexPath "old index" /\
  holds run.1 indexPath Fixtures.empty_index /\
  Fixtures.empty_index <> "old index".
Proof.
  repeat split; try (vm_compute; reflexivity). discriminate.
Qed.

Lemma saveSearchIndex_failure_witness :
  (forall σ' out,
     saveSearchIndex false Fixtures.empty_index 2 Fixtures.rename_fails
                     Fixtures.disk = (σ', out) ->
     out = Throw (IOError "rename") /\ σ' !! tempPath = None /\
     holds σ' indexPath "old index" /\ holds σ' backupPath "old index") /\
  (forall σ' out,
     saveSearchIndex false Fixtures.empty_index 2 no_faults
                     Fixtures.disk = (σ', out) ->
     holds σ' indexPath Fixtures.empty_index).
Proof.
  split.
  - intros σ' out Hrun.
    destruct (saveSearchIndex_failure Fixtures.empty_index 2
                Fixtures.rename_fails Fixtures.disk eq_refl
                (or_intror eq_refl)) as (_ & Hfail & _).
    destruct (Hfail (IOError "rename") σ' out
                ltac:(vm_compute; reflexivity) eq_refl Hrun)
      as (Hout & Htemp & _ & Hindex & _).
    destruct (Hindex {| content := "old index"; mtime := 1 |}
                ltac:(vm_compute; reflexivity)) as [Hi Hb].
    repeat split; try assumption.
    unfold holds. rewrite Hi. reflexivity.
  - intros σ' out Hrun.
    destruct (saveSearchIndex_failure Fixtures.empty_index 2
                no_faults Fixtures.disk eq_refl
                (or_intror eq_refl)) as (_ & _ & Hok).
    apply (Hok σ' out ltac:(vm_compute; reflexivity) Hrun).
Defined.

End PersistFacts.

(* ===================================================================== *)
(** ** The staleness resolver *)
(* ===================================================================== *)

Module StartupFacts.
Import Js Fs Startup StartupSpec IoFacts.

(** Loading reads only. *)
Lemma loadIndex_spec this F σ :
  loadIndex this F σ = (σ, load_result this F σ).
Proof.
  unfold loadIndex, load_result. io_unfold. unfold readFile.
  destruct (σ !! indexPath this) as [idx |]; [| reflexivity].
  destruct (index_read F); [reflexivity |].
  destruct (Json.parse (content idx)); reflexivity.
Qed.

(** The staleness check reads only, and answers as the table says. *)
Lemma shouldRegenerateIndex_spec this now F σ :
  shouldRegenerateIndex this now F σ
  = (σ, Ok match table this false false now F σ with
           | Rebuild => true
           | _ => false
           end).
Proof.
  unfold shouldRegenerateIndex, stale_checks, table, age_limit_ms.
  io_unfold. unfold statSync.
  destruct (σ !! csvPath this) as [csv |] eqn:Ecsv;
    destruct (σ !! indexPath this) as [idx |] eqn:Eidx;
    repeat (progress (cbn beta iota;
                      rewrite ?bool_decide_is_Some, ?Ecsv, ?Eidx;
                      cbn [negb]));
    try reflexivity.
  destruct (csv_stat F); [reflexivity |].
  cbn beta iota. rewrite ?Eidx.
  destruct (index_stat F); [reflexivity |].
  cbn -[Z.mul Z.ltb Z.sub].
  destruct (mtime idx <? mtime csv); [reflexivity |].
  destruct (_ <? now - mtime idx); [reflexivity |].
  destruct (_ <? 1000); reflexivity.
Qed.

Section WithIndexBuild.
Variable processCSV : string -> io unit.

(** C3, as amended.  The resolver follows this table, first true wins:
    read-only mode: never rebuild, load the index or fail with the
    `index not found' error; force: rebuild; source file missing: do not
    rebuild, load the existing index; index file missing: rebuild; a
    failing [stat]: rebuild; index older than the source: rebuild; index
    older than [maxAgeHours]: rebuild; index smaller than 1000 bytes:
    rebuild; otherwise load the existing index.  Loading never writes; an
    index that does not parse as an array or as an object with a
    [products] array makes loading throw, it is not a reason to rebuild. *)
Theorem ensureSearchIndex_table this readOnlyMode force now F σ :
  ensureSearchIndex processCSV this readOnlyMode force now F σ
  = match table this readOnlyMode force now F σ with
    | LoadOnly =>
        (σ, match load_result this F σ with
            | Ok items => Ok items
            | Throw _ => Throw not_found
            end)
    | Rebuild =>
        match processCSV (csvPath this) σ with
        | (σ', Ok _) => (σ', load_result this F σ')
        | (σ', Throw e) => (σ', Throw e)
        end
    | LoadExisting => (σ, load_result this F σ)
    end.
Proof.
  unfold ensureSearchIndex, generateIndex.
  destruct readOnlyMode.
  - unfold table. unfold io_try. rewrite loadIndex_spec.
    destruct (load_result this F σ); reflexivity.
  - destruct force.
    + unfold table. io_unfold.
      destruct (processCSV (csvPath this) σ) as [σ' [[] | e]];
        [apply loadIndex_spec | reflexivity].
    + unfold mbind at 1. unfold io_bind_inst, io_bind.
      rewrite shouldRegenerateIndex_spec.
      destruct (table this false false now F σ) eqn:Et; io_unfold.
      * exfalso. unfold table in Et. repeat case_match; discriminate.
      * destruct (processCSV (csvPath this) σ) as [σ' [[] | e]];
          [apply loadIndex_spec | reflexivity].
      * apply loadIndex_spec.
Qed.

End WithIndexBuild.

(** C3, as stated, fails on two rows of its table.  With neither source
    nor index the stated table rebuilds, the code does not and loading
    fails; with an index that is recent and large enough but not JSON the
    stated table rebuilds, the code loads it and the parse error is
    raised.  In both runs the index build is not invoked. *)
Lemma ensureSearchIndex_not_stated_table :
  let empty_run :=
    ensureSearchIndex Fixtures.sample_build Fixtures.default_startup
                      false false 30 no_faults ∅ in
  let garbage_run :=
    ensureSearchIndex Fixtures.sample_build Fixtures.default_startup
                      false false 30 no_faults Fixtures.disk_with_garbage in
  table_as_stated Fixtures.default_startup false false 30 ∅ = Rebuild /\
  empty_run.2 = Throw (IOError "readFile") /\
  empty_run.1 !! "data/search-index.json" = None /\
  table_as_stated Fixtures.default_startup false false 30
                  Fixtures.disk_with_garbage = Rebuild /\
  garbage_run.2 = Throw SyntaxError /\
  Fs.content <$> garbage_run.1 !! "data/search-index.json"
  = Some Fixtures.garbage.
Proof. repeat split; vm_compute; reflexivity. Qed.

End StartupFacts.

(* ===================================================================== *)
(** ** The query engine: filters *)
(* ===================================================================== *)

Module TextFacts.
Import Str SearchSpec.

Local Arguments String.append : simpl nomatch.

Lemma of_string_app a b :
  of_string (a +:+ b) = (of_string a ++ of_string b)%list.
Proof. induction a as [| c a IH]; simpl; [reflexivity | f_equal; exact IH]. Qed.

Lemma of_string_inj a b : of_string a = of_string b -> a = b.
Proof.
  intros H. apply (f_equal to_string) in H. unfold to_string, of_string in H.
  rewrite !string_of_list_ascii_of_string in H. exact H.
Qed.

Lemma append_nil_r a : a +:+ EmptyString = a.
Proof. induction a as [| c a IH]; simpl; [reflexivity | f_equal; exact IH]. Qed.

(** [startsWith]: the string begins with the prefix. *)
Lemma prefix_spec p : forall s,
  String.prefix p s = true <-> exists rest, s = p +:+ rest.
Proof.
  induction p as [| c p IH]; intros s.
  - split; [intros _; exists s; reflexivity | intros _; destruct s; reflexivity].
  - destruct s as [| d s]; cbn [String.prefix].
    + split; [discriminate | intros [rest H]; discriminate].
    + destruct (Ascii.ascii_dec c d) as [-> | Hne].
      * rewrite IH. split; intros [rest H]; exists rest.
        -- simpl. f_equal. exact H.
        -- simpl in H. injection H as H. exact H.
      * split; [discriminate |]. intros [rest H]. simpl in H.
        injection H as H _. congruence.
Qed.

(** [includes]: the needle occurs somewhere in the string. *)
Lemma includes_spec needle : forall hay,
  includes needle hay = true <-> occurs_in needle hay.
Proof.
  unfold occurs_in.
  induction hay as [| c t IH]; cbn [includes].
  - rewrite orb_false_r, prefix_spec. split.
    + intros [rest H]. exists EmptyString, rest. exact H.
    + intros ([| x before] & after & H); [eauto | discriminate].
  - rewrite orb_true_iff, prefix_spec, IH. split.
    + intros [[rest H] | (before & after & H)].
      * exists EmptyString, rest. exact H.
      * exists (String c before), after. simpl. f_equal. exact H.
    + intros ([| x before] & after & H).
      * left. exists after. exact H.
      * right. simpl in H. injection H as _ H. eauto.
Qed.

(** *** The case mapping of the ASCII range *)

Lemma toLowerCase_chars s :
  of_string (toLowerCase s) = lower_char <$> of_string s.
Proof. induction s as [| c s IH]; simpl; [reflexivity | f_equal; exact IH]. Qed.

Lemma toLowerCase_app a b :
  toLowerCase (a +:+ b) = toLowerCase a +:+ toLowerCase b.
Proof. induction a as [| c a IH]; simpl; [reflexivity | f_equal; exact IH]. Qed.

Lemma lower_char_code c :
  nat_of_ascii (lower_char c)
  = if (65 <=? nat_of_ascii c)%nat && (nat_of_ascii c <=? 90)%nat
    then (nat_of_ascii c + 32)%nat else nat_of_ascii c.
Proof.
  unfold lower_char.
  destruct ((65 <=? nat_of_ascii c)%nat && (nat_of_ascii c <=? 90)%nat) eqn:E;
    [| reflexivity].
  apply andb_true_iff in E as [_ E]. apply Nat.leb_le in E.
  apply nat_ascii_embedding. lia.
Qed.

Lemma code_inj c d : nat_of_ascii c = nat_of_ascii d -> c = d.
Proof.
  intros H. rewrite <- (ascii_nat_embedding c), <- (ascii_nat_embedding d).
  rewrite H. reflexivity.
Qed.

(** Two characters have the same lower case exactly when they are the
    same letter. *)
Lemma lower_char_same c d : lower_char c = lower_char d <-> same_letter c d.
Proof.
  unfold same_letter. split.
  - intros H. apply (f_equal nat_of_ascii) in H.
    rewrite !lower_char_code in H.
    destruct (Nat.leb_spec 65 (nat_of_ascii c)),
             (Nat.leb_spec (nat_of_ascii c) 90),
             (Nat.leb_spec 65 (nat_of_ascii d)),
             (Nat.leb_spec (nat_of_ascii d) 90);
      cbn [andb] in H;
      first [ left; apply code_inj; lia
            | right; exists (nat_of_ascii c - 65)%nat; lia
            | right; exists (nat_of_ascii d - 65)%nat; lia ].
  - intros [-> | (k & Hk & [[Hc Hd] | [Hc Hd]])]; [reflexivity | |];
      apply code_inj; rewrite !lower_char_code, Hc, Hd;
      destruct (Nat.leb_spec 65 (65 + k)), (Nat.leb_spec (65 + k) 90),
               (Nat.leb_spec 65 (97 + k)), (Nat.leb_spec (97 + k) 90);
      cbn [andb]; lia.
Qed.

Lemma lower_chars_same w n :
  lower_char <$> w = lower_char <$> n <-> Forall2 same_letter w n.
Proof.
  revert n. induction w as [| c w IH]; intros [| d n]; simpl.
  - split; [constructor | reflexivity].
  - split; [discriminate | intros H; inversion H].
  - split; [discriminate | intros H; inversion H].
  - split.
    + intros [= Hc Ht]. constructor; [apply lower_char_same, Hc | apply IH, Ht].
    + intros H. inversion H as [| ? ? ? ? Hc Ht]; subst.
      f_equal; [apply lower_char_same, Hc | apply IH, Ht].
Qed.

(** On ASCII text, a case mapping that folds the ASCII range makes
    [includes] find exactly the stretches that are the needle up to the
    case of the letters. *)
Lemma occurs_lower_ascii lower needle text :
  folds_ascii lower -> ascii_text needle -> ascii_text text ->
  occurs_in (lower needle) (lower text) <-> occurs_ignoring_case needle text.
Proof.
  intros Hf Hn Ht. rewrite (Hf _ Hn), (Hf _ Ht).
  unfold occurs_in, occurs_ignoring_case, same_ignoring_case. split.
  - intros (before & after & H).
    apply (f_equal of_string) in H.
    rewrite !of_string_app, !toLowerCase_chars in H.
    apply fmap_app_inv in H as (t1 & rest & _ & Hrest & Htext).
    symmetry in Hrest.
    apply fmap_app_inv in Hrest as (w & t2 & Hw & _ & Hsplit).
    exists (to_string t1), (to_string w), (to_string t2). split.
    + apply of_string_inj. unfold to_string, of_string in *.
      rewrite !of_string_app. unfold of_string.
      rewrite !list_ascii_of_string_of_list_ascii, Htext, Hsplit.
      reflexivity.
    + unfold to_string, of_string in *.
      rewrite list_ascii_of_string_of_list_ascii.
      apply lower_chars_same. symmetry. exact Hw.
  - intros (before & w & after & -> & Hw).
    apply lower_chars_same in Hw.
    exists (toLowerCase before), (toLowerCase after).
    rewrite !toLowerCase_app. do 2 f_equal.
    apply of_string_inj. rewrite !toLowerCase_chars. exact Hw.
Qed.

End TextFacts.

Module FilterFacts.
Import Str Types SearchEngine SearchSpec.

Lemma includes_empty s : includes EmptyString s = true.
Proof. destruct s; reflexivity. Qed.

Lemma filter_filter {A} (p q : A -> bool) l :
  List.filter q (List.filter p l) = List.filter (fun x => p x && q x) l.
Proof.
  induction l as [| x t IH]; simpl; [reflexivity |].
  destruct (p x); simpl; [| exact IH].
  destruct (q x); simpl; rewrite IH; reflexivity.
Qed.

Lemma filter_true {A} (l : list A) : List.filter (fun _ => true) l = l.
Proof. induction l; simpl; congruence. Qed.

(** The price a minimum filter and a maximum filter look at. *)
Lemma price_for_filter b p :
  Num.or_else (num_or (price p) (bound_of b p)) Num.zero
  = effective_price b p.
Proof.
  unfold effective_price, single_price, num_or, known, Num.or_else.
  destruct (price p) as [n |]; [| reflexivity].
  destruct (Num.truthy n) eqn:E; [rewrite E |]; reflexivity.
Qed.

Lemma minPrice_matches_spec lo p :
  minPrice_matches lo p = Num.ge (effective_price RangeMax p) lo.
Proof. unfold minPrice_matches. rewrite <- price_for_filter. reflexivity. Qed.

Lemma maxPrice_matches_spec hi p :
  maxPrice_matches hi p = Num.le (effective_price RangeMin p) hi.
Proof. unfold maxPrice_matches. rewrite <- price_for_filter. reflexivity. Qed.

Lemma inStock_matches_spec p : inStock_matches p = in_stock p.
Proof.
  unfold inStock_matches, in_stock, num_or, not_flag, Num.or_else.
  assert (Hflag : match hasOutOfStockVariants p with
                  | Some b => negb b
                  | None => true
                  end
                  = match hasOutOfStockVariants p with
                    | Some true => false
                    | _ => true
                    end)
    by (destruct (hasOutOfStockVariants p) as [[] |]; reflexivity).
  rewrite Hflag. destruct (totalInventory p) as [n |]; [| reflexivity].
  f_equal. destruct (Num.truthy n) eqn:E; [reflexivity |].
  destruct n as [| s | q]; simpl in *; try discriminate; try reflexivity.
  apply negb_false_iff, Z.eqb_eq in E. unfold Num.gt. simpl.
  unfold Qcompare. simpl. rewrite E. reflexivity.
Qed.

Lemma filter_ext_bool {A} (p q : A -> bool) l :
  (forall x, p x = q x) -> List.filter p l = List.filter q l.
Proof.
  intros H. induction l as [| x t IH]; simpl; [reflexivity |].
  rewrite H, IH. reflexivity.
Qed.

Lemma filter_all {A} (p : A -> bool) l :
  (forall x, p x = true) -> List.filter p l = l.
Proof.
  intros H. erewrite filter_ext_bool; [apply filter_true | exact H].
Qed.

Section WithCaseMapping.
Variable lower : string -> string.

(** The successive filters amount to one filter by the conjunction. *)
Lemma applyFilters_keeps ps f :
  applyFilters lower ps f = List.filter (keeps lower f) ps.
Proof.
  unfold applyFilters.
  assert (Hv : match f_vendor f with
               | Some v => if String.eqb v EmptyString then ps
                           else List.filter (vendor_matches lower v) ps
               | None => ps
               end = List.filter (vendor_test lower f) ps).
  { unfold vendor_test. destruct (f_vendor f) as [v |];
      [| symmetry; apply filter_true].
    destruct (String.eqb v EmptyString); [| reflexivity].
    symmetry. apply filter_all. reflexivity. }
  rewrite Hv. clear Hv.
  set (l1 := List.filter (vendor_test lower f) ps).
  assert (Ht : match f_productType f with
               | Some t => if String.eqb t EmptyString then l1
                           else List.filter (productType_matches lower t) l1
               | None => l1
               end = List.filter (productType_test lower f) l1).
  { unfold productType_test. destruct (f_productType f) as [t |];
      [| symmetry; apply filter_true].
    destruct (String.eqb t EmptyString); [| reflexivity].
    symmetry. apply filter_all. reflexivity. }
  rewrite Ht. clear Ht.
  set (l2 := List.filter (productType_test lower f) l1).
  assert (Hlo : match f_minPrice f with
                | Some lo => List.filter (minPrice_matches lo) l2
                | None => l2
                end = List.filter (minPrice_test f) l2).
  { unfold minPrice_test. destruct (f_minPrice f) as [lo |];
      [| symmetry; apply filter_true].
    apply filter_ext_bool, minPrice_matches_spec. }
  rewrite Hlo. clear Hlo.
  set (l3 := List.filter (minPrice_test f) l2).
  assert (Hhi : match f_maxPrice f with
                | Some hi => List.filter (maxPrice_matches hi) l3
                | None => l3
                end = List.filter (maxPrice_test f) l3).
  { unfold maxPrice_test. destruct (f_maxPrice f) as [hi |];
      [| symmetry; apply filter_true].
    apply filter_ext_bool, maxPrice_matches_spec. }
  rewrite Hhi. clear Hhi.
  set (l4 := List.filter (maxPrice_test f) l3).
  assert (Hs : match f_inStock f with
               | Some true => List.filter inStock_matches l4
               | _ => l4
               end = List.filter (inStock_test f) l4).
  { unfold inStock_test. destruct (f_inStock f) as [[] |];
      try (symmetry; apply filter_true).
    apply filter_ext_bool, inStock_matches_spec. }
  rewrite Hs. clear Hs.
  subst l4 l3 l2 l1. rewrite !filter_filter.
  apply filter_ext_bool. intros x. unfold keeps.
  rewrite !andb_assoc. reflexivity.
Qed.

(** The decision is that of the five filters as they are worded. *)
Lemma keeps_passes f p : keeps lower f p = true <-> passes lower f p.
Proof.
  unfold keeps, passes, vendor_test, productType_test, minPrice_test,
    maxPrice_test, inStock_test, vendor_ok, productType_ok, minPrice_ok,
    maxPrice_ok, inStock_ok.
  rewrite !andb_true_iff.
  assert (Htext : forall (o : option string) text,
            match o with
            | Some v => String.eqb v EmptyString || includes (lower v) text
            | None => true
            end = true
            <-> (forall v, o = Some v -> v <> EmptyString ->
                           occurs_in (lower v) text)).
  { intros [v |] text; [| split; [intros _ v; discriminate | reflexivity]].
    rewrite orb_true_iff, TextFacts.includes_spec. split.
    - intros [E | H] w [= <-] Hne; [| exact H].
      apply String.eqb_eq in E. contradiction.
    - intros H. destruct (String.eqb_spec v EmptyString) as [-> | Hne];
        [left; reflexivity | right; apply (H v eq_refl Hne)]. }
  assert (Hnum : forall (o : option number) (test : number -> bool),
            match o with Some b => test b | None => true end = true
            <-> (forall b, o = Some b -> test b = true)).
  { intros [b |] test; split; intros H; try reflexivity.
    - intros b' [= <-]. exact H.
    - apply H. reflexivity.
    - intros b; discriminate. }
  rewrite !Htext.
  rewrite (Hnum (f_minPrice f) (fun lo => Num.ge (effective_price RangeMax p) lo)).
  rewrite (Hnum (f_maxPrice f) (fun hi => Num.le (effective_price RangeMin p) hi)).
  assert (Hstock : match f_inStock f with
                   | Some true => in_stock p
                   | _ => true
                   end = true
                   <-> (f_inStock f = Some true -> in_stock p = true)).
  { destruct (f_inStock f) as [[] |]; split; intros H; auto; discriminate. }
  rewrite Hstock. tauto.
Qed.

(** Any decision of the five filters selects the same list. *)
Lemma applyFilters_by ps f (keep : Product -> bool) :
  (forall p, keep p = true <-> passes lower f p) ->
  applyFilters lower ps f = List.filter keep ps.
Proof.
  intros H. rewrite applyFilters_keeps. apply filter_ext_bool. intros p.
  apply eq_true_iff_eq. rewrite H. apply keeps_passes.
Qed.

End WithCaseMapping.

End FilterFacts.

(* ===================================================================== *)
(** ** The query engine: sorting *)
(* ===================================================================== *)

Module SortFacts.
Import ArraySort.

Section Generic.
Context {A : Type}.
Variable cmp : A -> A -> number.

Lemma insert_perm x l : Permutation (x :: l) (insert cmp x l).
Proof.
  induction l as [| y t IH]; simpl; [reflexivity |].
  destruct (after cmp x y); [| reflexivity].
  rewrite perm_swap. apply perm_skip, IH.
Qed.

Lemma sort_perm l : Permutation l (sort cmp l).
Proof.
  induction l as [| x t IH]; simpl; [reflexivity |].
  rewrite <- insert_perm. apply perm_skip, IH.
Qed.

Lemma sort_In x l : In x (sort cmp l) <-> In x l.
Proof.
  split; apply Permutation_in; [symmetry |]; apply sort_perm.
Qed.

Lemma sort_length l : List.length (sort cmp l) = List.length l.
Proof. symmetry. apply Permutation_length, sort_perm. Qed.

(** Stability: a class of elements none of which is put after another
    keeps its order. *)
Section Stable.
Variable P : A -> bool.
Hypothesis ties : forall x y, P x = true -> P y = true -> after cmp x y = false.

Lemma insert_filter_in x l :
  P x = true -> List.filter P (insert cmp x l) = x :: List.filter P l.
Proof.
  intros Hx. induction l as [| y t IH]; simpl; [rewrite Hx; reflexivity |].
  destruct (after cmp x y) eqn:E; simpl.
  - destruct (P y) eqn:Hy; [rewrite (ties x y Hx Hy) in E; discriminate |].
    exact IH.
  - rewrite Hx. reflexivity.
Qed.

Lemma insert_filter_out x l :
  P x = false -> List.filter P (insert cmp x l) = List.filter P l.
Proof.
  intros Hx. induction l as [| y t IH]; simpl; [rewrite Hx; reflexivity |].
  destruct (after cmp x y); simpl; [rewrite IH | rewrite Hx]; reflexivity.
Qed.

Lemma sort_stable l : List.filter P (sort cmp l) = List.filter P l.
Proof.
  induction l as [| x t IH]; simpl; [reflexivity |].
  destruct (P x) eqn:Hx.
  - rewrite insert_filter_in by exact Hx. rewrite IH. reflexivity.
  - rewrite insert_filter_out by exact Hx. exact IH.
Qed.

End Stable.

(** Order: when "not after" is a total preorder, no element of the
    result is after a later one. *)
Section Ordered.
Hypothesis asym : forall x y, after cmp x y = true -> after cmp y x = false.
Hypothesis trans : forall x y z,
  after cmp x y = false -> after cmp y z = false -> after cmp x z = false.

Lemma insert_sorted x l :
  StronglySorted (not_after cmp) l -> StronglySorted (not_after cmp) (insert cmp x l).
Proof.
  induction 1 as [| y t Hs IH Hall]; simpl.
  - constructor; constructor.
  - destruct (after cmp x y) eqn:E.
    + constructor; [exact IH |].
      apply Forall_forall. intros z Hz. apply list_elem_of_In in Hz.
      apply (Permutation_in _ (Permutation_sym (insert_perm x t))) in Hz.
      destruct Hz as [<- | Hz]; [apply asym, E |].
      rewrite Forall_forall in Hall. apply Hall, list_elem_of_In, Hz.
    + constructor; [constructor; assumption |].
      constructor; [exact E |].
      apply Forall_forall. intros z Hz.
      rewrite Forall_forall in Hall.
      apply (trans x y z E). apply Hall, Hz.
Qed.

Lemma sort_sorted l : StronglySorted (not_after cmp) (sort cmp l).
Proof.
  induction l as [| x t IH]; simpl; [constructor |].
  apply insert_sorted, IH.
Qed.

End Ordered.

End Generic.

(** Reading a strongly sorted list by positions. *)
Lemma StronglySorted_lookup {A} (R : A -> A -> Prop) l :
  StronglySorted R l ->
  forall i j x y, (i < j)%nat -> l !! i = Some x -> l !! j = Some y -> R x y.
Proof.
  induction 1 as [| a t Hs IH Hall]; intros i j x y Hij Hi Hj.
  - destruct i; discriminate.
  - destruct j as [| j]; [lia |]. simpl in Hj.
    destruct i as [| i]; simpl in Hi.
    + injection Hi as <-. rewrite Forall_forall in Hall.
      apply Hall. eapply list_elem_of_lookup_2, Hj.
    + apply (IH i j); [lia | assumption | assumption].
Qed.

End SortFacts.

Module PriceSortFacts.
Import Str Types SearchEngine SearchSpec ArraySort.

Lemma key_truthy b p : Num.truthy (key b p) = priced b p.
Proof.
  unfold key, priced, effective_price, single_price, num_or, known,
         Num.or_else.
  destruct (price p) as [n |]; [destruct (Num.truthy n) eqn:E |];
    simpl; rewrite ?E; try reflexivity;
    destruct (Num.truthy (bound_of b p)) eqn:E'; simpl; rewrite ?E';
    reflexivity.
Qed.

Lemma key_effective b p : priced b p = true -> key b p = effective_price b p.
Proof.
  rewrite <- key_truthy.
  unfold key, effective_price, single_price, num_or, known, Num.or_else.
  destruct (price p) as [n |].
  - destruct (Num.truthy n); [reflexivity |]. intros ->. reflexivity.
  - intros ->. reflexivity.
Qed.

Lemma by_price_keyed (desc : bool) (a b : number) :
  Num.gt (by_price a b (if desc then Num.sub b a else Num.sub a b)) Num.zero
  = keyed desc a b.
Proof.
  unfold by_price, keyed.
  destruct (Num.truthy a) eqn:Ea, (Num.truthy b) eqn:Eb; simpl;
    try reflexivity.
  pose proof (NumFacts.truthy_not_nan a Ea).
  pose proof (NumFacts.truthy_not_nan b Eb).
  destruct desc; apply NumFacts.gt_sub; assumption.
Qed.

Lemma after_asc x y :
  after cmp_price_asc x y = keyed false (key RangeMin x) (key RangeMin y).
Proof. apply (by_price_keyed false). Qed.

Lemma after_desc x y :
  after cmp_price_desc x y = keyed true (key RangeMax x) (key RangeMax y).
Proof. apply (by_price_keyed true). Qed.

Lemma keyed_asym (flip : bool) (a b : number) :
  keyed flip a b = true -> keyed flip b a = false.
Proof.
  unfold keyed.
  destruct (Num.truthy a) eqn:Ea, (Num.truthy b) eqn:Eb; simpl;
    try discriminate; try reflexivity.
  destruct flip; apply NumFacts.gt_asym.
Qed.

Lemma keyed_trans (flip : bool) (a b c : number) :
  keyed flip a b = false -> keyed flip b c = false -> keyed flip a c = false.
Proof.
  unfold keyed.
  destruct (Num.truthy a) eqn:Ea, (Num.truthy b) eqn:Eb,
           (Num.truthy c) eqn:Ec; simpl;
    try discriminate; try reflexivity.
  pose proof (NumFacts.truthy_not_nan a Ea).
  pose proof (NumFacts.truthy_not_nan b Eb).
  pose proof (NumFacts.truthy_not_nan c Ec).
  destruct flip; intros Hab Hbc.
  - apply (NumFacts.not_gt_trans c b a); assumption.
  - apply (NumFacts.not_gt_trans a b c); assumption.
Qed.

Lemma keyed_ties (flip : bool) (a b : number) :
  Num.truthy a = false -> Num.truthy b = false -> keyed flip a b = false.
Proof. unfold keyed. intros -> ->. reflexivity. Qed.

(** What "not after" says in terms of prices. *)
Lemma keyed_false_priced (flip : bool) (a b : number) :
  keyed flip a b = false -> Num.truthy b = true ->
  Num.truthy a = true /\
  (if flip then Num.ge a b else Num.le a b) = true.
Proof.
  unfold keyed. intros H Hb. rewrite Hb in H.
  destruct (Num.truthy a) eqn:Ea; [| discriminate]. split; [reflexivity |].
  pose proof (NumFacts.truthy_not_nan a Ea).
  pose proof (NumFacts.truthy_not_nan b Hb).
  simpl in H. destruct flip.
  - rewrite <- NumFacts.le_ge. apply NumFacts.not_gt_le; assumption.
  - apply NumFacts.not_gt_le; assumption.
Qed.

Lemma sorted_asc ps :
  ordered_by_price RangeMin (sort cmp_price_asc ps).
Proof.
  intros i j x y Hij Hi Hj Hy.
  assert (Hna : not_after cmp_price_asc x y).
  { eapply SortFacts.StronglySorted_lookup; [| exact Hij | exact Hi | exact Hj].
    apply SortFacts.sort_sorted.
    - intros a b. rewrite !after_asc. apply keyed_asym.
    - intros a b c. rewrite !after_asc. apply keyed_trans. }
  unfold not_after in Hna. rewrite after_asc in Hna.
  rewrite <- key_truthy in Hy.
  destruct (keyed_false_priced false _ _ Hna Hy) as [Hx Hle].
  rewrite key_truthy in Hx, Hy. split; [exact Hx |].
  rewrite <- !key_effective by assumption. exact Hle.
Qed.

Lemma sorted_desc ps :
  ordered_by_price RangeMax (sort cmp_price_desc ps).
Proof.
  intros i j x y Hij Hi Hj Hy.
  assert (Hna : not_after cmp_price_desc x y).
  { eapply SortFacts.StronglySorted_lookup; [| exact Hij | exact Hi | exact Hj].
    apply SortFacts.sort_sorted.
    - intros a b. rewrite !after_desc. apply keyed_asym.
    - intros a b c. rewrite !after_desc. apply keyed_trans. }
  unfold not_after in Hna. rewrite after_desc in Hna.
  rewrite <- key_truthy in Hy.
  destruct (keyed_false_priced true _ _ Hna Hy) as [Hx Hle].
  rewrite key_truthy in Hx, Hy. split; [exact Hx |].
  rewrite <- !key_effective by assumption. exact Hle.
Qed.

Lemma stable_asc ps :
  List.filter (unpriced RangeMin) (sort cmp_price_asc ps)
  = List.filter (unpriced RangeMin) ps.
Proof.
  apply SortFacts.sort_stable. intros x y Hx Hy.
  rewrite after_asc. unfold unpriced in *. rewrite <- key_truthy in Hx, Hy.
  apply keyed_ties; apply negb_true_iff; assumption.
Qed.

Lemma stable_desc ps :
  List.filter (unpriced RangeMax) (sort cmp_price_desc ps)
  = List.filter (unpriced RangeMax) ps.
Proof.
  apply SortFacts.sort_stable. intros x y Hx Hy.
  rewrite after_desc. unfold unpriced in *. rewrite <- key_truthy in Hx, Hy.
  apply keyed_ties; apply negb_true_iff; assumption.
Qed.

Lemma lacks_price_unpriced b p : lacks_price p -> priced b p = false.
Proof.
  intros (Hs & Hlo & Hhi). unfold priced, effective_price, known.
  rewrite Hs. destruct b; simpl; [rewrite Hlo | rewrite Hhi]; reflexivity.
Qed.

Section WithLibraries.
Variable localeCompare : string -> string -> number.
Variable Date_getTime : string -> number.

(** C7, as amended.  [price-asc] orders by effective minimum price
    ascending and [price-desc] by effective maximum price descending, the
    effective price being the single price, unless that is 0 or [NaN],
    which count as absent, and else the bound of the range for the
    direction.  Products without a price for the direction of the sort,
    among them every product lacking any price information, come after
    all products with a price for that direction, in both directions; and
    the products without a price for the direction keep the order they
    had before the sort. *)
Theorem applySorting_by_price ps :
  let asc := applySorting localeCompare Date_getTime ps "price-asc" in
  let desc := applySorting localeCompare Date_getTime ps "price-desc" in
  (Permutation ps asc /\ ordered_by_price RangeMin asc /\
   List.filter (unpriced RangeMin) asc = List.filter (unpriced RangeMin) ps) /\
  (Permutation ps desc /\ ordered_by_price RangeMax desc /\
   List.filter (unpriced RangeMax) desc = List.filter (unpriced RangeMax) ps) /\
  (forall p, lacks_price p ->
             unpriced RangeMin p = true /\ unpriced RangeMax p = true).
Proof.
  assert (Ha : applySorting localeCompare Date_getTime ps "price-asc"
               = sort cmp_price_asc ps) by reflexivity.
  assert (Hd : applySorting localeCompare Date_getTime ps "price-desc"
               = sort cmp_price_desc ps) by reflexivity.
  cbn zeta. rewrite Ha, Hd.
  split; [| split].
  - split; [apply SortFacts.sort_perm |].
    split; [apply sorted_asc | apply stable_asc].
  - split; [apply SortFacts.sort_perm |].
    split; [apply sorted_desc | apply stable_desc].
  - intros p Hp. unfold unpriced.
    rewrite !lacks_price_unpriced by assumption. split; reflexivity.
Qed.

End WithLibraries.

(** C7, as stated, fails: under [price-asc] a record lacking any price
    information stays in front of a record whose range is known at its
    upper end only, which has price information. *)
Lemma applySorting_unpriced_not_last :
  let ps := [Fixtures.unpriced_iphone; Fixtures.upper_end_only] in
  lacks_price Fixtures.unpriced_iphone /\
  has_price_information Fixtures.upper_end_only /\
  applySorting Fixtures.sample_localeCompare Fixtures.sample_getTime ps
               "price-asc" = ps /\
  ~ unpriced_last (applySorting Fixtures.sample_localeCompare
                                Fixtures.sample_getTime ps "price-asc").
Proof.
  cbv zeta.
  assert (Hlacks : lacks_price Fixtures.unpriced_iphone)
    by (repeat split; vm_compute; reflexivity).
  assert (Hhas : has_price_information Fixtures.upper_end_only)
    by (right; right; vm_compute; reflexivity).
  assert (Hout : applySorting Fixtures.sample_localeCompare
                   Fixtures.sample_getTime
                   [Fixtures.unpriced_iphone; Fixtures.upper_end_only]
                   "price-asc"
                 = [Fixtures.unpriced_iphone; Fixtures.upper_end_only])
    by (vm_compute; reflexivity).
  split; [exact Hlacks |]. split; [exact Hhas |]. split; [exact Hout |].
  rewrite Hout. intros H.
  destruct (H 0%nat 1%nat Fixtures.unpriced_iphone Fixtures.upper_end_only
              ltac:(lia) eq_refl eq_refl Hlacks) as (_ & _ & Hmax).
  vm_compute in Hmax. discriminate.
Qed.

Lemma applySorting_by_price_witness :
  let ps := [Fixtures.unpriced_iphone; Fixtures.galaxy; Fixtures.macbook;
             Fixtures.giftcard] in
  let asc := applySorting Fixtures.sample_localeCompare Fixtures.sample_getTime
               ps "price-asc" in
  unpriced RangeMin Fixtures.unpriced_iphone = true /\
  unpriced RangeMax Fixtures.unpriced_iphone = true /\
  ordered_by_price RangeMin asc /\
  List.filter (unpriced RangeMin) asc = [Fixtures.unpriced_iphone].
Proof.
  intros ps asc.
  destruct (applySorting_by_price Fixtures.sample_localeCompare
              Fixtures.sample_getTime ps)
    as ((_ & Hord & Hstable) & _ & Hlack).
  destruct (Hlack Fixtures.unpriced_iphone) as [Hlo Hhi].
  { repeat split; vm_compute; reflexivity. }
  split; [exact Hlo |]. split; [exact Hhi |]. split; [exact Hord |].
  unfold asc. rewrite Hstable. vm_compute. reflexivity.
Defined.

End PriceSortFacts.

(* ===================================================================== *)
(** ** The query engine: search, filters and pagination *)
(* ===================================================================== *)

Module SearchFacts.
Import Str Types SearchEngine SearchSpec.

(** A slice from a position that is not negative. *)
Lemma slice_from {A} (a c : Z) (l : list A) :
  0 <= a -> 0 <= c ->
  slice a (a + c) l = firstn (Z.to_nat c) (skipn (Z.to_nat a) l).
Proof.
  intros Ha Hc. unfold slice.
  destruct (a <? 0) eqn:E1; [apply Z.ltb_lt in E1; lia |].
  destruct (a + c <? 0) eqn:E2; [apply Z.ltb_lt in E2; lia |].
  set (len := Z.of_nat (List.length l)).
  destruct (Z.le_gt_cases len a) as [Hge | Hlt].
  - rewrite !drop_ge by (unfold len in *; lia). rewrite !take_nil. reflexivity.
  - rewrite (Z.min_l a len) by lia.
    destruct (Z.le_gt_cases (a + c) len) as [Hin | Hout].
    + rewrite (Z.min_l (a + c) len) by lia. f_equal. lia.
    + rewrite (Z.min_r (a + c) len) by lia.
      rewrite !take_ge; [reflexivity | |];
        rewrite length_drop; unfold len in *; lia.
Qed.

Lemma slice_beyond {A} (a c : Z) (l : list A) :
  0 <= a -> 0 <= c -> Z.of_nat (List.length l) <= a -> slice a (a + c) l = [].
Proof.
  intros Ha Hc Hlen. rewrite slice_from by assumption.
  rewrite drop_ge by lia. apply take_nil.
Qed.

(** [Math.ceil(n / limit)] for a positive limit. *)
Lemma ceil_div_spec n limit :
  0 < limit ->
  exists k, Num.ceil_div n limit = Num.of_Z k /\
            (k - 1) * limit < n <= k * limit.
Proof.
  intros Hl. unfold Num.ceil_div.
  destruct (limit =? 0) eqn:E; [apply Z.eqb_eq in E; lia |].
  exists (- (- n / limit)). split; [reflexivity |].
  pose proof (Z.mul_div_le (- n) limit Hl).
  pose proof (Z.mul_succ_div_gt (- n) limit Hl). nia.
Qed.

(** A slice between two positions counted from the end. *)
Lemma slice_from_end {A} (a b : Z) (l : list A) :
  a < 0 -> b < 0 ->
  let n := Z.of_nat (List.length l) in
  slice a b l
  = firstn (Z.to_nat (Z.max (n + b) 0 - Z.max (n + a) 0))
           (skipn (Z.to_nat (Z.max (n + a) 0)) l).
Proof.
  intros Ha Hb. cbv zeta. unfold slice.
  destruct (Z.ltb_spec a 0); [| lia]. destruct (Z.ltb_spec b 0); [| lia].
  reflexivity.
Qed.

Lemma slice_to_zero {A} (a : Z) (l : list A) : slice a 0 l = [].
Proof.
  unfold slice. change (0 <? 0) with false. cbv iota.
  rewrite (Z.min_l 0) by lia.
  replace (Z.to_nat _) with 0%nat; [reflexivity |].
  destruct (Z.ltb_spec a 0); lia.
Qed.

Lemma take_drop_nil {A} (c a : nat) (l : list A) :
  firstn c (skipn a l) = [] <-> c = 0%nat \/ (List.length l <= a)%nat.
Proof.
  split.
  - intros H. apply (f_equal (@List.length A)) in H.
    rewrite length_take, length_drop in H. simpl in H. lia.
  - intros [-> | H]; [reflexivity |].
    rewrite drop_ge by lia. apply take_nil.
Qed.

Section WithLibraries.
Variable lower : string -> string.
Variable fuse_search : list Product -> string -> list Product.
Variable localeCompare : string -> string -> number.
Variable Date_getTime : string -> number.

Lemma applySorting_perm ps sortBy :
  Permutation ps (applySorting localeCompare Date_getTime ps sortBy).
Proof.
  unfold applySorting.
  destruct (comparator localeCompare Date_getTime sortBy);
    [apply SortFacts.sort_perm | reflexivity].
Qed.

(** [search] is: candidates, filter, sort, slice. *)
Lemma search_unfold ps query f page limit sortBy t0 t1 :
  search lower fuse_search localeCompare Date_getTime ps query f page limit
         sortBy t0 t1
  = let all := applySorting localeCompare Date_getTime
                 (applyFilters lower (candidates fuse_search ps query) f)
                 sortBy in
    {| products := slice ((page - 1) * limit) ((page - 1) * limit + limit) all;
       total := Z.of_nat (List.length all);
       page := page; limit := limit;
       totalPages := Num.ceil_div (Z.of_nat (List.length all)) limit;
       processingTime := t1 - t0 |}.
Proof. reflexivity. Qed.

(** C6, as amended.  The filters of [search] are a strict conjunction of
    five independent optional tests.  [vendor] and [productType], when
    set to a text that is not empty, ask that the filter occurs in the
    attribute once both are in lower case; with the case mapping of the
    library this is, on ASCII text, that some stretch of the attribute is
    the filter up to the case of its letters.  [minPrice] keeps a product
    exactly when its effective price on the range maximum is at least the
    bound, [maxPrice] exactly when its effective price on the range
    minimum is at most the bound: the effective price is the single price
    unless that is 0 or [NaN], which count as absent, else the bound of
    the range, an unknown bound counting as 0.  [inStock = true] keeps
    exactly the products with a positive inventory and no variant out of
    stock, and [false] or absent tests nothing.  The filtered list keeps
    the candidates that pass, in their order, and [search] sorts and
    paginates exactly that list. *)
Theorem search_filters_conjunction ps query f page limit sortBy t0 t1 :
  (forall p, In p (applyFilters lower ps f) <-> In p ps /\ passes lower f p) /\
  (forall keep : Product -> bool,
     (forall p, keep p = true <-> passes lower f p) ->
     applyFilters lower ps f = List.filter keep ps) /\
  (forall p, keeps lower f p = true <-> passes lower f p) /\
  applyFilters lower ps f = List.filter (keeps lower f) ps /\
  (folds_ascii lower ->
   forall needle text, ascii_text needle -> ascii_text text ->
     (occurs_in (lower needle) (lower text)
      <-> occurs_ignoring_case needle text)) /\
  let r := search lower fuse_search localeCompare Date_getTime ps query f page
                  limit sortBy t0 t1 in
  let kept := applyFilters lower (candidates fuse_search ps query) f in
  total r = Z.of_nat (List.length kept) /\
  products r
  = slice ((page - 1) * limit) ((page - 1) * limit + limit)
          (applySorting localeCompare Date_getTime kept sortBy).
Proof.
  split.
  { intros p. rewrite FilterFacts.applyFilters_keeps, filter_In.
    rewrite FilterFacts.keeps_passes. reflexivity. }
  split; [intros keep; apply FilterFacts.applyFilters_by |].
  split; [intros p; apply FilterFacts.keeps_passes |].
  split; [apply FilterFacts.applyFilters_keeps |].
  split.
  { intros Hf needle text Hn Ht.
    apply TextFacts.occurs_lower_ascii; assumption. }
  cbn zeta. rewrite search_unfold. cbn zeta. simpl.
  split; [| reflexivity].
  f_equal. symmetry. apply Permutation_length, applySorting_perm.
Qed.

(** C8, as amended.  [search] paginates from offset [(page - 1) * limit]
    and reports [total], [page], [limit] and [totalPages], the last being
    [total / limit] rounded up.  For a limit of at least 1: a page from 1
    on holds the items from the offset, at most [limit] of them, and has
    some exactly up to the last page; a page beyond the last one, and
    page 0, have no items; a negative page is not refused but holds the
    items between two positions counted from the end of the list, which
    is empty only when these fall before its start.  A limit of 0 gives
    no items and no finite number of pages. *)
Theorem search_pagination ps query f page limit sortBy t0 t1 :
  let all := applySorting localeCompare Date_getTime
               (applyFilters lower (candidates fuse_search ps query) f)
               sortBy in
  let n := Z.of_nat (List.length all) in
  let r := search lower fuse_search localeCompare Date_getTime ps query f page
                  limit sortBy t0 t1 in
  total r = n /\ SearchEngine.page r = page /\ SearchEngine.limit r = limit /\
  totalPages r = Num.ceil_div n limit /\
  (1 <= limit ->
   (exists k, totalPages r = Num.of_Z k /\ (k - 1) * limit < n <= k * limit /\
              (k < page -> products r = []) /\
              (1 <= page <= k -> products r <> [])) /\
   (1 <= page ->
    products r
    = firstn (Z.to_nat limit) (skipn (Z.to_nat ((page - 1) * limit)) all)) /\
   (page = 0 -> products r = []) /\
   (page < 0 ->
    products r
    = firstn (Z.to_nat (Z.max (n + page * limit) 0
                        - Z.max (n + (page - 1) * limit) 0))
             (skipn (Z.to_nat (Z.max (n + (page - 1) * limit) 0)) all) /\
    (products r = [] <-> n + page * limit <= 0))) /\
  (limit = 0 ->
   products r = [] /\
   totalPages r = if n =? 0 then NaN else Inf false).
Proof.
  cbn zeta. rewrite search_unfold. cbn zeta. simpl.
  set (all := applySorting localeCompare Date_getTime
                (applyFilters lower (candidates fuse_search ps query) f)
                sortBy).
  split; [reflexivity |]. split; [reflexivity |]. split; [reflexivity |].
  split; [reflexivity |]. split.
  - intros Hl. split; [| split; [| split]].
    + destruct (ceil_div_spec (Z.of_nat (List.length all)) limit ltac:(lia))
        as (k & Hk & Hrange).
      exists k. split; [exact Hk |]. split; [exact Hrange |]. split.
      * intros Hlast. apply slice_beyond; [nia | lia | nia].
      * intros Hp. rewrite slice_from by nia.
        rewrite take_drop_nil. nia.
    + intros Hp. apply slice_from; [nia | lia].
    + intros ->. replace ((0 - 1) * limit + limit) with 0 by lia.
      apply slice_to_zero.
    + intros Hp.
      assert (E : slice ((page - 1) * limit) ((page - 1) * limit + limit) all
                  = firstn (Z.to_nat
                              (Z.max (Z.of_nat (List.length all) + page * limit) 0
                               - Z.max (Z.of_nat (List.length all)
                                        + (page - 1) * limit) 0))
                           (skipn (Z.to_nat
                                     (Z.max (Z.of_nat (List.length all)
                                             + (page - 1) * limit) 0)) all)).
      { rewrite slice_from_end by nia. cbv zeta.
        replace ((page - 1) * limit + limit) with (page * limit) by lia.
        reflexivity. }
      split; [exact E |]. rewrite E, take_drop_nil. nia.
  - intros ->. replace ((page - 1) * 0) with 0 by lia. split.
    + apply slice_to_zero.
    + unfold Num.ceil_div. simpl.
      destruct (Z.of_nat (List.length all) =? 0); [reflexivity |].
      destruct (Z.ltb_spec (Z.of_nat (List.length all)) 0); [lia | reflexivity].
Qed.

End WithLibraries.

Ltac ascii_text :=
  unfold ascii_text; simpl;
  repeat (constructor; [vm_compute; lia |]); constructor.

Lemma search_filters_conjunction_witness :
  occurs_ignoring_case "PHONE" "Smartphone".
Proof.
  destruct (search_filters_conjunction Fixtures.sample_toLowerCase
              Fixtures.sample_fuse Fixtures.sample_localeCompare
              Fixtures.sample_getTime Fixtures.mockProducts EmptyString
              no_filters 1 20 "relevance" 0 1)
    as (_ & _ & _ & _ & Hcase & _).
  apply Hcase.
  - intros s _. reflexivity.
  - ascii_text.
  - ascii_text.
  - apply TextFacts.includes_spec. vm_compute. reflexivity.
Defined.

(** C6, as stated, fails: a product with a single price of 0 beside a
    range from 5 to 10 passes a minimum price of 3, although the single
    price it has is below the bound. *)
Lemma search_filters_zero_price :
  let f := Fixtures.with_prices (Some 3) None in
  applyFilters Fixtures.sample_toLowerCase [Fixtures.zero_priced] f
  = [Fixtures.zero_priced] /\
  price Fixtures.zero_priced = Some Num.zero /\
  Num.ge (stated_effective_price RangeMax Fixtures.zero_priced) (Num.of_Z 3)
  = false.
Proof. repeat split; vm_compute; reflexivity. Qed.

Lemma search_pagination_witness :
  let r := search Fixtures.sample_toLowerCase Fixtures.sample_fuse
             Fixtures.sample_localeCompare
             Fixtures.sample_getTime Fixtures.mockProducts EmptyString
             no_filters 10 2 "relevance" 0 1 in
  total r = 4 /\ SearchEngine.page r = 10 /\ SearchEngine.limit r = 2 /\
  totalPages r = Num.of_Z 2 /\ products r = [].
Proof.
  cbn zeta.
  destruct (search_pagination Fixtures.sample_toLowerCase Fixtures.sample_fuse
              Fixtures.sample_localeCompare Fixtures.sample_getTime
              Fixtures.mockProducts EmptyString no_filters 10 2 "relevance"
              0 1)
    as (Ht & Hp & Hl & _ & Hpos & _).
  destruct (Hpos ltac:(lia)) as ((k & Hk & Hrange & Hlast & _) & _).
  assert (Hn : Z.of_nat (List.length
            (applySorting Fixtures.sample_localeCompare Fixtures.sample_getTime
               (applyFilters Fixtures.sample_toLowerCase
                  (candidates Fixtures.sample_fuse Fixtures.mockProducts
                     EmptyString) no_filters) "relevance")) = 4)
    by (vm_compute; reflexivity).
  rewrite Hn in Hrange.
  assert (k = 2) as -> by lia.
  split; [exact Ht |]. split; [exact Hp |]. split; [exact Hl |].
  split; [exact Hk | apply Hlast; lia].
Defined.

(** C8, as stated, fails: page -1 is out of range, and with a limit of 2
    it holds the first two of the four products. *)
Lemma search_page_minus_one :
  let r := Fixtures.run EmptyString no_filters (-1) 2 "relevance" in
  total r = 4 /\ totalPages r = Num.of_Z 2 /\ SearchEngine.page r = -1 /\
  Fixtures.ids r = ["1"; "2"] /\ products r <> [].
Proof.
  cbv zeta. split; [vm_compute; reflexivity |].
  split; [vm_compute; reflexivity |]. split; [reflexivity |].
  split; [vm_compute; reflexivity |].
  intros H. apply (f_equal (@List.length Product)) in H.
  vm_compute in H. discriminate.
Qed.

End SearchFacts.

(* ===================================================================== *)
(** ** The query engine over shared arrays: reads do not mutate *)
(* ===================================================================== *)

Module MutFacts.
Import Str Types SearchEngine SearchSpec MutSpec.
Import Mut.

Lemma alloc_fresh (h : store) :
  h !! fresh (dom h) = None.
Proof. apply not_elem_of_dom, is_fresh. Qed.

Lemma computes_ret r (h : store) xs :
  h !! r = Some xs -> computes (ret r) h xs.
Proof. intros H. exists r, h. repeat split; [reflexivity | exact H]. Qed.

Lemma computes_alloc xs (h : store) : computes (alloc xs) h xs.
Proof.
  exists (fresh (dom h)), (<[fresh (dom h) := xs]> h).
  split; [reflexivity |]. split.
  - apply insert_subseteq, alloc_fresh.
  - apply lookup_insert_eq.
Qed.

Lemma computes_bind m k (h : store) ys zs :
  computes m h ys ->
  (forall r' h', h ⊆ h' -> h' !! r' = Some ys -> computes (k r') h' zs) ->
  computes (bind m k) h zs.
Proof.
  intros (r1 & h1 & Hm & Hsub & Hr1) Hk.
  destruct (Hk r1 h1 Hsub Hr1) as (r2 & h2 & Hk' & Hsub' & Hr2).
  exists r2, h2. unfold bind. rewrite Hm.
  split; [exact Hk' |]. split; [| exact Hr2].
  etrans; eassumption.
Qed.

Lemma read_at r (h : store) xs : h !! r = Some xs -> read r h = (xs, h).
Proof. intros H. unfold read. rewrite H. reflexivity. Qed.

Lemma computes_read r k (h : store) xs ys :
  h !! r = Some xs -> computes (k xs) h ys -> computes (bind (read r) k) h ys.
Proof.
  intros H (r' & h' & Hk & Hsub & Hr'). exists r', h'.
  unfold bind. rewrite (read_at r h xs H). repeat split; assumption.
Qed.

Lemma computes_filter p r (h : store) xs :
  h !! r = Some xs -> computes (arr_filter p r) h (List.filter p xs).
Proof.
  intros H. apply (computes_read r _ h xs); [exact H | apply computes_alloc].
Qed.

Lemma computes_slice a b r (h : store) xs :
  h !! r = Some xs -> computes (arr_slice a b r) h (slice a b xs).
Proof.
  intros H. apply (computes_read r _ h xs); [exact H | apply computes_alloc].
Qed.

(** The copy is a fresh array, so sorting it in place disturbs nothing. *)
Lemma computes_copy_sort cmp r (h : store) xs :
  h !! r = Some xs ->
  computes (bind (arr_copy r) (arr_sort cmp)) h (ArraySort.sort cmp xs).
Proof.
  intros H.
  exists (fresh (dom h)), (<[fresh (dom h) := ArraySort.sort cmp xs]> h).
  split; [| split].
  - unfold arr_copy, arr_sort, bind. rewrite (read_at r h xs H).
    unfold alloc, read, write, ret, store in *.
    rewrite lookup_insert_eq. simpl.
    rewrite insert_insert_eq. reflexivity.
  - apply insert_subseteq, alloc_fresh.
  - apply lookup_insert_eq.
Qed.

Lemma computes_copy r (h : store) xs :
  h !! r = Some xs -> computes (bind (arr_copy r) ret) h xs.
Proof.
  intros H.
  destruct (computes_alloc xs h) as (r' & h' & Ha & Hsub & Hr').
  exists r', h'. split; [| split; assumption].
  unfold arr_copy, bind. rewrite (read_at r h xs H), Ha. reflexivity.
Qed.

Lemma computes_opt_step {X} (o : option X) skip p k r (h : store) xs zs :
  h !! r = Some xs ->
  (forall r' h', h' !! r' = Some (opt_step o skip p xs) ->
                 computes (k r') h' zs) ->
  computes (bind (match o with
                  | Some v => if skip v then ret r else arr_filter (p v) r
                  | None => ret r
                  end) k) h zs.
Proof.
  intros H Hk. eapply computes_bind with (ys := opt_step o skip p xs).
  - unfold opt_step. destruct o as [v |]; [destruct (skip v) |];
      [apply computes_ret | apply computes_filter | apply computes_ret];
      exact H.
  - intros r' h' _ Hr'. apply Hk, Hr'.
Qed.

Section WithLibraries.
Variable lower : string -> string.
Variable fuse_search : list Product -> string -> list Product.
Variable localeCompare : string -> string -> number.
Variable Date_getTime : string -> number.

Lemma applyFilters_computes r f (h : store) xs :
  h !! r = Some xs ->
  computes (Mut.applyFilters lower r f) h
           (SearchEngine.applyFilters lower xs f).
Proof.
  intros H. unfold Mut.applyFilters.
  eapply (computes_opt_step (f_vendor f)
            (fun v => String.eqb v EmptyString) (vendor_matches lower));
    [exact H |].
  intros r1 h1 H1.
  eapply (computes_opt_step (f_productType f)
            (fun t => String.eqb t EmptyString)
            (productType_matches lower));
    [exact H1 |].
  intros r2 h2 H2.
  eapply (computes_opt_step (f_minPrice f) (fun _ => false)
            minPrice_matches); [exact H2 |].
  intros r3 h3 H3.
  eapply (computes_opt_step (f_maxPrice f) (fun _ => false)
            maxPrice_matches); [exact H3 |].
  intros r4 h4 H4.
  unfold SearchEngine.applyFilters. cbn zeta.
  destruct (f_inStock f) as [[] |];
    [apply computes_filter | apply computes_ret | apply computes_ret];
    exact H4.
Qed.

Lemma applySorting_computes r sortBy (h : store) xs :
  h !! r = Some xs ->
  computes (Mut.applySorting localeCompare Date_getTime r sortBy) h
           (SearchEngine.applySorting localeCompare Date_getTime xs sortBy).
Proof.
  intros H. unfold Mut.applySorting, SearchEngine.applySorting.
  destruct (comparator localeCompare Date_getTime sortBy) as [cmp |].
  - apply computes_copy_sort, H.
  - apply computes_copy, H.
Qed.

(** One call: the engine's array and every other array are untouched,
    and the result is that of [search] on the value of the collection. *)
Lemma search_computes (this : engine) query f page limit sortBy t0 t1
    (h : store) ps :
  h !! this_products this = Some ps -> this_fuse this = ps ->
  exists r h',
    Mut.search lower fuse_search localeCompare Date_getTime this query f page limit
               sortBy t0 t1 h = (r, h') /\
    h ⊆ h' /\
    let pure := SearchEngine.search lower fuse_search localeCompare Date_getTime
                  ps query f page limit sortBy t0 t1 in
    items h' r = products pure /\ total r = total pure /\
    SearchEngine.page r = SearchEngine.page pure /\
    SearchEngine.limit r = SearchEngine.limit pure /\
    totalPages r = totalPages pure /\
    processingTime r = processingTime pure.
Proof.
  intros Hps Hfuse. unfold Mut.search.
  assert (Hcand : computes
            (if String.eqb (trim query) EmptyString
             then ret (this_products this)
             else alloc (fuse_search (this_fuse this) query))
            h (candidates fuse_search ps query)).
  { unfold candidates. destruct (String.eqb (trim query) EmptyString).
    - apply computes_ret, Hps.
    - rewrite Hfuse. apply computes_alloc. }
  destruct Hcand as (r1 & h1 & E1 & S1 & L1).
  destruct (applyFilters_computes r1 f h1 _ L1) as (r2 & h2 & E2 & S2 & L2).
  destruct (applySorting_computes r2 sortBy h2 _ L2)
    as (r3 & h3 & E3 & S3 & L3).
  destruct (computes_slice ((page - 1) * limit) ((page - 1) * limit + limit)
              r3 h3 _ L3) as (r4 & h4 & E4 & S4 & L4).
  eexists _, h4. unfold bind at 1. rewrite E1.
  unfold bind at 1. rewrite E2. unfold bind at 1. rewrite E3.
  unfold bind at 1. rewrite (read_at r3 h3 _ L3).
  unfold bind at 1. rewrite E4. split; [reflexivity |].
  split; [repeat (etrans; [eassumption |]); reflexivity |].
  cbn zeta. unfold items. simpl. rewrite L4. repeat split.
Qed.

Lemma run_calls_keeps (this : engine) cs (h : store) ps :
  h !! this_products this = Some ps -> this_fuse this = ps ->
  h ⊆ (run_calls lower fuse_search localeCompare Date_getTime this cs h).2.
Proof.
  intros Hps Hfuse. revert h Hps.
  induction cs as [| c rest IH]; intros h Hps; simpl; [reflexivity |].
  unfold run_call.
  destruct (search_computes this (c_query c) (c_filters c) (c_page c)
              (c_limit c) (c_sortBy c) (c_t0 c) (c_t1 c) h ps Hps Hfuse)
    as (r & h' & E & Hsub & _).
  unfold bind. rewrite E. etrans; [exact Hsub |].
  apply IH. eapply lookup_weaken; eassumption.
Qed.

(** C9.  The read operations never mutate the stored collection:
    [search] sorts a copy.  After any sequence of [search] calls the
    engine's array holds the collection in its original order, and every
    other array that existed before is unchanged; an empty-query
    relevance search then returns the collection in that order; every
    call returns what [search] returns on the value of the collection, so
    two calls with the same query, filters, page, limit and sort order
    return the same products in the same order and the same figures, the
    processing time apart. *)
Theorem search_never_mutates (this : engine) (h : store) ps cs :
  h !! this_products this = Some ps -> this_fuse this = ps ->
  let h1 := (run_calls lower fuse_search localeCompare Date_getTime this cs h).2 in
  h ⊆ h1 /\
  h1 !! this_products this = Some ps /\
  (forall limit t0 t1 r h2,
     Mut.search lower fuse_search localeCompare Date_getTime this EmptyString
                no_filters 1 limit "relevance" t0 t1 h1 = (r, h2) ->
     items h2 r = slice 0 limit ps /\ h2 !! this_products this = Some ps) /\
  (forall c r h2,
     run_call lower fuse_search localeCompare Date_getTime this c h1 = (r, h2) ->
     items h2 r
     = products (SearchEngine.search lower fuse_search localeCompare Date_getTime ps
                   (c_query c) (c_filters c) (c_page c) (c_limit c)
                   (c_sortBy c) (c_t0 c) (c_t1 c))) /\
  (forall c c' r r' h2 h3,
     same_arguments c c' ->
     run_call lower fuse_search localeCompare Date_getTime this c h1 = (r, h2) ->
     run_call lower fuse_search localeCompare Date_getTime this c' h2 = (r', h3) ->
     items h2 r = items h3 r' /\ total r = total r' /\
     SearchEngine.page r = SearchEngine.page r' /\
     SearchEngine.limit r = SearchEngine.limit r' /\
     totalPages r = totalPages r').
Proof.
  intros Hps Hfuse. cbn zeta.
  pose proof (run_calls_keeps this cs h ps Hps Hfuse) as Hsub.
  set (h1 := (run_calls lower fuse_search localeCompare Date_getTime this cs h).2)
    in *.
  assert (Hps1 : h1 !! this_products this = Some ps)
    by (eapply lookup_weaken; eassumption).
  split; [exact Hsub |]. split; [exact Hps1 |]. split; [| split].
  - intros limit t0 t1 r h2 Hrun.
    destruct (search_computes this EmptyString no_filters 1 limit "relevance"
                t0 t1 h1 ps Hps1 Hfuse)
      as (r0 & h0 & E & Hsub0 & Hitems & _).
    rewrite E in Hrun. injection Hrun as <- <-.
    split; [exact Hitems | eapply lookup_weaken; eassumption].
  - intros c r h2 Hrun. unfold run_call in Hrun.
    destruct (search_computes this (c_query c) (c_filters c) (c_page c)
                (c_limit c) (c_sortBy c) (c_t0 c) (c_t1 c) h1 ps Hps1 Hfuse)
      as (r0 & h0 & E & _ & Hitems & _).
    rewrite E in Hrun. injection Hrun as <- <-. exact Hitems.
  - intros c c' r r' h2 h3 (Hq & Hf & Hp & Hl & Hs) Hrun Hrun'.
    unfold run_call in Hrun, Hrun'.
    destruct (search_computes this (c_query c) (c_filters c) (c_page c)
                (c_limit c) (c_sortBy c) (c_t0 c) (c_t1 c) h1 ps Hps1 Hfuse)
      as (r0 & h0 & E & Hsub0 & Hi & Ht & Hpg & Hli & Htp & _).
    rewrite E in Hrun. injection Hrun as <- <-.
    assert (Hps2 : h0 !! this_products this = Some ps)
      by (eapply lookup_weaken; eassumption).
    destruct (search_computes this (c_query c') (c_filters c') (c_page c')
                (c_limit c') (c_sortBy c') (c_t0 c') (c_t1 c') h0 ps Hps2
                Hfuse)
      as (r1 & h4 & E' & _ & Hi' & Ht' & Hpg' & Hli' & Htp' & _).
    rewrite E' in Hrun'. injection Hrun' as <- <-.
    rewrite Hi, Hi', Ht, Ht', Hpg, Hpg', Hli, Hli', Htp, Htp'.
    rewrite <- Hq, <- Hf, <- Hp, <- Hl, <- Hs.
    repeat split.
Qed.

End WithLibraries.

Lemma search_never_mutates_witness :
  let h1 := (run_calls Fixtures.sample_toLowerCase Fixtures.sample_fuse Fixtures.sample_localeCompare
               Fixtures.sample_getTime Fixtures.mock_engine
               [Fixtures.sorted_call "price-asc";
                Fixtures.sorted_call "name-desc"] Fixtures.mock_store).2 in
  h1 !! 1%positive = Some Fixtures.mockProducts /\
  forall r h2,
    Mut.search Fixtures.sample_toLowerCase Fixtures.sample_fuse Fixtures.sample_localeCompare
               Fixtures.sample_getTime Fixtures.mock_engine EmptyString
               no_filters 1 20 "relevance" 0 1 h1 = (r, h2) ->
    items h2 r = Fixtures.mockProducts.
Proof.
  intros h1.
  destruct (search_never_mutates Fixtures.sample_toLowerCase
              Fixtures.sample_fuse
              Fixtures.sample_localeCompare Fixtures.sample_getTime
              Fixtures.mock_engine Fixtures.mock_store Fixtures.mockProducts
              [Fixtures.sorted_call "price-asc";
               Fixtures.sorted_call "name-desc"]
              ltac:(vm_compute; reflexivity) eq_refl)
    as (_ & Hkeep & Hempty & _).
  split; [exact Hkeep |].
  intros r h2 Hrun. destruct (Hempty 20 0 1 r h2 Hrun) as [Hitems _].
  rewrite Hitems. reflexivity.
Defined.

End MutFacts.

(* ===================================================================== *)
(** ** The query engine: suggestions *)
(* ===================================================================== *)

Module SuggestFacts.
Import Str Types SearchEngine SearchSpec CatalogSpec ResultSpec.

Lemma set_add_NoDup s x : NoDup s -> NoDup (set_add s x).
Proof.
  intros H. unfold set_add. case_bool_decide as Hin; [exact H |].
  apply NoDup_app. split; [exact H |]. split.
  - intros y Hy Hy'. apply list_elem_of_singleton in Hy'. subst. auto.
  - apply NoDup_singleton.
Qed.

Lemma set_add_elem s x y : y ∈ set_add s x -> y ∈ s \/ y = x.
Proof.
  unfold set_add. case_bool_decide; [auto |].
  intros Hy. apply elem_of_app in Hy as [Hy | Hy]; [auto |].
  apply list_elem_of_singleton in Hy. auto.
Qed.

Section Fold.
Variable lower : string -> string.
Variable lowerQuery : string.
Variable get : Product -> string.

Lemma fold_add_NoDup ps : forall s,
  NoDup s -> NoDup (fold_left (add_matching lower lowerQuery get) ps s).
Proof.
  induction ps as [| p t IH]; intros s Hs; simpl; [exact Hs |].
  apply IH. unfold add_matching.
  destruct (includes _ _); [apply set_add_NoDup |]; exact Hs.
Qed.

Lemma fold_add_elem ps : forall s y,
  y ∈ fold_left (add_matching lower lowerQuery get) ps s ->
  y ∈ s \/ exists p, p ∈ ps /\ y = get p.
Proof.
  induction ps as [| p t IH]; intros s y Hy; simpl in Hy; [auto |].
  apply IH in Hy as [Hy | (q & Hq & ->)].
  - unfold add_matching in Hy. destruct (includes _ _); [| auto].
    apply set_add_elem in Hy as [Hy | ->]; [auto |].
    right. exists p. split; [left | reflexivity].
  - right. exists q. split; [right; exact Hq | reflexivity].
Qed.

Lemma fold_add_length ps : forall s,
  (List.length (fold_left (add_matching lower lowerQuery get) ps s)
   <= List.length s + List.length ps)%nat.
Proof.
  induction ps as [| p t IH]; intros s; simpl; [lia |].
  etrans; [apply IH |]. unfold add_matching, set_add.
  destruct (includes _ _); [| lia].
  case_bool_decide; [lia |]. rewrite length_app. simpl. lia.
Qed.

End Fold.

(** A slice from the start is a prefix. *)
Lemma slice_prefix {A} (stop : Z) (l : list A) :
  exists n, slice 0 stop l = firstn n l.
Proof.
  unfold slice. change (0 <? 0) with false. cbv iota.
  rewrite (Z.min_l 0 (Z.of_nat (List.length l))) by lia.
  eexists. reflexivity.
Qed.

Lemma slice_length {A} (limit : Z) (l : list A) :
  0 <= limit -> Z.of_nat (List.length (slice 0 limit l)) <= limit.
Proof.
  intros H. replace limit with (0 + limit) at 1 by lia.
  rewrite SearchFacts.slice_from by lia. simpl.
  rewrite length_take. lia.
Qed.

Lemma drop_space_blank l :
  Forall (fun c => is_space c = true) l -> drop_space l = [].
Proof.
  induction 1 as [| c t Hc _ IH]; simpl; [reflexivity |].
  rewrite Hc. exact IH.
Qed.

Lemma trim_blank s : blank s -> trim s = EmptyString.
Proof.
  intros H. unfold trim. rewrite (drop_space_blank _ H). reflexivity.
Qed.

Lemma drop_space_nil l :
  drop_space l = [] -> Forall (fun c => is_space c = true) l.
Proof.
  induction l as [| c t IH]; simpl; [constructor |].
  destruct (is_space c) eqn:E; [| discriminate].
  intros H. constructor; [exact E | apply IH, H].
Qed.

Lemma to_string_nil l : to_string l = EmptyString -> l = [].
Proof. destruct l; [reflexivity | discriminate]. Qed.

Lemma drop_space_head l c t :
  drop_space l = c :: t -> is_space c = false.
Proof.
  induction l as [| x l IH]; simpl; [discriminate |].
  destruct (is_space x) eqn:E; [exact IH |].
  intros H. injection H as <- _. exact E.
Qed.

(** Only a string of white space trims to the empty string. *)
Lemma trim_empty_blank s : trim s = EmptyString -> blank s.
Proof.
  unfold trim, blank. intros H.
  apply to_string_nil in H.
  apply (f_equal (@rev ascii)) in H. rewrite rev_involutive in H. simpl in H.
  apply drop_space_nil in H.
  destruct (drop_space (of_string s)) as [| c t] eqn:E;
    [apply drop_space_nil, E |].
  apply drop_space_head in E.
  apply Forall_rev in H. rewrite rev_involutive in H.
  inversion H as [| ? ? Hc _]; subst. congruence.
Qed.

(** A slice from the start up to a position counted from the end. *)
Lemma slice_drop_last {A} (limit : Z) (l : list A) :
  limit < 0 ->
  slice 0 limit l
  = firstn (Z.to_nat (Z.of_nat (List.length l) + limit)) l.
Proof.
  intros H. unfold slice. change (0 <? 0) with false.
  destruct (Z.ltb_spec limit 0); [| lia]. cbv iota.
  rewrite (Z.min_l 0) by lia. simpl skipn. f_equal. lia.
Qed.

Section WithCaseMapping.
Variable lower : string -> string.

Lemma fold_add_matching query get ps : forall s,
  fold_left (add_matching lower (lower query) get) ps s
  = fold_left set_add (matching lower query get ps) s.
Proof.
  unfold matching.
  induction ps as [| p t IH]; intros s; simpl; [reflexivity |].
  unfold add_matching at 2. unfold suggests at 1.
  destruct (includes (lower query) (lower (get p))); simpl; apply IH.
Qed.

(** Past its guard, [getSearchSuggestions] slices the list of all
    suggestions. *)
Lemma getSearchSuggestions_slice ps query limit :
  ~ blank query -> 2 <= utf16_length query ->
  getSearchSuggestions lower ps query limit
  = slice 0 limit (all_suggestions lower query ps).
Proof.
  intros Hnb Hlen. unfold getSearchSuggestions.
  destruct (String.eqb_spec (trim query) EmptyString) as [Et | _];
    [exfalso; apply Hnb, trim_empty_blank, Et |].
  destruct (Z.ltb_spec (utf16_length query) 2); [lia |].
  simpl orb. cbv iota zeta.
  rewrite !fold_add_matching.
  unfold all_suggestions, Catalog.new_Set. rewrite !fold_left_app.
  reflexivity.
Qed.

(** A limit that exceeds three times the size of the collection cuts
    nothing off. *)
Lemma getSearchSuggestions_all ps query big :
  3 * Z.of_nat (List.length ps) <= big ->
  forall limit, limit < 0 ->
  let all := getSearchSuggestions lower ps query big in
  getSearchSuggestions lower ps query limit
  = firstn (Z.to_nat (Z.of_nat (List.length all) + limit)) all.
Proof.
  intros Hbig limit Hneg. cbv zeta. unfold getSearchSuggestions.
  destruct (String.eqb (trim query) EmptyString
            || (utf16_length query <? 2)); [symmetry; apply take_nil |].
  set (suggestions :=
         fold_left (add_matching lower (lower query) productType) ps
           (fold_left (add_matching lower (lower query) vendor) ps
              (fold_left (add_matching lower (lower query) title) ps []))).
  assert (Hlen : (List.length suggestions <= 3 * List.length ps)%nat).
  { unfold suggestions.
    etrans; [apply fold_add_length |].
    pose proof (fold_add_length lower (lower query) vendor ps
                  (fold_left (add_matching lower (lower query) title) ps [])).
    pose proof (fold_add_length lower (lower query) title ps []).
    simpl in *. lia. }
  assert (Hall : slice 0 big suggestions = suggestions).
  { replace big with (0 + big) by lia.
    rewrite SearchFacts.slice_from by lia. simpl. apply take_ge. lia. }
  rewrite Hall. apply slice_drop_last, Hneg.
Qed.

(** C10, as amended.  Every string returned by [getSearchSuggestions] is
    the title, the vendor or the product type of a product of the
    collection, as it is stored; the list has no duplicates; for a limit
    that is not negative it has at most [limit] entries; and a query made
    of white space only gives the empty list, whatever its length.  A
    negative limit is not refused: the result is then the list that a
    limit cutting nothing off gives, without its last [-limit]
    entries. *)
Theorem getSearchSuggestions_sound ps query limit :
  let out := getSearchSuggestions lower ps query limit in
  (forall s, s ∈ out ->
     exists p, p ∈ ps /\ (s = title p \/ s = vendor p \/ s = productType p)) /\
  NoDup out /\
  (0 <= limit -> Z.of_nat (List.length out) <= limit) /\
  (blank query -> out = []) /\
  (limit < 0 ->
   forall big, 3 * Z.of_nat (List.length ps) <= big ->
     let all := getSearchSuggestions lower ps query big in
     out = firstn (Z.to_nat (Z.of_nat (List.length all) + limit)) all).
Proof.
  cbn zeta. split; [| split; [| split; [| split]]].
  5: { intros Hneg big Hbig.
       apply (getSearchSuggestions_all ps query big Hbig limit Hneg). }
  all: unfold getSearchSuggestions;
    destruct (String.eqb (trim query) EmptyString
              || (utf16_length query <? 2)) eqn:Eguard.
  all: try (set (suggestions :=
           fold_left (add_matching lower (lower query) productType) ps
             (fold_left (add_matching lower (lower query) vendor) ps
                (fold_left (add_matching lower (lower query) title) ps [])))).
  - intros s Hs. inversion Hs.
  - destruct (slice_prefix limit suggestions) as [n Hn].
    intros s Hs. rewrite Hn in Hs.
    apply subseteq_take in Hs. unfold suggestions in Hs.
    apply fold_add_elem in Hs as [Hs | (p & Hp & ->)]; [| eauto].
    apply fold_add_elem in Hs as [Hs | (p & Hp & ->)]; [| eauto].
    apply fold_add_elem in Hs as [Hs | (p & Hp & ->)]; [| eauto].
    inversion Hs.
  - constructor.
  - destruct (slice_prefix limit suggestions) as [n Hn]. rewrite Hn.
    eapply sublist_NoDup; [| apply sublist_take].
    unfold suggestions. repeat apply fold_add_NoDup. constructor.
  - simpl. lia.
  - apply slice_length.
  - reflexivity.
  - intros Hb. rewrite (trim_blank query Hb) in Eguard. discriminate.
Qed.

End WithCaseMapping.

Lemma getSearchSuggestions_sound_witness :
  Z.of_nat (List.length
              (getSearchSuggestions Fixtures.sample_toLowerCase
                                    Fixtures.mockProducts "ap" 2))
  <= 2 /\
  getSearchSuggestions Fixtures.sample_toLowerCase Fixtures.mockProducts
                       "   " 5 = [].
Proof.
  split.
  - destruct (getSearchSuggestions_sound Fixtures.sample_toLowerCase
                Fixtures.mockProducts "ap" 2)
      as (_ & _ & Hlen & _).
    apply Hlen. lia.
  - destruct (getSearchSuggestions_sound Fixtures.sample_toLowerCase
                Fixtures.mockProducts "   " 5)
      as (_ & _ & _ & Hblank & _).
    apply Hblank. repeat constructor.
Defined.

(** C10, as stated, fails: with a limit of -1 the query [ap] gets one
    suggestion, which is more than the limit. *)
Lemma getSearchSuggestions_negative_limit :
  let out := getSearchSuggestions Fixtures.sample_toLowerCase
               Fixtures.mockProducts "ap" (-1) in
  out = ["Apple"] /\ ~ Z.of_nat (List.length out) <= -1.
Proof.
  cbv zeta.
  assert (E : getSearchSuggestions Fixtures.sample_toLowerCase
                Fixtures.mockProducts "ap" (-1) = ["Apple"])
    by (vm_compute; reflexivity).
  rewrite E. split; [reflexivity | simpl; lia].
Qed.

End SuggestFacts.

(* ===================================================================== *)
(** ** The query engine on the fixture of its test suite *)
(* ===================================================================== *)

Module SearchExamples.
Import Str Types SearchEngine Fixtures.

Example all_products :
  let r := run EmptyString no_filters 1 20 "relevance" in
  ids r = ["1"; "2"; "3"; "4"] /\ total r = 4 /\ totalPages r = Fin 1.
Proof. vm_compute. repeat split. Qed.

Example first_page :
  let r := run EmptyString no_filters 1 2 "relevance" in
  ids r = ["1"; "2"] /\ total r = 4 /\ totalPages r = Fin 2.
Proof. vm_compute. repeat split. Qed.

Example second_page :
  ids (run EmptyString no_filters 2 2 "relevance") = ["3"; "4"].
Proof. vm_compute. reflexivity. Qed.

Example page_beyond :
  let r := run EmptyString no_filters 10 2 "relevance" in
  ids r = [] /\ total r = 4 /\ page r = 10.
Proof. vm_compute. repeat split. Qed.

Example vendor_exact :
  ids (run EmptyString (with_vendor "Apple") 1 20 "relevance") = ["1"; "3"].
Proof. vm_compute. reflexivity. Qed.

Example vendor_partial_any_case :
  ids (run EmptyString (with_vendor "aPP") 1 20 "relevance") = ["1"; "3"].
Proof. vm_compute. reflexivity. Qed.

Example minimum_price :
  ids (run EmptyString (with_prices (Some 1000) None) 1 20 "relevance")
  = ["1"; "3"].
Proof. vm_compute. reflexivity. Qed.

Example maximum_price :
  ids (run EmptyString (with_prices None (Some 800)) 1 20 "relevance")
  = ["2"; "4"].
Proof. vm_compute. reflexivity. Qed.

Example price_window :
  ids (run EmptyString (with_prices (Some 500) (Some 1500)) 1 20 "relevance")
  = ["1"; "2"].
Proof. vm_compute. reflexivity. Qed.

Example in_stock_only :
  ids (run EmptyString (with_inStock true) 1 20 "relevance") = ["1"; "3"; "4"].
Proof. vm_compute. reflexivity. Qed.

Example in_stock_false :
  ids (run EmptyString (with_inStock false) 1 20 "relevance")
  = ["1"; "2"; "3"; "4"].
Proof. vm_compute. reflexivity. Qed.

Example combined_filters :
  ids (run EmptyString
         {| f_vendor := Some "Apple"; f_productType := None;
            f_minPrice := Some (Num.of_Z 2000); f_maxPrice := None;
            f_inStock := Some true |} 1 20 "relevance") = ["3"].
Proof. vm_compute. reflexivity. Qed.

Example sort_price_asc :
  ids (run EmptyString no_filters 1 20 "price-asc") = ["4"; "2"; "1"; "3"].
Proof. vm_compute. reflexivity. Qed.

Example sort_price_desc :
  ids (run EmptyString no_filters 1 20 "price-desc") = ["3"; "1"; "2"; "4"].
Proof. vm_compute. reflexivity. Qed.

Example sort_name_asc :
  ids (run EmptyString no_filters 1 20 "name-asc") = ["4"; "1"; "3"; "2"].
Proof. vm_compute. reflexivity. Qed.

Example sort_newest :
  ids (run EmptyString no_filters 1 20 "newest") = ["4"; "3"; "2"; "1"].
Proof. vm_compute. reflexivity. Qed.

Example unpriced_last_both_ways :
  let ps := [unpriced_iphone; galaxy; macbook; giftcard] in
  id <$> applySorting sample_localeCompare sample_getTime ps "price-asc"
  = ["4"; "2"; "3"; "1"] /\
  id <$> applySorting sample_localeCompare sample_getTime ps "price-desc"
  = ["3"; "2"; "4"; "1"].
Proof. vm_compute. repeat split. Qed.

Example suggestions_iph :
  getSearchSuggestions sample_toLowerCase mockProducts "iph" 5 = ["iPhone 14 Pro"].
Proof. vm_compute. reflexivity. Qed.

Example suggestions_ap :
  getSearchSuggestions sample_toLowerCase mockProducts "ap" 5 = ["Apple"; "Laptop"].
Proof. vm_compute. reflexivity. Qed.

Example suggestions_short : getSearchSuggestions sample_toLowerCase mockProducts "a" 5 = [].
Proof. vm_compute. reflexivity. Qed.

End SearchExamples.

(* ===================================================================== *)
(** ** The figures of the catalogue *)
(* ===================================================================== *)

Module StringOrder.

Lemma ascii_compare_refl (a : ascii) : Ascii.compare a a = Eq.
Proof. unfold Ascii.compare. apply N.compare_refl. Qed.

Lemma ascii_lt_trans (a b c : ascii) :
  Ascii.compare a b = Lt -> Ascii.compare b c = Lt -> Ascii.compare a c = Lt.
Proof.
  unfold Ascii.compare. rewrite !N.compare_lt_iff. lia.
Qed.

(** The order of the code units is transitive. *)
Lemma compare_le_trans (a : string) : forall b c,
  String.compare a b <> Gt -> String.compare b c <> Gt ->
  String.compare a c <> Gt.
Proof.
  induction a as [| x a IH]; intros [| y b] [| z c]; simpl;
    try congruence.
  destruct (Ascii.compare x y) eqn:Exy; try congruence;
    destruct (Ascii.compare y z) eqn:Eyz; try congruence.
  - apply Ascii.compare_eq_iff in Exy, Eyz. subst.
    rewrite ascii_compare_refl. apply IH.
  - apply Ascii.compare_eq_iff in Exy. subst. rewrite Eyz. congruence.
  - apply Ascii.compare_eq_iff in Eyz. subst. rewrite Exy. congruence.
  - rewrite (ascii_lt_trans x y z Exy Eyz). congruence.
Qed.

Lemma compare_refl (a : string) : String.compare a a = Eq.
Proof.
  induction a as [| x a IH]; simpl; [reflexivity |].
  rewrite ascii_compare_refl. exact IH.
Qed.

Lemma compare_gt_asym (a b : string) :
  String.compare a b = Gt -> String.compare b a <> Gt.
Proof.
  rewrite (String.compare_antisym b a). intros ->. discriminate.
Qed.

End StringOrder.

(** The order of the UTF-16 code units, read off the UTF-8 bytes. *)
Module CodeUnitOrder.
Import Catalog CatalogSpec.

Local Arguments String.append : simpl nomatch.


Lemma unit_compare_refl a : code_unit_compare a a = Eq.
Proof.
  induction a as [| c a IH]; simpl; [reflexivity |].
  rewrite Z.compare_refl. exact IH.
Qed.






End CodeUnitOrder.

Module SetFacts.
Import SearchEngine Catalog.

Lemma set_add_keeps s x y : y ∈ s -> y ∈ set_add s x.
Proof.
  unfold set_add. case_bool_decide; [auto |].
  intros Hy. apply elem_of_app. auto.
Qed.

Lemma set_add_new s x : x ∈ set_add s x.
Proof.
  unfold set_add. case_bool_decide; [assumption |].
  apply elem_of_app. right. apply list_elem_of_singleton. reflexivity.
Qed.


Lemma fold_set_add_elem xs : forall s y,
  y ∈ fold_left set_add xs s <-> y ∈ s \/ y ∈ xs.
Proof.
  induction xs as [| x t IH]; intros s y; simpl.
  - split; [auto | intros [H | H]; [exact H | inversion H]].
  - rewrite IH. split.
    + intros [H | H]; [| right; right; exact H].
      apply SuggestFacts.set_add_elem in H as [H | ->]; [auto |].
      right. left.
    + intros [H | H]; [left; apply set_add_keeps, H |].
      apply elem_of_cons in H as [-> | H]; [left; apply set_add_new | auto].
Qed.


Lemma new_Set_elem xs y : y ∈ new_Set xs <-> y ∈ xs.
Proof.
  unfold new_Set. rewrite fold_set_add_elem. split; [| auto].
  intros [H | H]; [inversion H | exact H].
Qed.

End SetFacts.

Module CatalogFacts.
Import Str Types SearchEngine SearchSpec Catalog CatalogSpec.





(** The full-width tilde (U+FF5E) and a character beyond U+FFFF
    (U+1F600), whose first code unit is a surrogate: the second sorts
    first. *)
Example sort_default_surrogates :
  let tilde := to_string (Json.byte <$> [239; 189; 158]) in
  let beyond := to_string (Json.byte <$> [240; 159; 152; 128]) in
  ArraySort.sort default_compare [tilde; beyond] = [beyond; tilde].
Proof. reflexivity. Qed.





(** *** The price range of the catalogue *)

Ltac num_cases :=
  repeat match goal with
         | n : number |- _ => destruct n as [| [] | ?]
         end;
  unfold Num.lt, Num.gt, Num.le, Num.ge in *; simpl in *;
  try congruence; try reflexivity.

Ltac q_order :=
  repeat match goal with
         | H : context [(?x ?= ?y)%Q] |- _ =>
             let E := fresh "E" in
             destruct (x ?= y)%Q eqn:E; try discriminate;
             first [apply Qeq_alt in E | apply Qlt_alt in E
                   | apply Qgt_alt in E]
         | |- context [(?x ?= ?y)%Q] =>
             let E := fresh "E" in
             destruct (x ?= y)%Q eqn:E; try reflexivity; try discriminate;
             first [apply Qeq_alt in E | apply Qlt_alt in E
                   | apply Qgt_alt in E]
         end;
  try lra.

Lemma le_refl a : a <> NaN -> Num.le a a = true.
Proof.
  intros H. num_cases; q_order.
Qed.

Lemma le_trans a b c :
  Num.le a b = true -> Num.le b c = true -> Num.le a c = true.
Proof. intros H1 H2. num_cases; q_order. Qed.

Lemma not_lt_le a b :
  a <> NaN -> b <> NaN -> Num.lt b a = false -> Num.le a b = true.
Proof.
  intros Ha Hb H. num_cases; q_order.
Qed.

Lemma lt_le a b : Num.lt a b = true -> Num.le a b = true.
Proof. intros H. num_cases; q_order. Qed.

Lemma gt_ge_rev a b : Num.gt b a = true -> Num.le a b = true.
Proof.
  intros H. num_cases; q_order.
Qed.

Lemma not_gt_ge_rev a b :
  a <> NaN -> b <> NaN -> Num.gt b a = false -> Num.le b a = true.
Proof. intros Ha Hb H. apply NumFacts.not_gt_le; assumption. Qed.

Lemma gt_zero_not_nan a : Num.gt a Num.zero = true -> a <> NaN.
Proof. destruct a; unfold Num.gt; simpl; congruence. Qed.

(** The minimum of a list of numbers none of which is [NaN], from a
    start value [a]: it is [a] or an item, and a lower bound of both. *)
Lemma fold_min2 xs : forall a,
  a <> NaN -> Forall (fun x => x <> NaN) xs ->
  let m := fold_left min2 xs a in
  (m = a \/ m ∈ xs) /\ Num.le m a = true /\
  Forall (fun x => Num.le m x = true) xs.
Proof.
  induction xs as [| x t IH]; intros a Ha Hxs; simpl.
  - split; [auto |]. split; [apply le_refl, Ha | constructor].
  - inversion Hxs as [| ? ? Hx Ht]; subst.
    assert (Hm : min2 a x <> NaN /\ (min2 a x = a \/ min2 a x = x) /\
                 Num.le (min2 a x) a = true /\ Num.le (min2 a x) x = true).
    { unfold min2. destruct a as [| sa | qa]; [congruence | |];
        (destruct x as [| sx | qx]; [congruence | |]);
        match goal with
        | |- context [if ?c then _ else _] => destruct c eqn:E
        end;
        (split; [congruence |]); (split; [auto |]);
        (split; [first [apply lt_le, E | apply le_refl; congruence]
                |first [apply le_refl; congruence
                       | apply not_lt_le; congruence]]). }
    destruct Hm as (Hn & Hor & Hla & Hlx).
    destruct (IH (min2 a x) Hn Ht) as (Hin & Hle & Hall).
    split; [| split].
    + destruct Hin as [Hin | Hin]; [| right; right; exact Hin].
      destruct Hor as [Hor | Hor]; rewrite Hin, Hor; [auto |].
      right. left.
    + eapply le_trans; eassumption.
    + constructor; [eapply le_trans; eassumption | exact Hall].
Qed.

Lemma fold_max2 xs : forall a,
  a <> NaN -> Forall (fun x => x <> NaN) xs ->
  let m := fold_left max2 xs a in
  (m = a \/ m ∈ xs) /\ Num.le a m = true /\
  Forall (fun x => Num.le x m = true) xs.
Proof.
  induction xs as [| x t IH]; intros a Ha Hxs; simpl.
  - split; [auto |]. split; [apply le_refl, Ha | constructor].
  - inversion Hxs as [| ? ? Hx Ht]; subst.
    assert (Hm : max2 a x <> NaN /\ (max2 a x = a \/ max2 a x = x) /\
                 Num.le a (max2 a x) = true /\ Num.le x (max2 a x) = true).
    { unfold max2. destruct a as [| sa | qa]; [congruence | |];
        (destruct x as [| sx | qx]; [congruence | |]);
        match goal with
        | |- context [if ?c then _ else _] => destruct c eqn:E
        end;
        (split; [congruence |]); (split; [auto |]);
        (split; [first [apply gt_ge_rev, E | apply le_refl; congruence]
                |first [apply le_refl; congruence
                       | apply not_gt_ge_rev; congruence]]). }
    destruct Hm as (Hn & Hor & Hla & Hlx).
    destruct (IH (max2 a x) Hn Ht) as (Hin & Hle & Hall).
    split; [| split].
    + destruct Hin as [Hin | Hin]; [| right; right; exact Hin].
      destruct Hor as [Hor | Hor]; rewrite Hin, Hor; [auto |].
      right. left.
    + eapply le_trans; eassumption.
    + constructor; [eapply le_trans; eassumption | exact Hall].
Qed.

(** A positive number lies strictly between the two infinities, so the
    start value of [Math.min] and [Math.max] is never the answer for a
    list that has an item. *)
Lemma Math_min_attained xs :
  xs <> [] -> Forall (fun x => x <> NaN) xs ->
  Math_min xs ∈ xs /\ Forall (fun x => Num.le (Math_min xs) x = true) xs.
Proof.
  intros Hne Hxs. destruct xs as [| x t]; [congruence |].
  unfold Math_min. cbn [fold_left].
  inversion Hxs as [| ? ? Hx Ht]; subst.
  assert (E : min2 (Inf false) x = x) by (destruct x as [| [] |]; reflexivity).
  rewrite E.
  destruct (fold_min2 t x Hx Ht) as (Hin & Hle & Hall).
  split; [destruct Hin as [-> | Hin]; [left | right; exact Hin] |].
  constructor; assumption.
Qed.

Lemma Math_max_attained xs :
  xs <> [] -> Forall (fun x => x <> NaN) xs ->
  Math_max xs ∈ xs /\ Forall (fun x => Num.le x (Math_max xs) = true) xs.
Proof.
  intros Hne Hxs. destruct xs as [| x t]; [congruence |].
  unfold Math_max. cbn [fold_left].
  inversion Hxs as [| ? ? Hx Ht]; subst.
  assert (E : max2 (Inf true) x = x) by (destruct x as [| [] |]; reflexivity).
  rewrite E.
  destruct (fold_max2 t x Hx Ht) as (Hin & Hle & Hall).
  split; [destruct Hin as [-> | Hin]; [left | right; exact Hin] |].
  constructor; assumption.
Qed.

Lemma positive_prices_elem ps x :
  x ∈ List.filter (fun price => Num.gt price Num.zero)
                  (getProductPrice <$> ps)
  <-> exists p, p ∈ ps /\ positive_price p /\ getProductPrice p = x.
Proof.
  rewrite list_elem_of_In, filter_In, <- list_elem_of_In, list_elem_of_fmap.
  unfold positive_price. split.
  - intros [(p & -> & Hp) Hgt]. exists p. auto.
  - intros (p & Hp & Hgt & <-). split; [exists p; auto | exact Hgt].
Qed.

(** [getPriceRange]: a catalogue without a positive price reports
    [{0,0}]; otherwise both bounds are prices of products of the
    catalogue, positive ones, and every positive price of the catalogue
    lies between them. *)
Theorem getPriceRange_bounds ps :
  let r := getPriceRange ps in
  ((forall p, p ∈ ps -> ~ positive_price p) ->
   r = {| min := Num.zero; max := Num.zero |}) /\
  ((exists p, p ∈ ps /\ positive_price p) ->
   (exists p, p ∈ ps /\ positive_price p /\ getProductPrice p = min r) /\
   (exists p, p ∈ ps /\ positive_price p /\ getProductPrice p = max r) /\
   Num.le (min r) (max r) = true /\
   (forall p, p ∈ ps -> positive_price p ->
      Num.le (min r) (getProductPrice p) = true /\
      Num.le (getProductPrice p) (max r) = true)).
Proof.
  cbv zeta. unfold getPriceRange.
  set (prices := List.filter (fun price => Num.gt price Num.zero)
                             (getProductPrice <$> ps)).
  split.
  - intros Hnone.
    assert (E : prices = []).
    { destruct prices as [| x t] eqn:Ep; [reflexivity |].
      assert (Hx : x ∈ prices) by (rewrite Ep; left).
      apply positive_prices_elem in Hx as (p & Hp & Hpos & _).
      exfalso. exact (Hnone p Hp Hpos). }
    rewrite E. reflexivity.
  - intros (p0 & Hp0 & Hpos0).
    assert (Hin0 : getProductPrice p0 ∈ prices)
      by (apply positive_prices_elem; eauto).
    assert (Hne : prices <> []) by (intros E; rewrite E in Hin0; inversion Hin0).
    assert (Hnan : Forall (fun x => x <> NaN) prices).
    { apply Forall_forall. intros x Hx.
      apply positive_prices_elem in Hx as (p & _ & Hpos & <-).
      apply gt_zero_not_nan, Hpos. }
    destruct (Math_min_attained prices Hne Hnan) as [Hmin Hlow].
    destruct (Math_max_attained prices Hne Hnan) as [Hmax Hhigh].
    assert (El : (List.length prices =? 0)%nat = false)
      by (destruct prices; [congruence | reflexivity]).
    rewrite El. cbn [min max].
    rewrite Forall_forall in Hlow, Hhigh.
    split; [apply (proj1 (positive_prices_elem ps _)), Hmin |].
    split; [apply (proj1 (positive_prices_elem ps _)), Hmax |].
    split; [apply Hlow, Hmax |].
    intros p Hp Hpos.
    assert (Hin : getProductPrice p ∈ prices)
      by (apply positive_prices_elem; eauto).
    split; [apply Hlow, Hin | apply Hhigh, Hin].
Qed.

Lemma getPriceRange_bounds_witness :
  let r := getPriceRange Fixtures.mockProducts in
  Num.le (min r) (max r) = true /\
  Num.le (min r) (getProductPrice Fixtures.galaxy) = true /\
  Num.le (getProductPrice Fixtures.galaxy) (max r) = true.
Proof.
  destruct (getPriceRange_bounds Fixtures.mockProducts) as [_ H].
  destruct H as (_ & _ & Hle & Hall).
  - exists Fixtures.galaxy. split; [| reflexivity].
    right. left.
  - split; [exact Hle |]. apply Hall; [| reflexivity]. right. left.
Defined.

End CatalogFacts.

(* ===================================================================== *)
(** ** The query engine: order of the results, pages, suggestions *)
(* ===================================================================== *)

Module SortOnFacts.
Import ArraySort.

Section On.
Context {A : Type}.
Variable cmp : A -> A -> number.
Variable P : A -> Prop.
Hypothesis asym : forall x y, P x -> P y ->
  after cmp x y = true -> after cmp y x = false.
Hypothesis trans : forall x y z, P x -> P y -> P z ->
  after cmp x y = false -> after cmp y z = false -> after cmp x z = false.

Lemma insert_sorted_on x l :
  P x -> Forall P l ->
  StronglySorted (not_after cmp) l ->
  StronglySorted (not_after cmp) (insert cmp x l).
Proof.
  intros Hx Hl Hs. induction Hs as [| y t Hs IH Hall]; simpl.
  - constructor; constructor.
  - inversion Hl as [| ? ? Hy Ht]; subst.
    destruct (after cmp x y) eqn:E.
    + constructor; [apply IH, Ht |].
      apply Forall_forall. intros z Hz. apply list_elem_of_In in Hz.
      apply (Permutation_in _ (Permutation_sym (SortFacts.insert_perm cmp x t)))
        in Hz.
      destruct Hz as [<- | Hz]; [apply asym; assumption |].
      rewrite Forall_forall in Hall. apply Hall, list_elem_of_In, Hz.
    + constructor; [constructor; assumption |].
      constructor; [exact E |].
      apply Forall_forall. intros z Hz.
      rewrite Forall_forall in Hall, Ht.
      apply (trans x y z Hx Hy (Ht z Hz) E). apply Hall, Hz.
Qed.

(** A comparator that is a consistent ordering of the items of the list
    sorts it. *)
Lemma sort_sorted_on l :
  Forall P l -> StronglySorted (not_after cmp) (sort cmp l).
Proof.
  induction 1 as [| x t Hx Ht IH]; simpl; [constructor |].
  apply insert_sorted_on; [exact Hx | | exact IH].
  apply Forall_forall. intros z Hz. rewrite Forall_forall in Ht.
  apply Ht. apply list_elem_of_In. apply list_elem_of_In in Hz.
  apply (SortFacts.sort_In cmp), Hz.
Qed.

End On.

End SortOnFacts.

Module ResultFacts.
Import Str Types SearchEngine SearchSpec Catalog CatalogSpec ResultSpec.

Lemma sorted_in_order {A} (R : A -> A -> Prop) l :
  StronglySorted R l -> in_order R l.
Proof. intros H i j x y. apply SortFacts.StronglySorted_lookup, H. Qed.

Lemma filter_perm_nil {A} (P : A -> bool) l l' :
  Permutation l l' -> List.filter P l = [] -> List.filter P l' = [].
Proof.
  intros Hp Hl.
  destruct (List.filter P l') as [| x t] eqn:E; [reflexivity |].
  assert (Hx : In x (List.filter P l')) by (rewrite E; left; reflexivity).
  apply filter_In in Hx as [Hx HP].
  apply (Permutation_in _ (Permutation_sym Hp)) in Hx.
  assert (Hin : In x (List.filter P l)) by (apply filter_In; auto).
  rewrite Hl in Hin. destruct Hin.
Qed.

Section WithLibraries.
Variable lower : string -> string.
Variable fuse_search : list Product -> string -> list Product.
Variable localeCompare : string -> string -> number.
Variable Date_getTime : string -> number.

Lemma comparator_unknown sortBy :
  sortBy ∉ sort_keys -> comparator localeCompare Date_getTime sortBy = None.
Proof.
  intros H. unfold comparator.
  repeat match goal with
         | |- context [String.eqb sortBy ?k] =>
             destruct (String.eqb_spec sortBy k) as [-> | _];
             [exfalso; apply H; unfold sort_keys;
              repeat first [left | right] |]
         end.
  reflexivity.
Qed.

(** Whatever the sort key, [applySorting] returns the products it was
    given, each as often as before; a key that is none of the five known
    ones (among them [relevance]) leaves the order as it is. *)
Theorem applySorting_permutation ps sortBy :
  Permutation ps (applySorting localeCompare Date_getTime ps sortBy) /\
  List.length (applySorting localeCompare Date_getTime ps sortBy) = List.length ps /\
  (sortBy ∉ sort_keys -> applySorting localeCompare Date_getTime ps sortBy = ps).
Proof.
  assert (Hp : Permutation ps (applySorting localeCompare Date_getTime ps sortBy)).
  { unfold applySorting.
    destruct (comparator localeCompare Date_getTime sortBy);
      [apply SortFacts.sort_perm | reflexivity]. }
  split; [exact Hp |]. split; [symmetry; apply Permutation_length, Hp |].
  intros H. unfold applySorting.
  rewrite comparator_unknown by exact H. reflexivity.
Qed.

(** *** Sorting by name *)

Lemma same_title_ties (flip : bool) ps t :
  consistent_on localeCompare (title <$> ps) ->
  t ∈ (title <$> ps) ->
  forall x y, has_title t x = true -> has_title t y = true ->
    ArraySort.after (if flip then cmp_name_desc localeCompare
                     else cmp_name_asc localeCompare) x y = false.
Proof.
  intros [Hasym _] Ht x y Hx Hy.
  unfold has_title in Hx, Hy.
  apply String.eqb_eq in Hx, Hy.
  unfold ArraySort.after, cmp_name_asc, cmp_name_desc.
  destruct flip; rewrite Hx, Hy;
    destruct (Num.gt (localeCompare t t) Num.zero) eqn:E; try reflexivity;
    rewrite (Hasym t t Ht Ht E) in E; discriminate.
Qed.

Lemma name_stable (flip : bool) ps t :
  consistent_on localeCompare (title <$> ps) ->
  let cmp := if flip then cmp_name_desc localeCompare
             else cmp_name_asc localeCompare in
  List.filter (has_title t) (ArraySort.sort cmp ps)
  = List.filter (has_title t) ps.
Proof.
  intros Hc cmp.
  destruct (decide (t ∈ (title <$> ps))) as [Ht | Ht].
  - apply SortFacts.sort_stable. apply (same_title_ties flip ps t Hc Ht).
  - assert (E : List.filter (has_title t) ps = []).
    { destruct (List.filter (has_title t) ps) as [| x r] eqn:E;
        [reflexivity |].
      assert (Hx : In x (List.filter (has_title t) ps))
        by (rewrite E; left; reflexivity).
      apply filter_In in Hx as [Hx Hxt]. exfalso. apply Ht.
      apply String.eqb_eq in Hxt. subst t.
      apply list_elem_of_fmap. exists x. split; [reflexivity |].
      apply list_elem_of_In, Hx. }
    rewrite E. eapply filter_perm_nil; [apply SortFacts.sort_perm | exact E].
Qed.

(** [name-asc] and [name-desc]: when [localeCompare] is a consistent
    ordering of the titles at hand, the result is the collection in
    ascending (descending) order of the titles, and products that bear
    the same title keep the order they had. *)
Theorem applySorting_by_name ps :
  consistent_on localeCompare (title <$> ps) ->
  let asc := applySorting localeCompare Date_getTime ps "name-asc" in
  let desc := applySorting localeCompare Date_getTime ps "name-desc" in
  Permutation ps asc /\
  in_order (fun x y =>
              Num.gt (localeCompare (title x) (title y)) Num.zero = false) asc /\
  Permutation ps desc /\
  in_order (fun x y =>
              Num.gt (localeCompare (title y) (title x)) Num.zero = false) desc /\
  (forall t, List.filter (has_title t) asc = List.filter (has_title t) ps /\
             List.filter (has_title t) desc = List.filter (has_title t) ps).
Proof.
  intros Hc. cbv zeta.
  change (applySorting localeCompare Date_getTime ps "name-asc")
    with (ArraySort.sort (cmp_name_asc localeCompare) ps).
  change (applySorting localeCompare Date_getTime ps "name-desc")
    with (ArraySort.sort (cmp_name_desc localeCompare) ps).
  assert (Hall : Forall (fun p => title p ∈ (title <$> ps)) ps).
  { apply Forall_forall. intros p Hp. apply list_elem_of_fmap. eauto. }
  destruct Hc as [Hasym Htrans].
  split; [apply SortFacts.sort_perm |].
  split.
  { apply sorted_in_order.
    apply (SortOnFacts.sort_sorted_on _ (fun p => title p ∈ (title <$> ps)));
      [| | exact Hall].
    - intros x y Hx Hy. apply Hasym; assumption.
    - intros x y z Hx Hy Hz. apply Htrans; assumption. }
  split; [apply SortFacts.sort_perm |].
  split.
  { apply sorted_in_order.
    apply (SortOnFacts.sort_sorted_on _ (fun p => title p ∈ (title <$> ps)));
      [| | exact Hall].
    - intros x y Hx Hy. apply Hasym; assumption.
    - intros x y z Hx Hy Hz H1 H2.
      exact (Htrans _ _ _ Hz Hy Hx H2 H1). }
  intros t. split.
  - apply (name_stable false ps t (conj Hasym Htrans)).
  - apply (name_stable true ps t (conj Hasym Htrans)).
Qed.

(** *** Sorting by creation date *)

Lemma after_newest x y :
  Date_getTime (createdAt x) <> NaN -> Date_getTime (createdAt y) <> NaN ->
  ArraySort.after (cmp_newest Date_getTime) x y
  = Num.gt (Date_getTime (createdAt y)) (Date_getTime (createdAt x)).
Proof.
  intros Hx Hy. unfold ArraySort.after, cmp_newest.
  apply NumFacts.gt_sub; assumption.
Qed.

Lemma sub_self_not_gt a : Num.gt (Num.sub a a) Num.zero = false.
Proof.
  destruct a as [| [] | q]; try reflexivity.
  unfold Num.gt. simpl. rewrite NumFacts.Qcompare_sub.
  destruct (q ?= q)%Q eqn:E; try reflexivity.
  apply Qgt_alt in E. lra.
Qed.

(** [newest]: when every creation date of the collection is a date
    [Date] can read, the result is the collection from the newest to the
    oldest, and products created at the same instant as written keep the
    order they had. *)
Theorem applySorting_newest ps :
  (forall p, p ∈ ps -> Date_getTime (createdAt p) <> NaN) ->
  let out := applySorting localeCompare Date_getTime ps "newest" in
  Permutation ps out /\
  in_order (fun x y => Num.ge (Date_getTime (createdAt x))
                              (Date_getTime (createdAt y)) = true) out /\
  (forall s, List.filter (created_at s) out = List.filter (created_at s) ps).
Proof.
  intros Hdates. cbv zeta.
  change (applySorting localeCompare Date_getTime ps "newest")
    with (ArraySort.sort (cmp_newest Date_getTime) ps).
  split; [apply SortFacts.sort_perm |]. split.
  - set (valid := fun p : Product => Date_getTime (createdAt p) <> NaN).
    assert (Hs : StronglySorted (ArraySort.not_after (cmp_newest Date_getTime))
                   (ArraySort.sort (cmp_newest Date_getTime) ps)).
    { apply (SortOnFacts.sort_sorted_on _ valid).
      - intros x y Hx Hy. rewrite !after_newest by assumption.
        apply NumFacts.gt_asym.
      - intros x y z Hx Hy Hz. rewrite !after_newest by assumption.
        intros H1 H2. exact (NumFacts.not_gt_trans _ _ _ Hz Hy Hx H2 H1).
      - apply Forall_forall. intros p Hp. apply Hdates, Hp. }
    intros i j x y Hij Hi Hj.
    pose proof (SortFacts.StronglySorted_lookup _ _ Hs i j x y Hij Hi Hj) as H.
    assert (Hx : valid x).
    { apply Hdates. apply list_elem_of_In.
      apply (SortFacts.sort_In (cmp_newest Date_getTime)).
      apply list_elem_of_In. eapply list_elem_of_lookup_2, Hi. }
    assert (Hy : valid y).
    { apply Hdates. apply list_elem_of_In.
      apply (SortFacts.sort_In (cmp_newest Date_getTime)).
      apply list_elem_of_In. eapply list_elem_of_lookup_2, Hj. }
    unfold ArraySort.not_after in H. rewrite after_newest in H by assumption.
    rewrite <- NumFacts.le_ge. apply NumFacts.not_gt_le; assumption.
  - intros s. apply SortFacts.sort_stable. intros x y Hx Hy.
    unfold created_at in Hx, Hy. apply String.eqb_eq in Hx, Hy.
    unfold ArraySort.after, cmp_newest. rewrite Hx, Hy.
    apply sub_self_not_gt.
Qed.

(** *** The pages of one query *)

Lemma concat_pages {A} (L : nat) (l : list A) : forall k,
  concat ((fun i => firstn L (skipn (i * L) l)) <$> seq 0 k)
  = firstn (k * L) l.
Proof.
  induction k as [| k IH]; [reflexivity |].
  rewrite seq_S, fmap_app, concat_app, IH. simpl.
  rewrite app_nil_r.
  replace (L + k * L)%nat with (k * L + L)%nat by lia.
  rewrite <- (take_drop (k * L) (firstn (k * L + L) l)).
  f_equal.
  - rewrite take_take. f_equal. lia.
  - rewrite skipn_firstn_comm. f_equal. lia.
Qed.

Lemma page_items ps query f i limit sortBy t0 t1 :
  1 <= limit -> 1 <= i ->
  products (search lower fuse_search localeCompare Date_getTime ps query f i limit
                   sortBy t0 t1)
  = firstn (Z.to_nat limit)
           (skipn (Z.to_nat (i - 1) * Z.to_nat limit)
                  (applySorting localeCompare Date_getTime
                     (applyFilters lower (candidates fuse_search ps query) f)
                     sortBy)).
Proof.
  intros Hl Hi. rewrite SearchFacts.search_unfold. cbv zeta. cbn [products].
  rewrite SearchFacts.slice_from by nia.
  do 2 f_equal. nia.
Qed.

(** The pages of a search, for a limit of at least 1: the pages 1 to
    [totalPages], one after the other, are the whole sorted result, each
    product once; every page before the last is full; and the last page
    is not empty. *)
Theorem search_pages_partition ps query f limit sortBy t0 t1 :
  1 <= limit ->
  let all := applySorting localeCompare Date_getTime
               (applyFilters lower (candidates fuse_search ps query) f) sortBy in
  let page_of i :=
    products (search lower fuse_search localeCompare Date_getTime ps query f i
                     limit sortBy t0 t1) in
  exists k,
    0 <= k /\
    (forall i, totalPages (search lower fuse_search localeCompare Date_getTime ps
                                  query f i limit sortBy t0 t1)
               = Num.of_Z k) /\
    concat (page_of <$> (Z.of_nat <$> seq 1 (Z.to_nat k))) = all /\
    (forall i, 1 <= i < k -> Z.of_nat (List.length (page_of i)) = limit) /\
    (1 <= k -> 1 <= Z.of_nat (List.length (page_of k)) <= limit).
Proof.
  intros Hl all page_of.
  set (n := Z.of_nat (List.length all)).
  destruct (SearchFacts.ceil_div_spec n limit ltac:(lia)) as (k & Hk & Hlo & Hhi).
  assert (Hk0 : 0 <= k) by (unfold n in *; nia).
  exists k. split; [exact Hk0 |]. split; [| split; [| split]].
  - intros i. rewrite SearchFacts.search_unfold. exact Hk.
  - rewrite <- list_fmap_compose.
    rewrite <- (fmap_S_seq 0), <- list_fmap_compose.
    erewrite (list_fmap_ext _ (fun i => firstn (Z.to_nat limit)
                                 (skipn (i * Z.to_nat limit) all))).
    + rewrite concat_pages. apply take_ge. unfold n in *. nia.
    + intros i x _. unfold compose, page_of.
      rewrite page_items by lia. do 2 f_equal. lia.
  - intros i Hi. unfold page_of. rewrite page_items by lia.
    fold all. rewrite length_take, length_drop. unfold n in *. nia.
  - intros Hk1. unfold page_of. rewrite page_items by lia.
    fold all. rewrite length_take, length_drop. unfold n in *. nia.
Qed.

End WithLibraries.

(** *** Filters compose *)

Lemma filter_sublist {A} (P : A -> bool) (l : list A) :
  sublist (List.filter P l) l.
Proof.
  induction l as [| x t IH]; simpl; [constructor |].
  destruct (P x); [apply sublist_skip | apply sublist_cons]; exact IH.
Qed.

(** [applyFilters] only ever removes products: its result is the input
    with some products left out, in the same order.  Filtering twice by
    the same filters changes nothing more, two sets of filters can be
    applied in either order, and filters that are all unset, or set to
    the empty string or to [false], keep everything. *)
Theorem applyFilters_composes lower ps f g :
  sublist (applyFilters lower ps f) ps /\
  applyFilters lower (applyFilters lower ps f) f = applyFilters lower ps f /\
  applyFilters lower (applyFilters lower ps f) g
  = applyFilters lower (applyFilters lower ps g) f /\
  applyFilters lower ps no_filters = ps /\
  applyFilters lower ps {| f_vendor := Some EmptyString;
                           f_productType := Some EmptyString;
                           f_minPrice := None; f_maxPrice := None;
                           f_inStock := Some false |} = ps.
Proof.
  rewrite !FilterFacts.applyFilters_keeps.
  split; [apply filter_sublist |].
  split.
  { rewrite FilterFacts.filter_filter. apply FilterFacts.filter_ext_bool.
    intros x. apply andb_diag. }
  split.
  { rewrite !FilterFacts.filter_filter. apply FilterFacts.filter_ext_bool.
    intros x. apply andb_comm. }
  split; [apply FilterFacts.filter_true |].
  apply FilterFacts.filter_all. reflexivity.
Qed.

(** *** Suggestions: what is offered, and in which order *)

Lemma matching_elem lower query get ps s :
  s ∈ matching lower query get ps
  <-> exists p, p ∈ ps /\ s = get p /\ occurs_in (lower query) (lower s).
Proof.
  unfold matching, suggests.
  rewrite list_elem_of_In, filter_In, <- list_elem_of_In, list_elem_of_fmap.
  rewrite TextFacts.includes_spec.
  split.
  - intros [(p & -> & Hp) Hs]. eauto.
  - intros (p & Hp & -> & Hs). split; [eauto | exact Hs].
Qed.

(** [getSearchSuggestions] offers, for an ASCII query of at least two
    characters that is not blank and a limit that is not negative, the
    first [limit] entries of this list: the matching titles, then the
    matching vendors, then the matching product types, each string once
    at its first position; a string matches when, both in lower case, the
    query occurs in it.  So every title, vendor or product type that
    contains the query, whatever the case of the letters, is offered when
    the limit allows; and a query of fewer than two code units gets no
    suggestion. *)
Theorem getSearchSuggestions_complete lower ps query limit :
  let out := getSearchSuggestions lower ps query limit in
  let full := all_suggestions lower query ps in
  (utf16_length query < 2 -> out = []) /\
  (forall s, s ∈ full <->
     exists p, p ∈ ps /\
       (s = title p \/ s = vendor p \/ s = productType p) /\
       occurs_in (lower query) (lower s)) /\
  (ascii_text query -> ~ blank query -> 2 <= utf16_length query ->
   0 <= limit ->
   out = firstn (Z.to_nat limit) full /\
   (Z.of_nat (List.length full) <= limit -> out = full)).
Proof.
  cbv zeta. split; [| split].
  - intros Hlen. unfold getSearchSuggestions.
    apply Z.ltb_lt in Hlen. rewrite Hlen, orb_true_r. reflexivity.
  - intros s. unfold all_suggestions.
    rewrite SetFacts.new_Set_elem, !elem_of_app, !matching_elem.
    split.
    + intros [(p & Hp & -> & Hs) | [(p & Hp & -> & Hs) | (p & Hp & -> & Hs)]];
        exists p; auto.
    + intros (p & Hp & [-> | [-> | ->]] & Hs); eauto 8.
  - intros _ Hnb Hlen Hlim.
    assert (E : getSearchSuggestions lower ps query limit
                = firstn (Z.to_nat limit) (all_suggestions lower query ps)).
    { rewrite SuggestFacts.getSearchSuggestions_slice by assumption.
      replace limit with (0 + limit) at 1 by lia.
      rewrite SearchFacts.slice_from by lia. reflexivity. }
    split; [exact E |].
    intros Hfit. rewrite E. apply take_ge. lia.
Qed.

(** The stand-in for [localeCompare] is a consistent ordering. *)
Lemma sample_localeCompare_consistent ks :
  consistent_on Fixtures.sample_localeCompare ks.
Proof.
  assert (Hgt : forall a b,
            Num.gt (Fixtures.sample_localeCompare a b) Num.zero = true
            <-> String.compare (toLowerCase a) (toLowerCase b) = Gt).
  { intros a b. unfold Fixtures.sample_localeCompare.
    destruct (String.compare _ _); split; intros H;
      try discriminate; reflexivity. }
  assert (Hng : forall a b,
            Num.gt (Fixtures.sample_localeCompare a b) Num.zero = false
            <-> String.compare (toLowerCase a) (toLowerCase b) <> Gt).
  { intros a b. rewrite <- Hgt. destruct (Num.gt _ _); split; congruence. }
  split.
  - intros a b _ _ H. apply Hgt in H.
    apply Hng, StringOrder.compare_gt_asym, H.
  - intros a b c _ _ _ H1 H2. apply Hng. apply Hng in H1, H2.
    exact (StringOrder.compare_le_trans _ _ _ H1 H2).
Qed.

Lemma applySorting_permutation_witness :
  applySorting Fixtures.sample_localeCompare Fixtures.sample_getTime
               Fixtures.mockProducts "cheapest" = Fixtures.mockProducts.
Proof.
  apply (applySorting_permutation Fixtures.sample_localeCompare
           Fixtures.sample_getTime Fixtures.mockProducts "cheapest").
  unfold sort_keys. intros H.
  repeat (apply elem_of_cons in H as [H | H]; [discriminate |]).
  inversion H.
Defined.

Lemma applySorting_by_name_witness :
  Permutation Fixtures.mockProducts
    (applySorting Fixtures.sample_localeCompare Fixtures.sample_getTime
                  Fixtures.mockProducts "name-asc").
Proof.
  apply (applySorting_by_name Fixtures.sample_localeCompare
           Fixtures.sample_getTime Fixtures.mockProducts).
  apply sample_localeCompare_consistent.
Defined.

Lemma applySorting_newest_witness :
  Permutation Fixtures.mockProducts
    (applySorting Fixtures.sample_localeCompare Fixtures.sample_getTime
                  Fixtures.mockProducts "newest").
Proof.
  refine (proj1 (applySorting_newest Fixtures.sample_localeCompare
                   Fixtures.sample_getTime Fixtures.mockProducts _)).
  intros p _. discriminate.
Defined.

Lemma search_pages_partition_witness :
  exists k,
    0 <= k /\
    concat ((fun i => products (Fixtures.run EmptyString no_filters i 3
                                             "price-asc"))
            <$> (Z.of_nat <$> seq 1 (Z.to_nat k)))
    = applySorting Fixtures.sample_localeCompare Fixtures.sample_getTime
                   Fixtures.mockProducts "price-asc".
Proof.
  destruct (search_pages_partition Fixtures.sample_toLowerCase
              Fixtures.sample_fuse
              Fixtures.sample_localeCompare Fixtures.sample_getTime
              Fixtures.mockProducts EmptyString no_filters 3 "price-asc" 0 1
              ltac:(lia)) as (k & Hk & _ & Hcat & _).
  exists k. split; [exact Hk | exact Hcat].
Defined.

Lemma getSearchSuggestions_complete_witness :
  getSearchSuggestions Fixtures.sample_toLowerCase Fixtures.mockProducts
                       "ap" 5
  = all_suggestions Fixtures.sample_toLowerCase "ap" Fixtures.mockProducts.
Proof.
  destruct (getSearchSuggestions_complete Fixtures.sample_toLowerCase
              Fixtures.mockProducts "ap" 5)
    as (_ & _ & H).
  apply H.
  - SearchFacts.ascii_text.
  - intros Hb. inversion Hb as [| ? ? Hc _]. discriminate.
  - vm_compute. discriminate.
  - lia.
  - vm_compute. discriminate.
Defined.

End ResultFacts.

(* ===================================================================== *)
(** ** The row transform: what an accepted record looks like *)
(* ===================================================================== *)

Module RecordFacts.
Import Str Parse Js Types Transform TransformSpec RecordSpec.

(** *** Characters of a string *)

Lemma chars_of_to_string l : of_string (to_string l) = l.
Proof. apply list_ascii_of_string_of_list_ascii. Qed.

Lemma to_of_string s : to_string (of_string s) = s.
Proof. apply string_of_list_ascii_of_string. Qed.

Lemma of_string_length s : List.length (of_string s) = String.length s.
Proof. induction s as [| c s IH]; simpl; congruence. Qed.

Lemma of_string_substring n s :
  of_string (String.substring 0 n s) = firstn n (of_string s).
Proof.
  revert s. induction n as [| n IH]; intros [| c s]; simpl;
    try reflexivity.
  f_equal. apply IH.
Qed.

(** *** Stripping tags *)

Lemma has_gt_cons c t : has_gt (c :: t) = Ascii.eqb ">" c || has_gt t.
Proof. reflexivity. Qed.

Lemma has_tag_cons c t :
  has_tag (c :: t) = (Ascii.eqb c "<" && has_gt t) || has_tag t.
Proof. reflexivity. Qed.

Lemma has_gt_no_tag l : has_gt l = false -> has_tag l = false.
Proof.
  induction l as [| c t IH]; [reflexivity |].
  rewrite has_gt_cons, has_tag_cons. intros H.
  apply orb_false_iff in H as [_ H].
  rewrite (IH H), H, andb_false_r. reflexivity.
Qed.

Lemma strip_false_cons c t :
  strip false (c :: t)
  = if Ascii.eqb c "<" then (if has_gt t then strip true t else c :: t)
    else c :: strip false t.
Proof. reflexivity. Qed.

Lemma strip_true_cons c t :
  strip true (c :: t)
  = if Ascii.eqb c ">" then strip false t else strip true t.
Proof. reflexivity. Qed.

Lemma strip_no_tag l :
  has_tag (strip false l) = false /\ has_tag (strip true l) = false.
Proof.
  induction l as [| c t [IHf IHt]]; [auto |].
  rewrite strip_false_cons, strip_true_cons. split.
  - destruct (Ascii.eqb c "<") eqn:Ec.
    + destruct (has_gt t) eqn:Eg; [exact IHt |].
      rewrite has_tag_cons, Ec, Eg. apply has_gt_no_tag, Eg.
    + rewrite has_tag_cons, Ec. exact IHf.
  - destruct (Ascii.eqb c ">"); assumption.
Qed.

Lemma strip_tag_free l : has_tag l = false -> strip false l = l.
Proof.
  induction l as [| c t IH]; [reflexivity |].
  rewrite has_tag_cons, strip_false_cons.
  intros H. apply orb_false_iff in H as [H1 H2].
  destruct (Ascii.eqb c "<") eqn:Ec.
  - simpl in H1. rewrite H1. reflexivity.
  - rewrite (IH H2). reflexivity.
Qed.

Lemma has_gt_firstn n l : has_gt l = false -> has_gt (firstn n l) = false.
Proof.
  revert l. induction n as [| n IH]; intros [| c t]; try reflexivity.
  rewrite firstn_cons, !has_gt_cons.
  intros H. apply orb_false_iff in H as [H1 H2].
  rewrite H1, (IH t H2). reflexivity.
Qed.

Lemma has_gt_firstn_true n l : has_gt (firstn n l) = true -> has_gt l = true.
Proof.
  intros H. destruct (has_gt l) eqn:E; [reflexivity |].
  rewrite (has_gt_firstn n l E) in H. discriminate.
Qed.

Lemma has_tag_firstn n l : has_tag l = false -> has_tag (firstn n l) = false.
Proof.
  revert l. induction n as [| n IH]; intros [| c t]; try reflexivity.
  rewrite firstn_cons, !has_tag_cons.
  intros H. apply orb_false_iff in H as [H1 H2].
  rewrite (IH t H2), orb_false_r.
  destruct (Ascii.eqb c "<"); [| reflexivity]. simpl in *.
  destruct (has_gt (firstn n t)) eqn:E; [| reflexivity].
  apply has_gt_firstn_true in E. congruence.
Qed.

(** A text that starts with [h] is not JSON: no JSON word does. *)
Lemma lex_word_h s : forall acc out,
  (exists r, rev acc = "h"%char :: r) ->
  Json.lex_from (Json.InWord acc, out) s = None.
Proof.
  assert (Hw : forall acc, (exists r, rev acc = "h"%char :: r) ->
                 Json.json_word (to_string (rev acc)) = None).
  { intros acc [r ->]. reflexivity. }
  induction s as [| c t IH]; intros acc out Hacc.
  - simpl. rewrite (Hw acc Hacc). reflexivity.
  - cbn [Json.lex_from Json.lex_step].
    destruct (Json.is_lower c).
    + simpl. apply IH. destruct Hacc as [r Hr]. simpl. rewrite Hr.
      eexists. reflexivity.
    + cbn [Json.flush]. rewrite (Hw acc Hacc). reflexivity.
Qed.

Lemma http_not_json s : startsWith "http" s = true -> Json.parse s = None.
Proof.
  intros Hh. destruct s as [| c s]; [discriminate |].
  unfold startsWith in Hh. cbn [String.prefix] in Hh.
  destruct (Ascii.ascii_dec "h" c) as [<- | ?]; [| discriminate].
  unfold Json.parse, Json.lex. simpl of_string.
  change (Json.lex_from (Json.Idle, []) ("h"%char :: of_string s))
    with (Json.lex_from (Json.InWord ["h"%char], []) (of_string s)).
  rewrite lex_word_h; [reflexivity |]. exists []. reflexivity.
Qed.

Lemma strip_tags_tag_free s : tag_free (strip_tags s).
Proof.
  unfold tag_free, strip_tags. rewrite chars_of_to_string. apply strip_no_tag.
Qed.

Lemma substring0_tag_free n s : tag_free s -> tag_free (substring0 n s).
Proof.
  unfold tag_free, substring0. rewrite of_string_substring.
  apply has_tag_firstn.
Qed.

Lemma substring0_length n s :
  Z.of_nat (String.length (substring0 n s)) <= Z.max 0 n.
Proof.
  unfold substring0. rewrite <- of_string_length, of_string_substring.
  rewrite length_take. lia.
Qed.

Lemma substring0_short n s :
  Z.of_nat (String.length s) <= n -> substring0 n s = s.
Proof.
  intros H. rewrite <- (to_of_string (substring0 n s)).
  unfold substring0. rewrite of_string_substring, take_ge.
  - apply to_of_string.
  - rewrite of_string_length. lia.
Qed.

(** *** Trimming and splitting *)











Section Facts.
Variable nts : Q -> string.

Lemma transformRow_accepted row config p :
  transformRow nts row config = Some p ->
  truthy (row !! "ID") = true /\ truthy (row !! "TITLE") = true.
Proof.
  intros H.
  destruct (truthy (row !! "ID")) eqn:Eid.
  - destruct (truthy (row !! "TITLE")) eqn:Et; [auto |].
    unfold transformRow in H.
    rewrite TransformFacts.transformRow_try_guard in H by auto.
    discriminate.
  - unfold transformRow in H.
    rewrite TransformFacts.transformRow_try_guard in H by auto.
    discriminate.
Qed.

(** On ASCII text a byte is a code unit. *)
Lemma utf16_length_ascii s :
  SearchSpec.ascii_text s -> utf16_length s = Z.of_nat (String.length s).
Proof.
  unfold SearchSpec.ascii_text, utf16_length. rewrite <- of_string_length.
  induction 1 as [| c t Hc _ IH]; [reflexivity |].
  cbn [fold_right List.length]. rewrite IH. unfold units_of_byte.
  destruct (Nat.leb_spec 128 (nat_of_ascii c)); [lia |].
  cbn [andb]. destruct (Nat.leb_spec 240 (nat_of_ascii c)); lia.
Qed.

Lemma ascii_text_firstn n l :
  Forall (fun c => (nat_of_ascii c < 128)%nat) l ->
  Forall (fun c => (nat_of_ascii c < 128)%nat) (firstn n l).
Proof. intros H. apply Forall_take, H. Qed.

Lemma substring0_ascii n s :
  SearchSpec.ascii_text s -> SearchSpec.ascii_text (substring0 n s).
Proof.
  unfold SearchSpec.ascii_text, substring0. rewrite of_string_substring.
  apply ascii_text_firstn.
Qed.

(** The description of a record whose description text is ASCII: the
    first [maxDescriptionLength] characters of the description cell with
    its tags removed.  It is never longer than the configured maximum, it
    holds no tag (stripping it again changes nothing), and a text that
    was short enough is kept whole. *)
Theorem transformRow_description row config p :
  transformRow nts row config = Some p ->
  SearchSpec.ascii_text (extractDescription nts row) ->
  let stripped := extractDescription nts row in
  description p = substring0 (maxDescriptionLength config) stripped /\
  utf16_length (description p) <= Z.max 0 (maxDescriptionLength config) /\
  tag_free (description p) /\
  strip_tags (description p) = description p /\
  (utf16_length stripped <= maxDescriptionLength config ->
   description p = stripped).
Proof.
  intros H Hascii.
  destruct (transformRow_accepted row config p H) as [Hid Ht].
  destruct (TransformFacts.transformRow_try_accepts nts row config Hid Ht)
    as (pr & im & tg & inv & oos & gc & fi & _ & _ & _ & _ & _ & _ & _ & Htry).
  unfold transformRow in H. rewrite Htry in H. injection H as <-.
  cbn [description]. cbv zeta.
  assert (Hfree : tag_free (substring0 (maxDescriptionLength config)
                                       (extractDescription nts row))).
  { apply substring0_tag_free. unfold extractDescription.
    apply strip_tags_tag_free. }
  split; [reflexivity |]. split.
  { rewrite utf16_length_ascii by (apply substring0_ascii, Hascii).
    apply substring0_length. }
  split; [exact Hfree |]. split.
  - unfold strip_tags. rewrite strip_tag_free by exact Hfree.
    apply to_of_string.
  - rewrite utf16_length_ascii by exact Hascii. apply substring0_short.
Qed.

(** *** Images *)

Lemma slice_0_length {A} (n : Z) (l : list A) :
  0 <= n -> Z.of_nat (List.length (slice 0 n l)) <= n.
Proof. apply SuggestFacts.slice_length. Qed.

Ltac image_clauses Hhttp :=
  (split; [reflexivity |]); (split; [try (simpl; lia) |]);
  (split; [intros ? ? Hs Hq; injection Hs as <-; simpl; congruence |]);
  (split; [intros ? ? Hs Hq Hw; injection Hs as <-; simpl; congruence |]);
  (split; [intros ? Hs Hh; injection Hs as <-;
           first [reflexivity | congruence | destruct (Hhttp Hh)] |]);
  intros ? Hq; discriminate.

(** [parseImages] never throws.  A JSON array gives its first
    [maxImages] items, whatever they are; a bare [http] address, quoted
    as a JSON string or not, gives that one address even when
    [maxImages] is 0; a number cell gives no image.  So for a limit that
    is not negative a record has at most [maxImages] images, or one. *)
Theorem parseImages_bound f maxImages :
  exists imgs, parseImages f maxImages = Ok imgs /\
    (0 <= maxImages ->
     Z.of_nat (List.length imgs) <= Z.max 1 maxImages) /\
    (forall s items, f = Some (CStr s) ->
       Json.parse s = Some (JArr items) ->
       imgs = slice 0 maxImages items) /\
    (forall s w, f = Some (CStr s) ->
       Json.parse s = Some (JStr w) -> startsWith "http" w = true ->
       imgs = [JStr w]) /\
    (forall s, f = Some (CStr s) -> startsWith "http" s = true ->
       imgs = [JStr s]) /\
    (forall q, f = Some (CNum q) -> imgs = []).
Proof.
  destruct f as [[s | q] |].
  - unfold parseImages.
    destruct (negb (truthy (Some (CStr s)))) eqn:Etr.
    + apply negb_true_iff in Etr. simpl in Etr.
      apply negb_false_iff, String.eqb_eq in Etr. subst s.
      assert (Hhttp : startsWith "http" EmptyString = true -> False)
        by discriminate.
      assert (Ep : Json.parse EmptyString = None) by reflexivity.
      exists []. image_clauses Hhttp.
    + unfold mbind, res_bind, JSON_parse.
      destruct (Json.parse s) as [j |] eqn:Ep; simpl.
      * assert (Hhttp : startsWith "http" s = true -> False).
        { intros Hh. rewrite (http_not_json s Hh) in Ep. discriminate. }
        destruct j as [| b | n | w | items | fs]; simpl;
          try (exists []; image_clauses Hhttp).
        -- destruct (startsWith "http" w) eqn:Ew;
             eexists; image_clauses Hhttp.
        -- exists (slice 0 maxImages items). split; [reflexivity |].
           split; [intros Hn; pose proof (slice_0_length maxImages items Hn);
                   lia |].
           split; [intros ? ? Hs Hq; injection Hs as <-; congruence |].
           split; [intros ? ? Hs Hq; injection Hs as <-; congruence |].
           split; [intros ? Hs Hh; injection Hs as <-; destruct (Hhttp Hh) |].
           intros ? Hq; discriminate.
      * assert (Hhttp : True -> False -> False) by tauto.
        destruct (startsWith "http" s) eqn:Eh;
          eexists; (split; [reflexivity |]); (split; [simpl; lia |]);
          (split; [intros ? ? Hs Hq; injection Hs as <-; congruence |]);
          (split; [intros ? ? Hs Hq; injection Hs as <-; congruence |]);
          (split; [intros ? Hs Hh; injection Hs as <-;
                   first [reflexivity | congruence] |]);
          intros ? Hq; discriminate.
  - exists []. unfold parseImages.
    split; [destruct (negb (truthy (Some (CNum q)))); reflexivity |].
    split; [simpl; lia |].
    split; [intros ? ? Hs; discriminate |].
    split; [intros ? ? Hs; discriminate |].
    split; [intros ? Hs; discriminate | reflexivity].
  - exists []. split; [reflexivity |]. split; [simpl; lia |].
    split; [intros ? ? Hs; discriminate |].
    split; [intros ? ? Hs; discriminate |].
    split; [intros ? Hs; discriminate | intros ? Hs; discriminate].
Qed.

(** *** Tags *)


(** *** Figures of a record *)

Lemma of_integer_whole z : whole (Num.of_integer z).
Proof.
  unfold whole, Num.of_integer.
  destruct (Z.abs z <? 2 ^ 53); [left; eauto |].
  cbv zeta.
  match goal with |- context [if ?b then Inf _ else _] => destruct b end;
    [right | left]; eauto.
Qed.

(** A record made by [transformRow] carries no single price, so its
    prices are those of its range; its inventory is a whole number (or
    an infinity, for digits beyond the range of a number) and never
    [NaN], whatever the inventory cell held; and the two flags are
    set. *)
Theorem transformRow_figures row config p :
  transformRow nts row config = Some p ->
  price p = None /\
  (exists n, totalInventory p = Some n /\ whole n /\ n <> NaN) /\
  (exists b, hasOutOfStockVariants p = Some b) /\
  (exists b, isGiftCard p = Some b) /\
  Catalog.getProductPrice p = SearchSpec.known (max (priceRange p)).
Proof.
  intros H. destruct (transformRow_accepted row config p H) as [Hid Ht].
  destruct (TransformFacts.transformRow_try_accepts nts row config Hid Ht)
    as (pr & im & tg & inv & oos & gc & fi
        & _ & _ & _ & Hinv & _ & _ & _ & Htry).
  unfold transformRow in H. rewrite Htry in H. injection H as <-.
  cbn [price totalInventory hasOutOfStockVariants isGiftCard].
  split; [reflexivity |]. split.
  { assert (Hw : whole inv).
    { unfold parseInventory in Hinv.
      destruct (row !! "TOTAL_INVENTORY") as [c |];
        [| injection Hinv as <-; left; exists 0; reflexivity].
      destruct (negb (truthy (Some c)));
        [injection Hinv as <-; left; exists 0; reflexivity |].
      destruct (parseInt (toString nts c)) as [z |]; injection Hinv as <-;
        [apply of_integer_whole | left; exists 0; reflexivity]. }
    exists inv. split; [reflexivity |]. split; [exact Hw |].
    destruct Hw as [[z ->] | [s ->]]; discriminate. }
  split; [eauto |]. split; [eauto |].
  unfold Catalog.getProductPrice, SearchSpec.known, SearchEngine.num_or,
         Num.or_else.
  cbn [price priceRange]. reflexivity.
Qed.

End Facts.

Lemma transformRow_description_witness :
  exists p, transformRow Fixtures.show_Q Fixtures.valid_row DEFAULT_CONFIG
            = Some p /\
            description p = "Test Description" /\ tag_free (description p).
Proof.
  eexists. split; [vm_compute; reflexivity |].
  assert (Hascii : SearchSpec.ascii_text (extractDescription Fixtures.show_Q
                                                  Fixtures.valid_row)).
  { assert (E : extractDescription Fixtures.show_Q Fixtures.valid_row
                = "Test Description") by (vm_compute; reflexivity).
    rewrite E. SearchFacts.ascii_text. }
  destruct (transformRow_description Fixtures.show_Q Fixtures.valid_row
              DEFAULT_CONFIG _ ltac:(vm_compute; reflexivity) Hascii)
    as (_ & _ & Hfree & _).
  split; [reflexivity | exact Hfree].
Defined.

Lemma parseImages_bound_witness :
  exists imgs,
    parseImages (Some (CStr "https://example.com/a.jpg")) 0 = Ok imgs /\
    Z.of_nat (List.length imgs) <= 1.
Proof.
  destruct (parseImages_bound (Some (CStr "https://example.com/a.jpg")) 0)
    as (imgs & Hp & Hlen & _).
  exists imgs. split; [exact Hp |]. apply Hlen. lia.
Defined.


Lemma transformRow_figures_witness :
  exists p, transformRow Fixtures.show_Q Fixtures.malformed_row DEFAULT_CONFIG
            = Some p /\
            price p = None /\ totalInventory p = Some (Num.of_Z 0).
Proof.
  eexists. split; [vm_compute; reflexivity |].
  destruct (transformRow_figures Fixtures.show_Q Fixtures.malformed_row
              DEFAULT_CONFIG _ ltac:(vm_compute; reflexivity))
    as (Hprice & _).
  split; [exact Hprice | reflexivity].
Defined.

End RecordFacts.

(* ===================================================================== *)
(** ** The processor: chunks, result and metadata *)
(* ===================================================================== *)

Module ProcessorFacts.
Import Str Js Types Transform Fs CsvProcessor ProcessorSpec.

Section Stream.
Variable nts : Q -> string.
Variable config : ProcessingConfig.

Lemma accepted_cons row rows :
  accepted nts config (row :: rows)
  = match transformRow nts row config with
    | Some p => p :: accepted nts config rows
    | None => accepted nts config rows
    end.
Proof. reflexivity. Qed.

Lemma accepted_length rows :
  (List.length (accepted nts config rows) <= List.length rows)%nat.
Proof.
  induction rows as [| row rows IH]; [reflexivity |].
  rewrite accepted_cons. destruct (transformRow nts row config); simpl; lia.
Qed.

(** What the loop of the generator keeps true, row after row. *)
Lemma stream_fold rows : forall g,
  let g' := fold_left (stream_row nts config) rows g in
  (concat (yielded g') ++ chunk g'
   = concat (yielded g) ++ chunk g ++ accepted nts config rows)%list /\
  rejected g' = rejected g + rejections nts config rows /\
  (exists more, yielded g' = (yielded g ++ more)%list) /\
  (Forall (fun c => c <> []) (yielded g) ->
   Forall (fun c => c <> []) (yielded g')) /\
  (1 <= chunkSize config ->
   Forall (fun c => Z.of_nat (List.length c) = chunkSize config) (yielded g) ->
   Z.of_nat (List.length (chunk g)) < chunkSize config ->
   Forall (fun c => Z.of_nat (List.length c) = chunkSize config) (yielded g')
   /\ Z.of_nat (List.length (chunk g')) < chunkSize config) /\
  (chunkSize config <= 1 ->
   Forall (fun c => List.length c = 1%nat) (yielded g) -> chunk g = [] ->
   Forall (fun c => List.length c = 1%nat) (yielded g') /\ chunk g' = []).
Proof.
  unfold rejections.
  induction rows as [| row rows IH]; intros g; cbn [fold_left].
  - cbv zeta. simpl. rewrite app_nil_r.
    repeat split; try tauto; try lia.
    exists []. rewrite app_nil_r. reflexivity.
  - specialize (IH (stream_row nts config g row)). cbv zeta in IH |- *.
    destruct IH as (Hcat & Hrej & (more & Hmore) & Hne & Hfull & Hone).
    rewrite accepted_cons.
    unfold stream_row in *.
    destruct (transformRow nts row config) as [p |].
    + destruct (chunkSize config
                <=? Z.of_nat (List.length (chunk g ++ [p])%list)) eqn:Efull;
        cbn [chunk yielded rejected processedCount] in *.
      * apply Z.leb_le in Efull.
        split; [| split; [| split; [| split; [| split]]]].
        -- rewrite Hcat, concat_app. simpl.
           rewrite !app_nil_r, <- !app_assoc. reflexivity.
        -- rewrite Hrej. simpl List.length. lia.
        -- exists ([(chunk g ++ [p])%list] ++ more)%list.
           rewrite Hmore, <- app_assoc. reflexivity.
        -- intros H. apply Hne, Forall_app. split; [exact H |].
           constructor; [| constructor]. destruct (chunk g); discriminate.
        -- intros H1 Hy Hc. apply Hfull; [exact H1 | | simpl; lia].
           apply Forall_app. split; [exact Hy |].
           constructor; [| constructor].
           rewrite length_app in *. simpl in *. lia.
        -- intros H1 Hy Hc. apply Hone; [exact H1 | | reflexivity].
           apply Forall_app. split; [exact Hy |].
           constructor; [| constructor]. rewrite Hc. reflexivity.
      * apply Z.leb_gt in Efull.
        split; [| split; [| split; [| split; [| split]]]].
        -- rewrite Hcat, <- !app_assoc. reflexivity.
        -- rewrite Hrej. simpl List.length. lia.
        -- exists more. exact Hmore.
        -- exact Hne.
        -- intros H1 Hy Hc. apply Hfull; assumption.
        -- intros H1 Hy Hc. rewrite Hc in Efull. simpl in Efull. lia.
    + cbn [chunk yielded rejected processedCount] in *.
      split; [| split; [| split; [| split; [| split]]]];
        try assumption.
      * rewrite Hrej. simpl List.length. lia.
      * exists more. exact Hmore.
Qed.

(** What the consumer of the generator relies on. *)
Lemma stream_summary rows failure :
  let run := processCSVStream nts config (rows, failure) in
  run.2 = failure /\
  run.1.2 = rejections nts config rows /\
  (failure = None -> concat run.1.1 = accepted nts config rows).
Proof.
  cbv zeta. unfold processCSVStream. cbn [fst snd].
  set (g0 := {| chunk := []; processedCount := 0; yielded := [];
                rejected := 0 |}).
  destruct (stream_fold rows g0) as (Hcat & Hrej & _).
  cbv zeta in Hcat, Hrej.
  set (g := fold_left (stream_row nts config) rows g0) in *.
  simpl in Hcat, Hrej.
  destruct failure as [e |]; cbn [fst snd].
  - split; [reflexivity |]. split; [lia | discriminate].
  - split; [reflexivity |]. split; [lia |]. intros _.
    destruct (chunk g) as [| p rest] eqn:Ec; cbn [List.length Nat.ltb Nat.leb].
    + rewrite app_nil_r in Hcat. exact Hcat.
    + rewrite concat_app. simpl. rewrite app_nil_r. exact Hcat.
Qed.

(** The generator [processCSVStream] over the rows of a stream.  The
    chunks it yields are never empty; the rows it counts as errors are
    those the transform rejects.  When the stream ends without an error
    the chunks, one after the other, are exactly the accepted records in
    the order of the rows; for a chunk size of at least 1 every chunk
    but the last holds exactly [chunkSize] records and the last at most
    that many, and for a chunk size of 1 or less every chunk holds one
    record.  When the stream ends with an error, the error is passed on
    and the records of the unfinished chunk are never yielded. *)
Theorem processCSVStream_chunks rows failure :
  let run := processCSVStream nts config (rows, failure) in
  let chunks := run.1.1 in
  run.2 = failure /\
  run.1.2 = rejections nts config rows /\
  Forall (fun c => c <> []) chunks /\
  (failure = None -> concat chunks = accepted nts config rows) /\
  (failure <> None ->
   concat chunks `prefix_of` accepted nts config rows /\
   (1 <= chunkSize config ->
    Forall (fun c => Z.of_nat (List.length c) = chunkSize config) chunks)) /\
  (1 <= chunkSize config ->
   forall i c, chunks !! i = Some c ->
     Z.of_nat (List.length c) <= chunkSize config /\
     (S i < List.length chunks ->
      Z.of_nat (List.length c) = chunkSize config)%nat) /\
  (chunkSize config <= 1 ->
   Forall (fun c => List.length c = 1%nat) chunks).
Proof.
  cbv zeta. unfold processCSVStream. cbn [fst snd].
  set (g0 := {| chunk := []; processedCount := 0; yielded := [];
                rejected := 0 |}).
  destruct (stream_fold rows g0)
    as (Hcat & Hrej & _ & Hne & Hfull & Hone).
  cbv zeta in Hcat, Hrej, Hne, Hfull, Hone.
  set (g := fold_left (stream_row nts config) rows g0) in *.
  simpl in Hcat, Hrej. specialize (Hne (Forall_nil_2 _)).
  destruct failure as [e |]; cbn [fst snd].
  - split; [reflexivity |]. split; [lia |]. split; [exact Hne |].
    split; [discriminate |]. split; [| split].
    + intros _. split; [exists (chunk g); symmetry; exact Hcat |].
      intros H1. apply Hfull; [exact H1 | constructor | simpl; lia].
    + intros H1 i c Hi.
      destruct (Hfull H1 (Forall_nil_2 _) ltac:(simpl; lia)) as [Hall _].
      rewrite Forall_forall in Hall.
      assert (Hc := Hall c (list_elem_of_lookup_2 _ _ _ Hi)).
      split; [lia | intros _; exact Hc].
    + intros H1. apply Hone; [exact H1 | constructor | reflexivity].
  - split; [reflexivity |]. split; [lia |].
    destruct (chunk g) as [| p rest] eqn:Ec; cbn [List.length Nat.ltb Nat.leb].
    + rewrite app_nil_r in Hcat.
      split; [exact Hne |]. split; [intros _; exact Hcat |].
      split; [congruence |]. split.
      * intros H1 i c Hi.
        destruct (Hfull H1 (Forall_nil_2 _) ltac:(simpl; lia)) as [Hall _].
        rewrite Forall_forall in Hall.
        assert (Hc := Hall c (list_elem_of_lookup_2 _ _ _ Hi)).
        split; [lia | intros _; exact Hc].
      * intros H1. apply Hone; [exact H1 | constructor | reflexivity].
    + split; [apply Forall_app; split; [exact Hne |];
              constructor; [discriminate | constructor] |].
      split; [intros _; rewrite concat_app; simpl; rewrite app_nil_r;
              exact Hcat |].
      split; [congruence |]. split.
      * intros H1 i c Hi.
        destruct (Hfull H1 (Forall_nil_2 _) ltac:(simpl; lia)) as [Hall Hlast].
        rewrite Forall_forall in Hall.
        rewrite length_app. simpl List.length.
        apply lookup_app_Some in Hi as [Hi | [Hge Hi]].
        -- assert (Hc := Hall c (list_elem_of_lookup_2 _ _ _ Hi)).
           split; [lia | intros _; exact Hc].
        -- destruct (i - List.length (yielded g))%nat as [| k] eqn:Ek;
             [| destruct k; discriminate].
           injection Hi as <-. split; [lia | lia].
      * intros H1.
        destruct (Hone H1 (Forall_nil_2 _) eq_refl) as [_ Hnil]. discriminate.
Qed.

End Stream.

Lemma processCSVStream_chunks_witness :
  let run := processCSVStream Fixtures.show_Q Fixtures.small_chunks
               (Fixtures.sample_rows, None) in
  concat run.1.1
  = accepted Fixtures.show_Q Fixtures.small_chunks Fixtures.sample_rows /\
  Forall (fun c => List.length c = 1%nat) run.1.1.
Proof.
  destruct (processCSVStream_chunks Fixtures.show_Q Fixtures.small_chunks
              Fixtures.sample_rows None)
    as (_ & _ & _ & Hcat & _ & _ & Hone).
  split; [apply Hcat; reflexivity | apply Hone; simpl; lia].
Defined.

(** *** Metadata *)






(** *** One run of [processCSV] *)

Import Persist PersistSpec IoFacts.

(** The [catch] block of [saveSearchIndex] always ends by throwing the
    error again. *)
Lemma save_recover_throws now F e σ : (save_recover now F e σ).2 = Throw e.
Proof.
  unfold save_recover. io_unfold. unfold unlink, copyFile.
  repeat (case_match; simpl in *; simplify_eq; try reflexivity).
Qed.

(** A run of [saveSearchIndex] that returns has replaced the index. *)
Lemma save_returns content now F σ σ' size :
  saveSearchIndex false content now F σ = (σ', Ok size) ->
  holds σ' indexPath content /\
  size = Some (Z.of_nat (String.length content)).
Proof.
  unfold saveSearchIndex. io_unfold. unfold mkdir.
  destruct (mkdir_fails F); [discriminate |]. cbn iota beta.
  destruct (save_steps content now F σ) as [σ1 [sz | e]] eqn:Es.
  - intros [= <- <-]. revert Es. unfold save_steps. io_unfold.
    destruct (step_backup now F σ) as [σa [[] | ea]] eqn:Ea;
      [| discriminate].
    destruct (replace_error content F) as [er |] eqn:Er.
    + destruct (PersistFacts.replace_fails content now F er σa Er)
        as (σx & -> & _). discriminate.
    + rewrite (PersistFacts.replace_succeeds content now F σa Er).
      cbn iota beta.
      destruct (step_rotate F _) as [σr [sr | er]] eqn:Erot;
        [| discriminate].
      intros [= <- <-].
      destruct (PersistFacts.rotate_keeps _ _ _ _ Erot) as [Hidx _].
      rewrite lookup_insert_eq in Hidx.
      split; [unfold holds; rewrite Hidx; reflexivity |].
      revert Erot. unfold step_rotate. io_unfold. unfold statSync.
      repeat (case_match; simpl in *; simplify_eq; try discriminate).
      all: intros [= <- <-]; unfold stats_of; simpl;
        repeat match goal with
               | H : _ !! indexPath = Some _ |- _ =>
                   rewrite ?lookup_insert_ne, ?lookup_delete_ne in H
                     by PersistFacts.ne;
                   rewrite ?lookup_insert_eq in H
               end; simplify_eq; reflexivity.
  - pose proof (save_recover_throws now F e σ1) as Ht.
    destruct (save_recover now F e σ1) as [σ2 out]. simpl in Ht. subst out.
    discriminate.
Qed.

Section Run.
Variable nts : Q -> string.
Variable JSON_stringify : list Product -> ProcessingMetadata -> string.

Lemma consume_fold config env chunks : forall ps n m k,
  exists n' m' k',
    fold_left (consume config env) chunks (ps, n, m, k)
    = ((ps ++ concat chunks)%list, n', m', k') /\
    errorCount m' = errorCount m /\ indexSize m' = indexSize m.
Proof.
  induction chunks as [| c t IH]; intros ps n m k; cbn [fold_left].
  - exists n, m, k. simpl. rewrite app_nil_r. auto.
  - unfold consume at 2. destruct (enableMetrics config).
    + destruct (IH (ps ++ c)%list (n + Z.of_nat (List.length c))
                   (updateMetrics (heapUsed env k) m) (S k))
        as (n' & m' & k' & -> & He & Hi).
      exists n', m', k'. simpl. rewrite <- app_assoc. auto.
    + destruct (IH (ps ++ c)%list (n + Z.of_nat (List.length c)) m k)
        as (n' & m' & k' & -> & He & Hi).
      exists n', m', k'. simpl. rewrite <- app_assoc. auto.
Qed.

(** A run on rows delivered without an error saves the serialised
    result and, if saving returns, hands out the accepted records. *)
Lemma processCSV_saves this rows env σ :
  let good := accepted nts (this_config this) rows in
  let md := generateMetadata good (isoTime env) in
  let save := saveSearchIndex (isProduction env) (JSON_stringify good md)
                (writeTime env) (CsvProcessor.faults env) σ in
  let run := processCSV nts JSON_stringify this (rows, None) env σ in
  run.1.1 = save.1 /\
  match save.2 with
  | Ok _ => exists m, run.2 = Ok {| products := good; metadata := md;
                                    metrics := m |}
  | Throw e => run.2 = Throw e
  end.
Proof.
  cbv zeta. unfold processCSV.
  pose proof (stream_summary nts (this_config this) rows None)
    as (Hout & Hrej & Hcat).
  cbv zeta in Hout, Hrej, Hcat. specialize (Hcat eq_refl).
  destruct (processCSVStream nts (this_config this) (rows, None))
    as [[chunks errors] failure].
  cbn [fst snd] in Hout, Hrej, Hcat. subst failure errors.
  destruct (consume_fold (this_config this) env chunks [] 0
              (this_metrics this) O) as (n' & m' & k' & -> & He & Hi).
  simpl app. rewrite Hcat.
  destruct (saveSearchIndex _ _ _ _ σ) as [σ' [size | e]];
    cbn [fst snd]; split; try reflexivity.
  eexists. reflexivity.
Qed.

(** One call of [processCSV] on rows that the reader delivers without an
    error.  If it returns, the products are the accepted records in the
    order of the rows; the metadata is that of these products; products
    and counted errors add up to the rows read; in production no file is
    touched, and otherwise the index file holds the serialised result and
    the metrics report its size.  If it throws, which only saving can
    cause, one more error is counted.  And when the reader itself fails,
    that error is thrown, one more error is counted and no file is
    touched. *)
Theorem processCSV_result this rows env σ :
  let config := this_config this in
  let good := accepted nts config rows in
  let bad := rejections nts config rows in
  let run := processCSV nts JSON_stringify this (rows, None) env σ in
  match run.2 with
  | Ok r =>
      products r = good /\
      metadata r = generateMetadata good (isoTime env) /\
      metrics r = run.1.2 /\
      errorCount (metrics r) = errorCount (this_metrics this) + bad /\
      Z.of_nat (List.length (products r)) + bad = Z.of_nat (List.length rows) /\
      (isProduction env = true -> run.1.1 = σ) /\
      (isProduction env = false ->
       holds run.1.1 indexPath (JSON_stringify good (metadata r)) /\
       indexSize (metrics r)
       = Z.of_nat (String.length (JSON_stringify good (metadata r))))
  | Throw _ =>
      isProduction env = false /\
      errorCount run.1.2 = errorCount (this_metrics this) + bad + 1
  end /\
  (forall e,
     let failed := processCSV nts JSON_stringify this (rows, Some e) env σ in
     failed.2 = Throw e /\ failed.1.1 = σ /\
     errorCount failed.1.2 = errorCount (this_metrics this) + bad + 1).
Proof.
  cbv zeta. unfold processCSV.
  split.
  - pose proof (stream_summary nts (this_config this) rows None)
      as (Hout & Hrej & Hcat).
    cbv zeta in Hout, Hrej, Hcat. specialize (Hcat eq_refl).
    destruct (processCSVStream nts (this_config this) (rows, None))
      as [[chunks errors] failure].
    cbn [fst snd] in Hout, Hrej, Hcat. subst failure errors.
    destruct (consume_fold (this_config this) env chunks [] 0
                (this_metrics this) O) as (n' & m' & k' & -> & He & Hi).
    simpl app. rewrite Hcat.
    set (good := accepted nts (this_config this) rows).
    set (md := generateMetadata good (isoTime env)).
    destruct (saveSearchIndex (isProduction env) (JSON_stringify good md)
                (writeTime env) (CsvProcessor.faults env) σ) as [σ' [size | e]] eqn:Es;
      cbn [fst snd].
    + cbn [products metadata metrics errorCount indexSize add_errors].
      split; [reflexivity |]. split; [reflexivity |]. split; [reflexivity |].
      split; [rewrite He; reflexivity |].
      split; [unfold rejections; fold good; lia |].
      split.
      * intros Hp. rewrite Hp in Es. unfold saveSearchIndex in Es.
        injection Es as <- _. reflexivity.
      * intros Hp. rewrite Hp in Es.
        destruct (save_returns _ _ _ _ _ _ Es) as [Hh ->].
        split; [exact Hh | reflexivity].
    + cbn [errorCount add_errors]. split; [| rewrite He; reflexivity].
      destruct (isProduction env); [discriminate | reflexivity].
  - intros e.
    pose proof (stream_summary nts (this_config this) rows (Some e))
      as (Hout & Hrej & _).
    cbv zeta in Hout, Hrej.
    destruct (processCSVStream nts (this_config this) (rows, Some e))
      as [[chunks errors] failure].
    cbn [fst snd] in Hout, Hrej. subst failure errors.
    destruct (consume_fold (this_config this) env chunks [] 0
                (this_metrics this) O) as (n' & m' & k' & -> & He & Hi).
    cbn [fst snd errorCount add_errors].
    split; [reflexivity |]. split; [reflexivity |]. rewrite He. reflexivity.
Qed.

End Run.

Lemma processCSV_result_witness :
  let run := processCSV Fixtures.show_Q
               (Stringify.JSON_stringify Fixtures.show_Q) production
               (Fixtures.sample_rows, None) (Fixtures.sample_env false)
               Fixtures.disk_with_source in
  exists r, run.2 = Ok r /\
    products r = accepted Fixtures.show_Q (this_config production)
                          Fixtures.sample_rows /\
    errorCount (metrics r) = 1.
Proof.
  pose proof (processCSV_result Fixtures.show_Q
                (Stringify.JSON_stringify Fixtures.show_Q) production
                Fixtures.sample_rows (Fixtures.sample_env false)
                Fixtures.disk_with_source) as H.
  cbv zeta in H |- *. destruct H as [H _].
  set (run := processCSV Fixtures.show_Q
                (Stringify.JSON_stringify Fixtures.show_Q) production
                (Fixtures.sample_rows, None) (Fixtures.sample_env false)
                Fixtures.disk_with_source) in *.
  assert (E : exists r, run.2 = Ok r) by (vm_compute; eauto).
  destruct E as [r E]. rewrite E in H. exists r.
  destruct H as (Hp & _ & _ & He & _).
  split; [exact E |]. split; [exact Hp |]. rewrite He.
  vm_compute. reflexivity.
Defined.

End ProcessorFacts.

(* ===================================================================== *)
(** ** The index files after a run that succeeds *)
(* ===================================================================== *)

Module StoreFacts.
Import Js Fs Startup StartupSpec Persist PersistSpec StoreSpec IoFacts.

Lemma products_array_validate text :
  validate text = Ok tt <-> is_Some (products_array text).
Proof.
  rewrite PersistFacts.validate_iff. unfold products_array. split.
  - intros (fs & items & -> & ->). eauto.
  - intros [items H].
    destruct (Json.parse text) as [[| | | | |fs] |]; try discriminate.
    destruct (Json.field "products" fs) as [[| | | |its|] |] eqn:E;
      try discriminate.
    eauto.
Qed.

Lemma no_faults_replace content :
  validate content = Ok tt -> replace_error content no_faults = None.
Proof. unfold replace_error. simpl. intros ->. reflexivity. Qed.

(** The file map a run without faults leaves. *)
Lemma save_no_faults content now σ :
  validate content = Ok tt ->
  exists σ',
    saveSearchIndex false content now no_faults σ
    = (σ', Ok (Some (Z.of_nat (String.length content)))) /\
    σ' !! indexPath = Some {| Fs.content := content; mtime := now |} /\
    σ' !! tempPath = None /\
    σ' !! backupPath = None /\
    σ' !! oldBackupPath = previous_generation now σ /\
    (forall p, p ∉ data_paths -> σ' !! p = σ !! p).
Proof.
  intros Hv.
  unfold saveSearchIndex, save_steps, mkdir. io_unfold. simpl mkdir_fails.
  cbn iota.
  rewrite PersistFacts.backup_step by (right; reflexivity).
  cbn iota.
  rewrite PersistFacts.replace_succeeds by (apply no_faults_replace, Hv).
  cbn iota.
  unfold step_rotate, after_backup, previous_generation. io_unfold.
  unfold unlink, rename, statSync, data_paths.
  unfold indexPath, backupPath, tempPath, oldBackupPath.
  simpl old_unlink. simpl backup_rename. simpl index_stat.
  destruct (σ !! "data/search-index.json") as [i |] eqn:Ei;
    destruct (σ !! "data/search-index.backup.json") as [b |] eqn:Eb;
    destruct (σ !! "data/search-index.old.json") as [o |] eqn:Eo;
    repeat (progress
              (cbn beta iota;
               cbn [andb old_unlink backup_rename index_stat no_faults
                    io_ret stats_of st_size Fs.content];
               rewrite ?bool_decide_is_Some;
               rewrite ?lookup_insert_eq, ?lookup_delete_eq;
               rewrite ?lookup_insert_ne, ?lookup_delete_ne by done;
               rewrite ?Ei, ?Eb, ?Eo));
    (eexists; split; [reflexivity |]);
    repeat split;
    try (intros p Hp;
         repeat (apply not_elem_of_cons in Hp as [? Hp]));
    rewrite ?lookup_insert_eq, ?lookup_delete_eq;
    repeat (first [rewrite lookup_insert_ne by done
                  | rewrite lookup_delete_ne by done
                  | rewrite lookup_insert_eq
                  | rewrite lookup_delete_eq]);
    try reflexivity; try assumption.
Qed.

(** A run of [saveSearchIndex] in which no call fails, on a text that
    step 3 accepts: it returns the size of the text; the index holds the
    text, dated with the time of the run; no temporary file and no file
    at the backup path are left; the older backup is the generation that
    was replaced; and no other file is touched. *)
Theorem saveSearchIndex_success content now σ :
  validate content = Ok tt ->
  let run := saveSearchIndex false content now no_faults σ in
  run.2 = Ok (Some (Z.of_nat (String.length content))) /\
  run.1 !! indexPath = Some {| Fs.content := content; mtime := now |} /\
  run.1 !! tempPath = None /\
  run.1 !! backupPath = None /\
  run.1 !! oldBackupPath = previous_generation now σ /\
  (forall p, p ∉ data_paths -> run.1 !! p = σ !! p).
Proof.
  intros Hv. destruct (save_no_faults content now σ Hv) as (σ' & -> & H).
  split; [reflexivity | exact H].
Qed.

Lemma saveSearchIndex_success_witness :
  let run := saveSearchIndex false Fixtures.empty_index 7 no_faults
                             Fixtures.disk in
  holds run.1 indexPath Fixtures.empty_index /\
  holds run.1 oldBackupPath "old index" /\
  run.1 !! backupPath = None.
Proof.
  destruct (saveSearchIndex_success Fixtures.empty_index 7 Fixtures.disk
              ltac:(reflexivity)) as (_ & Hi & _ & Hb & Ho & _).
  unfold holds. cbv zeta. rewrite Hi, Ho. split; [reflexivity |].
  split; [reflexivity | exact Hb].
Defined.

(** *** Saving, then loading *)

Lemma products_of_array fs items :
  Json.field "products" fs = Some (JArr items) ->
  products_of (JObj fs) = Ok items.
Proof. intros H. unfold products_of. simpl. rewrite H. reflexivity. Qed.

(** Loading an index file whose text has a [products] array. *)
Lemma load_holding this σ idx items :
  Startup.indexPath this = Persist.indexPath ->
  σ !! indexPath = Some idx ->
  products_array (Fs.content idx) = Some items ->
  loadIndex this Startup.no_faults σ = (σ, Ok items).
Proof.
  intros Hpath Hidx Harr.
  rewrite StartupFacts.loadIndex_spec. f_equal.
  unfold load_result. rewrite Hpath, Hidx. simpl.
  unfold products_array in Harr.
  destruct (Json.parse (Fs.content idx)) as [[| | | | |fs] |];
    try discriminate.
  destruct (Json.field "products" fs) as [[| | | |its|] |] eqn:E;
    try discriminate.
  injection Harr as ->. apply products_of_array, E.
Qed.

(** What step 3 of [saveSearchIndex] accepts, [loadIndex] can load: after
    a run without faults the loader returns the [products] array of the
    text that was saved, and leaves the files alone.  The loader is the
    more liberal of the two: it also takes a bare array, which step 3
    refuses. *)
Theorem save_then_load this content now σ items :
  Startup.indexPath this = Persist.indexPath ->
  products_array content = Some items ->
  let saved := (saveSearchIndex false content now no_faults σ).1 in
  loadIndex this Startup.no_faults saved = (saved, Ok items) /\
  validate (Json.js "[]") = Throw invalid_index /\
  Json.parse (Json.js "[]") = Some (JArr []) /\
  products_of (JArr []) = Ok [].
Proof.
  intros Hpath Harr.
  assert (Hv : validate content = Ok tt)
    by (apply products_array_validate; eauto).
  destruct (save_no_faults content now σ Hv) as (σ' & Hrun & Hidx & _).
  rewrite Hrun. cbn [fst]. split; [| repeat split].
  apply (load_holding this σ' _ items Hpath Hidx). exact Harr.
Qed.

Lemma save_then_load_witness :
  let saved := (saveSearchIndex false Fixtures.empty_index 7 no_faults
                                Fixtures.disk).1 in
  loadIndex Fixtures.default_startup Startup.no_faults saved = (saved, Ok []).
Proof.
  apply (save_then_load Fixtures.default_startup Fixtures.empty_index 7
           Fixtures.disk []); reflexivity.
Defined.

(** *** A saved index and the staleness check *)

(** Once an index has been saved at time [now] from a source that is not
    newer, the staleness check at a later time [later] asks for a rebuild
    exactly when the index has grown older than [maxAgeHours] or is
    smaller than 1000 bytes.  So an index below that size, that of a
    small catalogue for one, is rebuilt at every start; and the check
    itself never throws and never writes, even when [stat] fails. *)
Theorem fresh_after_save this content now later σ csv :
  Startup.indexPath this = Persist.indexPath ->
  csvPath this ∉ data_paths ->
  validate content = Ok tt ->
  σ !! csvPath this = Some csv -> mtime csv <= now ->
  let saved := (saveSearchIndex false content now no_faults σ).1 in
  shouldRegenerateIndex this later Startup.no_faults saved
  = (saved, Ok ((maxAgeHours this * 60 * 60 * 1000 <? later - now)
                || (Z.of_nat (String.length content) <? 1000))) /\
  (forall F σ0, exists b,
     shouldRegenerateIndex this later F σ0 = (σ0, Ok b)).
Proof.
  intros Hpath Hcsv Hv Hsrc Hold.
  destruct (save_no_faults content now σ Hv) as (σ' & Hrun & Hidx & _ & _ & _ & Hrest).
  rewrite Hrun. cbn [fst]. split.
  - rewrite StartupFacts.shouldRegenerateIndex_spec. do 2 f_equal.
    unfold table, age_limit_ms.
    rewrite (Hrest _ Hcsv), Hsrc, Hpath, Hidx.
    cbn -[Z.mul Z.ltb Z.sub].
    destruct (Z.ltb_spec now (mtime csv)); [lia |].
    destruct (_ <? later - now); [reflexivity |].
    destruct (_ <? 1000); reflexivity.
  - intros F σ0. rewrite StartupFacts.shouldRegenerateIndex_spec.
    eexists. reflexivity.
Qed.

Lemma fresh_after_save_witness :
  let saved := (saveSearchIndex false Fixtures.empty_index 30 no_faults
                                Fixtures.disk_with_garbage).1 in
  shouldRegenerateIndex Fixtures.default_startup 31 Startup.no_faults saved
  = (saved, Ok true).
Proof.
  refine (proj1 (fresh_after_save Fixtures.default_startup
                   Fixtures.empty_index 30 31 Fixtures.disk_with_garbage
                   {| Fs.content := "ID,TITLE"; mtime := 10 |}
                   eq_refl _ eq_refl eq_refl _)).
  - unfold data_paths. intros Hin.
    repeat (apply elem_of_cons in Hin as [Hin | Hin]; [discriminate |]).
    inversion Hin.
  - simpl. lia.
Defined.

End StoreFacts.

(* ===================================================================== *)
(** ** Serialising the index and reading it back *)
(* ===================================================================== *)

Module JsonInduction.

(** Induction on a JSON value, with the hypothesis for every item of an
    array and every member of an object. *)
Lemma json_ind_nested (P : json -> Prop) :
  P JNull -> (forall b, P (JBool b)) -> (forall n, P (JNum n)) ->
  (forall s, P (JStr s)) ->
  (forall items, Forall P items -> P (JArr items)) ->
  (forall fs, Forall (fun kv : string * json => P kv.2) fs -> P (JObj fs)) ->
  forall j, P j.
Proof.
  intros Hnull Hbool Hnum Hstr Harr Hobj.
  fix IH 1. intros [| b | n | s | items | fs].
  - exact Hnull.
  - apply Hbool.
  - apply Hnum.
  - apply Hstr.
  - apply Harr. revert items. fix IHl 1. intros [| x t].
    + constructor.
    + constructor; [apply IH | apply IHl].
  - apply Hobj. revert fs. fix IHl 1. intros [| [k v] t].
    + constructor.
    + constructor; [apply IH | apply IHl].
Qed.

End JsonInduction.

Module PropertyFacts.
Import Str Json Stringify.

Lemma last_member_map {V W} (f : V -> W) k (fs : list (string * V)) :
  last_member k (List.map (fun kv : string * V => (kv.1, f kv.2)) fs)
  = f <$> last_member k fs.
Proof.
  induction fs as [| [k' v] t IH]; simpl; [reflexivity |].
  rewrite IH. destruct (last_member k t); simpl; [reflexivity |].
  destruct (String.eqb k k'); reflexivity.
Qed.

Lemma keys_map {V W} (f : V -> W) (fs : list (string * V)) :
  fst <$> List.map (fun kv : string * V => (kv.1, f kv.2)) fs = fst <$> fs.
Proof.
  induction fs as [| [k v] t IH]; [reflexivity |].
  simpl. f_equal. exact IH.
Qed.

(** The enumeration of the properties looks at the keys only. *)
Lemma own_properties_map {V W} (f : V -> W) (fs : list (string * V)) :
  own_properties (List.map (fun kv : string * V => (kv.1, f kv.2)) fs)
  = List.map (fun kv : string * V => (kv.1, f kv.2)) (own_properties fs).
Proof.
  unfold own_properties. rewrite keys_map.
  induction (ordered_keys (fst <$> fs)) as [| k ks IH]; [reflexivity |].
  simpl. rewrite last_member_map, IH.
  destruct (last_member k fs); reflexivity.
Qed.


Lemma last_member_In {V} k (fs : list (string * V)) v :
  last_member k fs = Some v -> In (k, v) fs.
Proof.
  induction fs as [| [k' w] t IH]; simpl; [discriminate |].
  destruct (last_member k t) as [x |].
  - intros [= ->]. right. apply IH. reflexivity.
  - destruct (String.eqb_spec k k') as [-> | _]; [| discriminate].
    intros [= ->]. left. reflexivity.
Qed.

(** Every own property is a member of the object. *)
Lemma own_properties_In {V} (fs : list (string * V)) kv :
  In kv (own_properties fs) -> In kv fs.
Proof.
  unfold own_properties.
  induction (ordered_keys (fst <$> fs)) as [| k ks IH]; simpl; [tauto |].
  destruct (last_member k fs) as [v |] eqn:E; simpl; [| exact IH].
  intros [<- | H]; [apply last_member_In, E | apply IH, H].
Qed.

Lemma last_member_field k fs : last_member k fs = Json.field k fs.
Proof.
  induction fs as [| [k' v] t IH]; simpl; [reflexivity |].
  rewrite IH. reflexivity.
Qed.

End PropertyFacts.

Module LexFacts.
Import Str Parse Json Stringify StringifySpec.
Local Open Scope list_scope.

Lemma lex_cons st c t :
  lex_from st (c :: t) = st' ← lex_step st c; lex_from st' t.
Proof. reflexivity. Qed.

Lemma lex_space c out rest :
  is_json_space c = true ->
  lex_from (Idle, out) (c :: rest) = lex_from (Idle, out) rest.
Proof.
  intros H. rewrite lex_cons. cbn [lex_step]. unfold lex_idle. rewrite H.
  reflexivity.
Qed.

Lemma lex_spaces n out rest :
  lex_from (Idle, out) (List.repeat " "%char n ++ rest)
  = lex_from (Idle, out) rest.
Proof.
  induction n as [| n IH]; [reflexivity |].
  simpl List.repeat. rewrite <- app_comm_cons, lex_space by reflexivity.
  exact IH.
Qed.

(** A line break and its indentation are skipped. *)
Lemma lex_break d out rest :
  lex_from (Idle, out) (break d ++ rest) = lex_from (Idle, out) rest.
Proof.
  unfold break, spaces. rewrite <- app_comm_cons, lex_space by reflexivity.
  apply lex_spaces.
Qed.

(** *** Strings *)

Lemma lex_quote_char c acc out r :
  lex_from (InString acc, out) (quote_char c ++ r)
  = lex_from (InString (c :: acc), out) r.
Proof.
  destruct c as [[] [] [] [] [] [] [] []]; reflexivity.
Qed.

Lemma lex_string_body cs : forall acc out rest,
  lex_from (InString acc, out) (flat_map quote_char cs ++ dquote :: rest)
  = lex_from (Idle, TScalar (JStr (to_string (rev acc ++ cs))) :: out) rest.
Proof.
  induction cs as [| c cs IH]; intros acc out rest.
  - simpl flat_map. rewrite app_nil_r. reflexivity.
  - simpl flat_map. rewrite <- app_assoc, lex_quote_char, IH.
    simpl rev. rewrite <- app_assoc. reflexivity.
Qed.

Lemma lex_quote s out rest :
  lex_from (Idle, out) (quote s ++ rest)
  = lex_from (Idle, TScalar (JStr s) :: out) rest.
Proof.
  unfold quote. rewrite <- app_comm_cons, <- app_assoc.
  change (lex_from (Idle, out)
            (dquote :: flat_map quote_char (of_string s) ++ [dquote] ++ rest))
    with (lex_from (InString [], out)
            (flat_map quote_char (of_string s) ++ dquote :: rest)).
  rewrite lex_string_body. simpl rev. simpl app.
  rewrite RecordFacts.to_of_string. reflexivity.
Qed.

(** *** Words *)

Lemma lex_word w v out rest :
  (w, v) ∈ [("null", JNull); ("true", JBool true); ("false", JBool false)] ->
  delimited rest ->
  lex_from (Idle, out) (of_string w ++ rest)
  = lex_from (Idle, TScalar v :: out) rest.
Proof.
  intros Hw Hd.
  repeat (apply elem_of_cons in Hw as [Hw | Hw];
          [injection Hw as -> ->;
           destruct rest as [| c t];
           [reflexivity | destruct Hd as [-> | ->]; reflexivity] |]).
  inversion Hw.
Qed.

(** *** Numbers *)

Lemma span_spec p (s : chars) a b :
  span p s = (a, b) ->
  s = (a ++ b)%list /\ Forall (fun c => p c = true) a.
Proof.
  revert a b. induction s as [| c t IH]; intros a b; simpl.
  - intros [= <- <-]. split; [reflexivity | constructor].
  - destruct (p c) eqn:E.
    + destruct (span p t) as [a' b'] eqn:Es. intros [= <- <-].
      destruct (IH a' b' eq_refl) as [-> Ha].
      split; [reflexivity | constructor; assumption].
    + intros [= <- <-]. split; [reflexivity | constructor].
Qed.

Lemma digit_number_char c : is_digit c = true -> is_number_char c = true.
Proof. unfold is_number_char. intros ->. reflexivity. Qed.

Lemma digits_number_chars a :
  Forall (fun c => is_digit c = true) a ->
  Forall (fun c => is_number_char c = true) a.
Proof.
  intros H. eapply Forall_impl; [exact H |].
  intros c. apply digit_number_char.
Qed.

Lemma exponent_digits_chars (t : chars) (f : chars -> Z) e :
  match span is_digit t with
  | ((_ :: _) as ds, []) => Some (f ds)
  | _ => None
  end = Some e ->
  Forall (fun c => is_number_char c = true) t.
Proof.
  destruct (span is_digit t) as [ds r2] eqn:Es.
  destruct (span_spec _ _ _ _ Es) as [-> Hd].
  destruct ds as [| d ds]; [discriminate |].
  destruct r2; [| discriminate].
  intros _. rewrite app_nil_r. apply digits_number_chars, Hd.
Qed.

Lemma json_exponent_chars r e :
  json_exponent r = Some e -> Forall (fun c => is_number_char c = true) r.
Proof.
  unfold json_exponent. destruct r as [| c t]; [constructor |].
  destruct (Ascii.eqb c "e" || Ascii.eqb c "E")%char eqn:Ec; [| discriminate].
  assert (Hc : is_number_char c = true).
  { unfold is_number_char. simpl existsb.
    apply orb_true_iff in Ec as [Ec | Ec]; rewrite Ec;
      rewrite ?orb_true_r; reflexivity. }
  intros H. constructor; [exact Hc |].
  destruct t as [| s t']; [discriminate H |].
  destruct s as [[] [] [] [] [] [] [] []]; cbn [take_sign] in H;
    first
      [ match goal with
        | |- Forall _ ?T =>
            exact (exponent_digits_chars T (fun ds => digits_val ds) e H)
        end
      | constructor;
        [reflexivity
        | first [exact (exponent_digits_chars t' (fun ds => - digits_val ds)
                          e H)
                | exact (exponent_digits_chars t' (fun ds => digits_val ds)
                           e H)]] ].
Qed.

Lemma json_fraction_chars r fp r2 :
  json_fraction r = Some (fp, r2) ->
  exists dot, r = (dot ++ r2)%list /\
              Forall (fun c => is_number_char c = true) dot.
Proof.
  unfold json_fraction.
  assert (Hplain : Some ([] : chars, r) = Some (fp, r2) ->
                   exists dot, r = (dot ++ r2)%list /\
                     Forall (fun c => is_number_char c = true) dot).
  { intros [= <- <-]. exists []. split; [reflexivity | constructor]. }
  destruct r as [| c t]; [exact Hplain |].
  destruct (Ascii.eqb_spec c ".") as [-> | Hc].
  - destruct (span is_digit t) as [ds rr] eqn:Es.
    destruct (span_spec _ _ _ _ Es) as [-> Hd].
    destruct ds as [| d ds]; [discriminate |].
    intros [= <- <-]. exists ("."%char :: d :: ds).
    split; [reflexivity |].
    constructor; [reflexivity | apply digits_number_chars, Hd].
  - intros H. apply Hplain. rewrite <- H.
    destruct c as [[] [] [] [] [] [] [] []]; try reflexivity.
    exfalso. apply Hc. reflexivity.
Qed.

(** A text that reads as a JSON number starts with a digit or a minus
    sign and is made of the characters of numbers. *)
Lemma json_number_chars s q :
  json_number s = Some q ->
  (exists c t, s = c :: t /\ (c = "-"%char \/ is_digit c = true)) /\
  Forall (fun c => is_number_char c = true) s.
Proof.
  unfold json_number.
  assert (Hbody : forall s1,
            (let '(ip, r1) := span is_digit s1 in
             match ip with
             | [] => None
             | "0"%char :: _ :: _ => None
             | _ =>
                 match json_fraction r1 with
                 | None => None
                 | Some (fp, r2) =>
                     match json_exponent r2 with
                     | None => None
                     | Some e => Some tt
                     end
                 end
             end) = Some tt ->
            (exists c t, s1 = c :: t /\ is_digit c = true) /\
            Forall (fun c => is_number_char c = true) s1).
  { intros s1. destruct (span is_digit s1) as [ip r1] eqn:Es.
    destruct (span_spec _ _ _ _ Es) as [-> Hip].
    intros H.
    assert (Hne : ip <> []) by (intros ->; discriminate).
    assert (Hrest : Forall (fun c => is_number_char c = true) r1).
    { destruct ip as [| d ds]; [congruence |].
      assert (H' : match json_fraction r1 with
                   | None => None
                   | Some (fp, r2) =>
                       match json_exponent r2 with
                       | None => None
                       | Some _ => Some tt
                       end
                   end = Some tt).
      { destruct d as [[] [] [] [] [] [] [] []], ds; exact H || discriminate H. }
      destruct (json_fraction r1) as [[fp r2] |] eqn:Ef; [| discriminate].
      destruct (json_exponent r2) as [e |] eqn:Ee; [| discriminate].
      destruct (json_fraction_chars _ _ _ Ef) as (dot & -> & Hdot).
      apply Forall_app. split; [exact Hdot |].
      eapply json_exponent_chars, Ee. }
    split.
    - destruct ip as [| d ds]; [congruence |].
      inversion Hip; subst. exists d, (ds ++ r1)%list. auto.
    - apply Forall_app. split; [apply digits_number_chars, Hip | exact Hrest]. }
  intros H.
  assert (Hsplit : exists neg s1,
            (match s with
             | "-"%char :: t => (true, t)
             | _ => (false, s)
             end) = (neg, s1) /\
            ((neg = true /\ s = "-"%char :: s1) \/ (neg = false /\ s = s1))).
  { destruct s as [| c t]; [exists false, []; auto |].
    destruct (Ascii.eqb_spec c "-") as [-> | Hc].
    - exists true, t. auto.
    - exists false, (c :: t). split; [| auto].
      destruct c as [[] [] [] [] [] [] [] []]; try reflexivity.
      exfalso. apply Hc. reflexivity. }
  destruct Hsplit as (neg & s1 & Hs & Hcase). rewrite Hs in H.
  assert (Hok : (let '(ip, r1) := span is_digit s1 in
                 match ip with
                 | [] => None
                 | "0"%char :: _ :: _ => None
                 | _ =>
                     match json_fraction r1 with
                     | None => None
                     | Some (fp, r2) =>
                         match json_exponent r2 with
                         | None => None
                         | Some e => Some tt
                         end
                     end
                 end) = Some tt).
  { destruct (span is_digit s1) as [ip r1].
    destruct ip as [| d ds]; [discriminate |].
    destruct d as [[] [] [] [] [] [] [] []], ds; try discriminate H;
      destruct (json_fraction r1) as [[fp r2] |]; try discriminate H;
      destruct (json_exponent r2); try discriminate H; reflexivity. }
  destruct (Hbody s1 Hok) as [(c & t & -> & Hc) Hall].
  destruct Hcase as [[_ ->] | [_ ->]].
  - split; [exists "-"%char, (c :: t); auto |].
    constructor; [reflexivity | exact Hall].
  - split; [exists c, t; auto | exact Hall].
Qed.

Lemma lex_number_start c out t :
  c = "-"%char \/ is_digit c = true ->
  lex_from (Idle, out) (c :: t) = lex_from (InNumber [c], out) t.
Proof.
  intros H.
  destruct c as [[] [] [] [] [] [] [] []]; destruct H as [H | H];
    try discriminate H; reflexivity.
Qed.

Lemma lex_number_run cs : forall acc out rest,
  Forall (fun c => is_number_char c = true) cs ->
  lex_from (InNumber acc, out) (cs ++ rest)
  = lex_from (InNumber (rev cs ++ acc), out) rest.
Proof.
  induction cs as [| c cs IH]; intros acc out rest Hcs; [reflexivity |].
  inversion Hcs as [| ? ? Hc Hrest]; subst.
  rewrite <- app_comm_cons, lex_cons. cbn [lex_step]. rewrite Hc.
  cbn [mbind option_bind]. rewrite IH by exact Hrest.
  simpl rev. rewrite <- app_assoc. reflexivity.
Qed.

Lemma lex_number_end acc q out rest :
  json_number (rev acc) = Some q -> delimited rest ->
  lex_from (InNumber acc, out) rest
  = lex_from (Idle, TScalar (JNum (Fin q)) :: out) rest.
Proof.
  intros Hq Hd. destruct rest as [| c t].
  - simpl. rewrite Hq. reflexivity.
  - rewrite !lex_cons. cbn [lex_step].
    assert (Hc : is_number_char c = false)
      by (destruct Hd as [-> | ->]; reflexivity).
    rewrite Hc. cbn [flush]. rewrite Hq. reflexivity.
Qed.

(** The text of a number that prints, followed by a delimiter. *)
Lemma lex_number text q out rest :
  json_number text = Some q -> delimited rest ->
  lex_from (Idle, out) (text ++ rest)
  = lex_from (Idle, TScalar (JNum (Fin q)) :: out) rest.
Proof.
  intros Hq Hd.
  destruct (json_number_chars text q Hq) as [(c & t & -> & Hc) Hall].
  inversion Hall as [| ? ? _ Ht]; subst.
  rewrite <- app_comm_cons, lex_number_start by exact Hc.
  rewrite lex_number_run by exact Ht.
  apply lex_number_end; [| exact Hd].
  rewrite rev_app_distr, rev_involutive. exact Hq.
Qed.

End LexFacts.

Module RoundTripFacts.
Import Str Parse Json Stringify StringifySpec LexFacts PropertyFacts.
Local Open Scope list_scope.

Lemma lex_comma out r :
  lex_from (Idle, out) (","%char :: r) = lex_from (Idle, TComma :: out) r.
Proof. reflexivity. Qed.

Lemma lex_colon_space out r :
  lex_from (Idle, out) (":"%char :: " "%char :: r)
  = lex_from (Idle, TColon :: out) r.
Proof. reflexivity. Qed.

(** *** Lexing a container *)

Section Items.
Context {A : Type}.
Variable ser : A -> chars.
Variable tok : A -> list token.
Variable depth : nat.

Lemma lex_items xs : forall x out tail,
  lexes ser tok x -> Forall (lexes ser tok) xs -> delimited tail ->
  lex_from (Idle, out)
    (ser x ++ flat_map (fun q => (","%char :: break depth) ++ q) (List.map ser xs)
     ++ tail)
  = lex_from (Idle,
              rev (tok x ++ flat_map (fun q => TComma :: q) (List.map tok xs))
              ++ out) tail.
Proof.
  induction xs as [| y ys IH]; intros x out tail Hx Hxs Hd.
  - simpl. rewrite !app_nil_r. apply Hx, Hd.
  - inversion Hxs as [| ? ? Hy Hys]; subst.
    cbn [List.map flat_map].
    rewrite <- !app_assoc. rewrite Hx by (left; reflexivity).
    rewrite <- app_comm_cons, lex_comma, lex_break, IH by assumption.
    apply (f_equal (fun o => lex_from (Idle, o) tail)).
    rewrite !rev_app_distr. simpl rev. rewrite ?rev_app_distr.
    rewrite <- ?app_assoc. reflexivity.
Qed.

End Items.

(** A block that is not empty lexes to its bracket, the tokens of its
    items with commas between them, and its closing bracket. *)
Lemma lex_block {A} (ser : A -> chars) (tok : A -> list token) d
    (opening closing : ascii) (t_open t_close : token) x xs :
  (forall out r, lex_from (Idle, out) (opening :: r)
                 = lex_from (Idle, t_open :: out) r) ->
  (forall out r, lex_from (Idle, out) (closing :: r)
                 = lex_from (Idle, t_close :: out) r) ->
  lexes ser tok x -> Forall (lexes ser tok) xs ->
  forall out rest,
    lex_from (Idle, out)
      (block d opening closing (ser x :: List.map ser xs) ++ rest)
    = lex_from (Idle,
                rev (t_open :: join_tokens (tok x :: List.map tok xs)
                     ++ [t_close]) ++ out) rest.
Proof.
  intros Hopen Hclose Hx Hxs out rest.
  unfold block, join, join_tokens.
  rewrite <- app_comm_cons, Hopen.
  rewrite <- !app_assoc, lex_break.
  rewrite (lex_items ser tok (S d) xs x) by first [assumption | right; reflexivity].
  rewrite lex_break. simpl app. rewrite Hclose.
  apply (f_equal (fun o => lex_from (Idle, o) rest)).
  repeat first [rewrite rev_app_distr | rewrite <- app_assoc
               | progress cbn [rev app]].
  reflexivity.
Qed.

(** *** Lexing a value *)

Section WithNumberToString.
Variable nts : Q -> string.

Lemma printable_items items :
  printable nts (JArr items) -> Forall (printable nts) items.
Proof.
  simpl. induction items as [| x t IH]; simpl; [constructor |].
  intros [Hx Ht]. constructor; [exact Hx | apply IH, Ht].
Qed.

Lemma printable_members fs :
  printable nts (JObj fs) ->
  Forall (fun kv : string * json => printable nts kv.2) fs.
Proof.
  simpl. induction fs as [| kv t IH]; simpl; [constructor |].
  intros [Hx Ht]. constructor; [exact Hx | apply IH, Ht].
Qed.

Lemma serialize_array d items :
  serialize nts d (JArr items)
  = match items with
    | [] => of_string "[]"
    | _ => block d "["%char "]"%char (List.map (serialize nts (S d)) items)
    end.
Proof. destruct items; reflexivity. Qed.

Lemma tokens_array items :
  value_tokens (JArr items)
  = TLBrack :: join_tokens (List.map value_tokens items) ++ [TRBrack].
Proof.
  unfold value_tokens. cbn [canon tokens]. rewrite List.map_map. reflexivity.
Qed.

Lemma serialize_object d fs :
  serialize nts d (JObj fs)
  = match own_properties fs with
    | [] => of_string "{}"
    | props =>
        block d "{"%char "}"%char
          (List.map (fun kv : string * json =>
                       member (kv.1, serialize nts (S d) kv.2)) props)
    end.
Proof.
  cbn [serialize]. rewrite own_properties_map.
  destruct (own_properties fs) as [| kv kvs]; [reflexivity |].
  cbn [List.map]. f_equal.
  change (member <$> ?l) with (List.map member l).
  cbn [List.map]. f_equal. apply List.map_map.
Qed.

Lemma tokens_object fs :
  value_tokens (JObj fs)
  = TLBrace
    :: join_tokens
         (List.map (fun kv : string * json =>
                      TScalar (JStr kv.1) :: TColon :: value_tokens kv.2)
                   (own_properties fs))
    ++ [TRBrace].
Proof.
  unfold value_tokens. cbn [canon tokens]. rewrite own_properties_map.
  rewrite List.map_map. reflexivity.
Qed.

(** The serialised text of a value lexes to the tokens of the value it
    reads back as. *)
Lemma lex_serialize j :
  printable nts j -> forall d, lexes (serialize nts d) value_tokens j.
Proof.
  induction j as [| b | n | s | items IH | fs IH]
    using JsonInduction.json_ind_nested; intros Hp d out rest Hd.
  - apply (lex_word "null" JNull); [left | exact Hd].
  - destruct b.
    + apply (lex_word "true" (JBool true)); [right; left | exact Hd].
    + apply (lex_word "false" (JBool false));
        [right; right; left | exact Hd].
  - destruct n as [| neg | q].
    + apply (lex_word "null" JNull); [left | exact Hd].
    + apply (lex_word "null" JNull); [left | exact Hd].
    + apply lex_number; [exact Hp | exact Hd].
  - apply lex_quote.
  - apply printable_items in Hp.
    rewrite serialize_array, tokens_array.
    destruct items as [| x xs]; [reflexivity |].
    inversion IH as [| ? ? IHx IHxs]; subst.
    inversion Hp as [| ? ? Hx Hxs]; subst.
    apply (lex_block (serialize nts (S d)) value_tokens d
             "["%char "]"%char TLBrack TRBrack x xs);
      [reflexivity | reflexivity | |].
    + intros o r H. apply IHx; assumption.
    + apply Forall_forall. intros y Hy o r H.
      rewrite Forall_forall in IHxs, Hxs.
      apply IHxs; [exact Hy | apply Hxs, Hy | exact H].
  - apply printable_members in Hp.
    rewrite serialize_object, tokens_object.
    assert (Hprops : Forall
              (lexes (fun kv : string * json =>
                        member (kv.1, serialize nts (S d) kv.2))
                     (fun kv : string * json =>
                        TScalar (JStr kv.1) :: TColon :: value_tokens kv.2))
              (own_properties fs)).
    { apply Forall_forall. intros [k v] Hkv o r H.
      apply list_elem_of_In, own_properties_In, list_elem_of_In in Hkv.
      rewrite Forall_forall in IH, Hp.
      unfold member. cbn [fst snd].
      rewrite <- app_assoc, lex_quote.
      rewrite <- !app_comm_cons, lex_colon_space.
      rewrite (IH _ Hkv (Hp _ Hkv) (S d)) by exact H.
      simpl rev. rewrite <- !app_assoc. reflexivity. }
    destruct (own_properties fs) as [| kv kvs]; [reflexivity |].
    inversion Hprops as [| ? ? Hkv Hkvs]; subst.
    apply (lex_block _ _ d "{"%char "}"%char TLBrace TRBrace kv kvs);
      [reflexivity | reflexivity | exact Hkv | exact Hkvs].
Qed.

End WithNumberToString.

(** *** Parsing the tokens of a value *)

Lemma parse_cons st t ts :
  parse_tokens st (t :: ts) = st' ← parse_step st t; parse_tokens st' ts.
Proof. reflexivity. Qed.

Lemma parse_scalar stack b v rest :
  parse_tokens (stack, EValue b) (TScalar v :: rest) = continue stack v rest.
Proof.
  rewrite parse_cons. unfold continue.
  destruct b; cbn [parse_step]; destruct (push_value stack v); reflexivity.
Qed.

Section Values.
Variable P : json -> Prop.
Hypothesis HP : forall j, P j ->
  forall stack b rest,
    parse_tokens (stack, EValue b) (tokens j ++ rest) = continue stack j rest.

Lemma parse_array_items xs : forall x acc stack b rest,
  P x -> Forall P xs ->
  parse_tokens (FArr acc :: stack, EValue b)
    ((tokens x ++ flat_map (fun q => TComma :: q) (List.map tokens xs))
     ++ TRBrack :: rest)
  = continue stack (JArr (rev acc ++ x :: xs)) rest.
Proof.
  induction xs as [| y ys IH]; intros x acc stack b rest Hx Hxs.
  - simpl flat_map. rewrite app_nil_r, HP by exact Hx.
    unfold continue at 1. cbn [push_value]. rewrite parse_cons.
    cbn [parse_step close_array]. unfold continue. simpl rev.
    destruct (push_value stack (JArr (rev acc ++ [x]))); reflexivity.
  - inversion Hxs as [| ? ? Hy Hys]; subst.
    simpl List.map. simpl flat_map. rewrite <- !app_assoc.
    rewrite HP by exact Hx. unfold continue at 1. cbn [push_value].
    rewrite <- app_comm_cons, parse_cons. cbn [parse_step mbind option_bind].
    first [rewrite IH by assumption | rewrite app_assoc, IH by assumption].
    simpl rev. rewrite <- app_assoc. reflexivity.
Qed.

Lemma parse_object_members kvs : forall k v fields stack b rest,
  P v -> Forall (fun kv : string * json => P kv.2) kvs ->
  parse_tokens (FObj fields None :: stack, EKey b)
    (((TScalar (JStr k) :: TColon :: tokens v)
      ++ flat_map (fun q => TComma :: q)
           (List.map (fun kv : string * json =>
                        TScalar (JStr kv.1) :: TColon :: tokens kv.2) kvs))
     ++ TRBrace :: rest)
  = continue stack (JObj (rev fields ++ (k, v) :: kvs)) rest.
Proof.
  induction kvs as [| [k' v'] kvs IH]; intros k v fields stack b rest Hv Hkvs.
  - simpl flat_map. rewrite app_nil_r.
    rewrite <- !app_comm_cons, !parse_cons.
    replace (parse_step (FObj fields None :: stack, EKey b) (TScalar (JStr k)))
      with (Some (FObj fields None :: stack, EColon k))
      by (destruct b; reflexivity).
    cbn [mbind option_bind parse_step].
    rewrite parse_cons. cbn [mbind option_bind parse_step].
    rewrite HP by exact Hv. unfold continue at 1. cbn [push_value].
    rewrite parse_cons. cbn [parse_step close_object]. unfold continue.
    simpl rev.
    destruct (push_value stack (JObj (rev fields ++ [(k, v)]))); reflexivity.
  - inversion Hkvs as [| ? ? Hv' Hkvs']; subst. cbn [snd] in Hv'.
    simpl List.map. simpl flat_map.
    rewrite <- !app_comm_cons, !parse_cons.
    replace (parse_step (FObj fields None :: stack, EKey b) (TScalar (JStr k)))
      with (Some (FObj fields None :: stack, EColon k))
      by (destruct b; reflexivity).
    cbn [mbind option_bind parse_step].
    rewrite parse_cons. cbn [mbind option_bind parse_step].
    rewrite <- !app_assoc. rewrite HP by exact Hv.
    unfold continue at 1. cbn [push_value].
    rewrite <- app_comm_cons, parse_cons. cbn [parse_step mbind option_bind].
    cbn [fst snd].
    rewrite (app_comm_cons _ _ TColon), (app_comm_cons _ _ (TScalar (JStr k'))).
    first [rewrite IH by assumption | rewrite app_assoc, IH by assumption].
    simpl rev. rewrite <- app_assoc. reflexivity.
Qed.

End Values.

(** The tokens of a value parse to that value. *)
Lemma parse_value j : forall stack b rest,
  parse_tokens (stack, EValue b) (tokens j ++ rest) = continue stack j rest.
Proof.
  induction j as [| c | n | s | items IH | fs IH]
    using JsonInduction.json_ind_nested; intros stack b rest;
    try apply parse_scalar.
  - cbn [tokens]. rewrite <- app_comm_cons, parse_cons.
    replace (parse_step (stack, EValue b) TLBrack)
      with (Some (FArr [] :: stack, EValue true))
      by (destruct b; reflexivity).
    cbn [mbind option_bind].
    destruct items as [| x xs].
    + simpl. unfold continue.
      destruct (push_value stack (JArr [])); reflexivity.
    + inversion IH as [| ? ? Hx Hxs]; subst.
      rewrite <- app_assoc.
      exact (parse_array_items
               (fun j => forall stack b rest,
                  parse_tokens (stack, EValue b) (tokens j ++ rest)
                  = continue stack j rest)
               (fun j H => H) xs x [] stack true rest Hx Hxs).
  - cbn [tokens]. rewrite <- app_comm_cons, parse_cons.
    replace (parse_step (stack, EValue b) TLBrace)
      with (Some (FObj [] None :: stack, EKey true))
      by (destruct b; reflexivity).
    cbn [mbind option_bind].
    destruct fs as [| [k v] kvs].
    + simpl. unfold continue.
      destruct (push_value stack (JObj [])); reflexivity.
    + inversion IH as [| ? ? Hv Hkvs]; subst. cbn [snd] in Hv.
      rewrite <- app_assoc.
      exact (parse_object_members
               (fun j => forall stack b rest,
                  parse_tokens (stack, EValue b) (tokens j ++ rest)
                  = continue stack j rest)
               (fun j H => H) kvs k v [] stack true rest Hv Hkvs).
Qed.

End RoundTripFacts.

(* ===================================================================== *)
(** ** From the rows of the source to the products the server loads *)
(* ===================================================================== *)

Module PipelineFacts.
Import Str Js Types Transform Fs CsvProcessor Stringify StringifySpec.
Import ProcessorSpec PipelineSpec StoreSpec RoundTripFacts.

Section WithNumberToString.
Variable nts : Q -> string.

Lemma parse_stringify j :
  printable nts j -> Json.parse (stringify nts j) = Some (canon j).
Proof.
  intros Hp. unfold Json.parse, Json.lex, stringify.
  rewrite RecordFacts.chars_of_to_string.
  pose proof (lex_serialize nts j Hp 0 [] [] I) as Hlex.
  rewrite !app_nil_r in Hlex. rewrite Hlex.
  cbn [Json.lex_from Json.flush fst snd mbind option_bind].
  rewrite rev_involutive.
  pose proof (parse_value (canon j) [] false []) as Hparse.
  rewrite app_nil_r in Hparse. unfold value_tokens. rewrite Hparse.
  reflexivity.
Qed.

Lemma canon_index ps md :
  canon (of_index ps md)
  = JObj [("products", JArr (List.map canon (of_product <$> ps)));
          ("metadata", canon (of_metadata md))].
Proof. reflexivity. Qed.

Lemma index_text_products ps md :
  printable nts (of_index ps md) ->
  products_array (JSON_stringify nts ps md) = Some (loaded ps).
Proof.
  intros Hp. unfold products_array, JSON_stringify.
  rewrite (parse_stringify _ Hp), canon_index. reflexivity.
Qed.

(** [JSON.parse(JSON.stringify(value, null, 2))]: the text of a value
    whose numbers print always parses, and it parses to the value with
    every number that is not finite turned into [null] and every object
    reduced to its own properties in enumeration order.  In particular a
    number, a string, a boolean or [null] reads back as itself, and an
    array reads back item by item. *)
Theorem stringify_reads_back j :
  printable nts j ->
  Json.parse (stringify nts j) = Some (canon j) /\
  (forall s, j = JStr s -> Json.parse (stringify nts j) = Some (JStr s)) /\
  (forall q, j = JNum (Fin q) ->
             Json.parse (stringify nts j) = Some (JNum (Fin q))) /\
  (j = JNum NaN -> Json.parse (stringify nts j) = Some JNull) /\
  (forall items, j = JArr items ->
     Json.parse (stringify nts j) = Some (JArr (canon <$> items))).
Proof.
  intros Hp. rewrite (parse_stringify j Hp).
  split; [reflexivity |].
  split; [intros s ->; reflexivity |].
  split; [intros q ->; reflexivity |].
  split; [intros ->; reflexivity |].
  intros items ->. reflexivity.
Qed.

(** The serialised index always passes step 3 of [saveSearchIndex], and
    its [products] array holds one value for each product, in order. *)
Theorem serialised_index_valid ps md :
  printable nts (of_index ps md) ->
  Persist.validate (JSON_stringify nts ps md) = Ok tt /\
  products_array (JSON_stringify nts ps md) = Some (loaded ps) /\
  List.length (loaded ps) = List.length ps.
Proof.
  intros Hp. pose proof (index_text_products ps md Hp) as Harr.
  split; [apply StoreFacts.products_array_validate; rewrite Harr; eauto |].
  split; [exact Harr |].
  unfold loaded. rewrite !length_fmap. reflexivity.
Qed.

(** *** Building, then loading *)

Import Persist PersistSpec.

(** One build in which no call fails, outside production, on rows whose
    numbers print: [processCSV] returns the accepted records, the index
    file holds their serialised form, and [loadIndex] then hands out
    exactly one value for each accepted record, in the order of the rows:
    the record as it reads back. *)
Theorem build_then_load this rows env σ loader :
  isProduction env = false ->
  CsvProcessor.faults env = Persist.no_faults ->
  Startup.indexPath loader = Persist.indexPath ->
  printable nts (built_index nts this rows (isoTime env)) ->
  let run := processCSV nts (JSON_stringify nts) this (rows, None) env σ in
  (exists r, run.2 = Ok r /\ products r = built nts this rows) /\
  holds run.1.1 indexPath
        (stringify nts (built_index nts this rows (isoTime env))) /\
  Startup.loadIndex loader Startup.no_faults run.1.1
  = (run.1.1, Ok (loaded (built nts this rows))).
Proof.
  intros Hprod Hfaults Hpath Hprint. cbv zeta.
  destruct (ProcessorFacts.processCSV_saves nts (JSON_stringify nts)
              this rows env σ) as [Hstate Hout].
  cbv zeta in Hstate, Hout. rewrite Hprod, Hfaults in Hstate, Hout.
  fold (built nts this rows) in Hstate, Hout.
  set (good := built nts this rows) in *.
  set (md := generateMetadata good (isoTime env)) in *.
  assert (Harr : products_array (JSON_stringify nts good md)
                 = Some (loaded good))
    by (apply index_text_products; exact Hprint).
  assert (Hv : validate (JSON_stringify nts good md) = Ok tt)
    by (apply StoreFacts.products_array_validate; rewrite Harr; eauto).
  destruct (StoreFacts.save_no_faults _ (writeTime env) σ Hv)
    as (σ' & Hrun & Hidx & _).
  rewrite Hrun in Hstate, Hout. cbn [fst snd] in Hstate, Hout.
  rewrite Hstate.
  split; [destruct Hout as [m ->]; eexists; split; reflexivity |].
  split; [unfold holds; rewrite Hidx; reflexivity |].
  apply (StoreFacts.load_holding loader σ' _ _ Hpath Hidx). exact Harr.
Qed.

(** *** The first start *)

Section WithReader.
Variable csv_parse : string -> list (gmap string cell).

Lemma production_build_runs env σ src :
  isProduction env = false ->
  CsvProcessor.faults env = Persist.no_faults ->
  σ !! "public/products.csv" = Some src ->
  printable nts (built_index nts production (csv_parse (Fs.content src))
                             (isoTime env)) ->
  let rows := csv_parse (Fs.content src) in
  exists σ',
    Pipeline.production_processCSV nts csv_parse env "public/products.csv" σ
    = (σ', Ok tt) /\
    σ' !! "public/products.csv" = Some src /\
    holds σ' indexPath (stringify nts (built_index nts production rows
                                                   (isoTime env))) /\
    Startup.loadIndex Fixtures.default_startup Startup.no_faults σ'
    = (σ', Ok (loaded (built nts production rows))).
Proof.
  intros Hprod Hfaults Hsrc Hprint. cbv zeta.
  unfold Pipeline.production_processCSV, Pipeline.open_stream.
  rewrite Hsrc.
  set (rows := csv_parse (Fs.content src)) in *.
  destruct (ProcessorFacts.processCSV_saves nts (JSON_stringify nts)
              production rows env σ) as [Hstate Hout].
  cbv zeta in Hstate, Hout. rewrite Hprod, Hfaults in Hstate, Hout.
  fold (built nts production rows) in Hstate, Hout.
  set (good := built nts production rows) in *.
  set (md := generateMetadata good (isoTime env)) in *.
  assert (Harr : products_array (JSON_stringify nts good md)
                 = Some (loaded good))
    by (apply index_text_products; exact Hprint).
  assert (Hv : validate (JSON_stringify nts good md) = Ok tt)
    by (apply StoreFacts.products_array_validate; rewrite Harr; eauto).
  destruct (StoreFacts.save_no_faults _ (writeTime env) σ Hv)
    as (σ' & Hrun & Hidx & _ & _ & _ & Hrest).
  rewrite Hrun in Hstate, Hout. cbn [fst snd] in Hstate, Hout.
  destruct (processCSV nts (JSON_stringify nts) production (rows, None) env σ)
    as [[σ1 m1] r1].
  cbn [fst snd] in Hstate, Hout. subst σ1. destruct Hout as [m ->].
  exists σ'. split; [reflexivity |]. split; [| split].
  - rewrite Hrest; [exact Hsrc |]. unfold data_paths. intros Hin.
    repeat (apply elem_of_cons in Hin as [Hin | Hin]; [discriminate |]).
    inversion Hin.
  - unfold holds. rewrite Hidx. reflexivity.
  - apply (StoreFacts.load_holding Fixtures.default_startup σ' _ _
             eq_refl Hidx). exact Harr.
Qed.

(** The first start of the server outside production, with the source in
    place, no index yet and no failing call: [initializeSearchIndex]
    builds the index with the production processor and hands out one
    value for each row the transform accepts, in the order of the rows;
    the index file then holds the serialised index and the source is
    untouched.  In production the same call loads only: with no index
    file it fails with the `index not found' error and writes nothing. *)
Theorem first_start env now σ src :
  CsvProcessor.faults env = Persist.no_faults ->
  σ !! "public/products.csv" = Some src ->
  σ !! "data/search-index.json" = None ->
  let rows := csv_parse (Fs.content src) in
  let start := Pipeline.initializeSearchIndex nts csv_parse false env now
                 Startup.no_faults σ in
  (isProduction env = true ->
   start = (σ, Throw Startup.not_found)) /\
  (isProduction env = false ->
   printable nts (built_index nts production rows (isoTime env)) ->
   start.2 = Ok (loaded (built nts production rows)) /\
   holds start.1 indexPath
         (stringify nts (built_index nts production rows (isoTime env))) /\
   start.1 !! "public/products.csv" = Some src).
Proof.
  intros Hfaults Hsrc Hnone. cbv zeta.
  unfold Pipeline.initializeSearchIndex, Pipeline.createStartupProcessor.
  change (Startup.new_StartupProcessor _) with Fixtures.default_startup.
  unfold Startup.ensureSearchIndex.
  split.
  - intros ->. unfold Fs.io_try.
    rewrite StartupFacts.loadIndex_spec. unfold StartupSpec.load_result.
    change (Startup.indexPath Fixtures.default_startup)
      with "data/search-index.json".
    rewrite Hnone. reflexivity.
  - intros Hprod Hprint. rewrite Hprod.
    IoFacts.io_unfold.
    rewrite StartupFacts.shouldRegenerateIndex_spec.
    unfold StartupSpec.table.
    change (Startup.csvPath Fixtures.default_startup)
      with "public/products.csv".
    change (Startup.indexPath Fixtures.default_startup)
      with "data/search-index.json".
    rewrite Hsrc, Hnone. cbn iota beta. unfold Startup.generateIndex.
    change (Startup.csvPath Fixtures.default_startup)
      with "public/products.csv".
    destruct (production_build_runs env σ src Hprod Hfaults Hsrc Hprint)
      as (σ' & -> & Hsrc' & Hidx & Hload).
    cbn iota beta. rewrite Hload. cbn [fst snd].
    split; [reflexivity |]. split; assumption.
Qed.

End WithReader.

End WithNumberToString.

Lemma sample_index_printable :
  printable Fixtures.show_Q
    (built_index Fixtures.show_Q production Fixtures.sample_rows
                 (isoTime (Fixtures.sample_env false))).
Proof. vm_compute. repeat split; reflexivity. Defined.

Lemma stringify_reads_back_witness :
  let j := built_index Fixtures.show_Q production Fixtures.sample_rows
             (isoTime (Fixtures.sample_env false)) in
  Json.parse (stringify Fixtures.show_Q j) = Some (canon j).
Proof.
  exact (proj1 (stringify_reads_back Fixtures.show_Q _
                  sample_index_printable)).
Defined.

Lemma serialised_index_valid_witness :
  let ps := built Fixtures.show_Q production Fixtures.sample_rows in
  let md := generateMetadata ps (isoTime (Fixtures.sample_env false)) in
  Persist.validate (JSON_stringify Fixtures.show_Q ps md) = Ok tt.
Proof.
  exact (proj1 (serialised_index_valid Fixtures.show_Q _ _
                  sample_index_printable)).
Defined.

Lemma build_then_load_witness :
  let run := processCSV Fixtures.show_Q (JSON_stringify Fixtures.show_Q)
               production (Fixtures.sample_rows, None)
               (Fixtures.sample_env false) Fixtures.disk_with_source in
  Startup.loadIndex Fixtures.default_startup Startup.no_faults run.1.1
  = (run.1.1,
     Ok (loaded (built Fixtures.show_Q production Fixtures.sample_rows))).
Proof.
  exact (proj2 (proj2 (build_then_load Fixtures.show_Q production
                         Fixtures.sample_rows (Fixtures.sample_env false)
                         Fixtures.disk_with_source Fixtures.default_startup
                         eq_refl eq_refl eq_refl sample_index_printable))).
Defined.

Lemma first_start_witness :
  (Pipeline.initializeSearchIndex Fixtures.show_Q Fixtures.sample_csv_parse
     false (Fixtures.sample_env false) 20 Startup.no_faults
     Fixtures.disk_with_source).2
  = Ok (loaded (built Fixtures.show_Q production Fixtures.sample_rows)).
Proof.
  exact (proj1 (proj2 (first_start Fixtures.show_Q Fixtures.sample_csv_parse
                         (Fixtures.sample_env false) 20
                         Fixtures.disk_with_source Fixtures.source_file
                         eq_refl eq_refl eq_refl)
                  eq_refl sample_index_printable)).
Defined.

(** *** A record as it is loaded *)

Lemma canon_product p :
  canon (of_product p)
  = JObj (List.map (fun kv : string * json => (kv.1, canon kv.2)) (members p)).
Proof.
  unfold members, of_product.
  destruct (handle p), (totalInventory p), (hasOutOfStockVariants p),
    (isGiftCard p), (featuredImage p), (price p); reflexivity.
Qed.

Lemma stable_items items : Forall stable items -> List.map canon items = items.
Proof.
  induction 1 as [| x t Hx _ IH]; [reflexivity |].
  simpl. rewrite Hx, IH. reflexivity.
Qed.

(** The object of a record reads back with the same members in the same
    order, each value as it reads back; a record whose numbers are finite
    and whose tags and images are strings reads back exactly as it was
    built; and a price that is not a number reads back as [null]. *)
Theorem loaded_record p :
  of_product p = JObj (members p) /\
  canon (of_product p)
  = JObj (List.map (fun kv : string * json => (kv.1, canon kv.2))
                   (members p)) /\
  (plain p -> canon (of_product p) = of_product p) /\
  (Forall (fun j => exists s, j = JStr s) (tags p) -> Forall stable (tags p)) /\
  (min (priceRange p) = NaN ->
   Json.field "priceRange" (List.map (fun kv : string * json =>
                                        (kv.1, canon kv.2)) (members p))
   = Some (JObj [("min", JNull);
                 ("max", canon (JNum (max (priceRange p))))])).
Proof.
  split; [reflexivity |]. split; [apply canon_product |].
  split; [| split].
  - intros (Hmin & Hmax & Hinv & Hprice & Htags & Himgs & Hfeat).
    rewrite canon_product. unfold members, of_product.
    destruct Hmin as [qmin Emin], Hmax as [qmax Emax].
    rewrite Emin, Emax.
    destruct (handle p); destruct (totalInventory p) as [n |];
      [destruct (Hinv n eq_refl) as [qi ->] | |
       destruct (Hinv n eq_refl) as [qi ->] |];
      destruct (hasOutOfStockVariants p), (isGiftCard p);
      destruct (featuredImage p) as [fj |];
      try (pose proof (Hfeat fj eq_refl) as Hfj; unfold stable in Hfj);
      destruct (price p) as [pn |];
      try (destruct (Hprice pn eq_refl) as [qp ->]);
      cbn [optional app List.map fst snd canon];
      rewrite ?Hfj, ?(stable_items _ Htags), ?(stable_items _ Himgs);
      reflexivity.
  - intros H. eapply Forall_impl; [exact H |].
    intros j [s ->]. reflexivity.
  - intros Hnan. unfold members, of_product. rewrite Hnan.
    destruct (handle p), (totalInventory p), (hasOutOfStockVariants p),
      (isGiftCard p), (featuredImage p), (price p); reflexivity.
Qed.

Lemma loaded_record_witness :
  canon (of_product Fixtures.iphone) = of_product Fixtures.iphone.
Proof.
  apply (proj1 (proj2 (proj2 (loaded_record Fixtures.iphone)))).
  unfold plain, finite, stable.
  repeat split; eauto; try discriminate.
  - intros n [= <-]. eauto.
  - repeat constructor.
  - repeat constructor.
Defined.

End PipelineFacts.
